(** * web-structure: a shallow embedding of [src/index.ts]

    The development follows the source file top-down: JavaScript values the
    program manipulates (strings, [Set<string>], thrown values), the part of
    the DOM that the [$$eval] callbacks read, the browser engine as an
    oracle, then [retry], [scrapeWebPage] and [scraping], and finally the
    properties of the orchestration.

    Modelling decisions:
    - asynchronous code is run to completion in program order; the tasks of
      a [Promise.allSettled] run in array order;
    - numbers that count ([maxDepth], [retryCount], the timeouts) are
      integers; durations are rationals, an idealisation of the doubles;
    - the document of a loaded page does not change while the page is
      scraped; what the browser answers is otherwise unconstrained;
    - [excludeChildPage] is a total function without effects, and
      [browser.close()] does not throw;
    - the [data] object of a page is the list of its own properties in
      creation order; its prototype is left out;
    - the recursion of [scrapeWebPage] is bounded by fuel; [scraping]
      provides enough of it (lemma [sound_scrapeWebPage]). *)

From Stdlib Require Import String Ascii List ZArith QArith Qpower Lia Bool Lqa.
From Stdlib Require Import DecimalString.
Import ListNotations.
Local Open Scope string_scope.
Local Open Scope list_scope.

Set Implicit Arguments.
Local Set Warnings "-register-all".

(* ================================================================== *)
(** ** JavaScript strings

    A string is a sequence of code units; the model keeps the code units
    below 256, where the white space of [String.prototype.trim] and of the
    regular expression class [\s] is TAB, LF, VT, FF, CR, SPACE and NBSP. *)

Module JsString.

Definition isWhiteSpace (c : ascii) : bool :=
  let n := nat_of_ascii c in
  ((9 <=? n)%nat && (n <=? 13)%nat) || (n =? 32)%nat || (n =? 160)%nat.

Fixpoint trimStart (s : string) : string :=
  match s with
  | EmptyString => EmptyString
  | String c rest => if isWhiteSpace c then trimStart rest else s
  end.

Fixpoint trimEnd (s : string) : string :=
  match s with
  | EmptyString => EmptyString
  | String c rest =>
      match trimEnd rest with
      | EmptyString => if isWhiteSpace c then EmptyString else String c EmptyString
      | kept => String c kept
      end
  end.

(** [s.trim()] *)
Definition trim (s : string) : string := trimEnd (trimStart s).

(** [s.replace(/\s+/g, ' ')]: every maximal run of white space becomes one
    space; [inRun] says that the previous code unit was white space. *)
Fixpoint collapseRuns (inRun : bool) (s : string) : string :=
  match s with
  | EmptyString => EmptyString
  | String c rest =>
      if isWhiteSpace c
      then (if inRun then collapseRuns true rest
            else String " " (collapseRuns true rest))
      else String c (collapseRuns false rest)
  end.

Definition replaceWhiteSpace (s : string) : string := collapseRuns false s.

(** [s.startsWith(p)] *)
Definition startsWith (s p : string) : bool := String.prefix p s.

(** Truthiness of a string: only the empty string is falsy. *)
Definition truthy (s : string) : bool := negb (s =? "").

(** [xs.join(sep)] *)
Definition join (sep : string) (xs : list string) : string := String.concat sep xs.

(** [String(n)] for a non-negative integer. *)
Definition ofNat (n : nat) : string := NilEmpty.string_of_uint (Nat.to_uint n).

End JsString.

(* ================================================================== *)
(** ** [Set<string>]: insertion-ordered, no duplicates *)

Module JsSet.

Definition t := list string.

Definition empty : t := [].

(** [s.has(x)] *)
Definition has (x : string) (s : t) : bool := existsb (String.eqb x) s.

(** [s.add(x)]: appends [x] unless it is already a member. *)
Definition add (x : string) (s : t) : t := if has x s then s else s ++ [x].

(** [new Set(xs)] *)
Definition ofArray (xs : list string) : t := fold_left (fun s x => add x s) xs empty.

(** [[...s]] *)
Definition toArray (s : t) : list string := s.

End JsSet.

(* ================================================================== *)
(** ** Thrown values and outcomes *)

(** Values the program throws or that reject a promise: an [Error] object
    ([name], [message]) or [undefined] (what [retry] throws when it made no
    attempt). *)
Inductive Thrown : Type :=
| Undefined
| Error (name message : string).

(** [new Error(msg)] *)
Definition newError (msg : string) : Thrown := Error "Error" msg.

(** The template-literal conversion [`${error}`]. *)
Definition Thrown_toString (e : Thrown) : string :=
  match e with
  | Undefined => "undefined"
  | Error name message =>
      if (message =? "") then name
      else if (name =? "") then message
      else (name ++ ": " ++ message)%string
  end.

(** A settled promise, as [Promise.allSettled] reports it, and the result of
    a call into the browser engine. *)
Inductive Settled (A : Type) : Type :=
| Fulfilled (value : A)
| Rejected (reason : Thrown).
Arguments Fulfilled {A} value.
Arguments Rejected {A} reason.

(* ================================================================== *)
(** ** The DOM read by the [$$eval] callbacks

    A document is a tree of element and text nodes.  An element handle is
    the path of child indices leading to it, innermost index first, so that
    [parentElement] drops the head; the root element has the empty path and
    no parent element.  Handles are compared by identity, which for paths is
    equality. *)

Inductive node : Type :=
| TextNode (data : string)
| ElementNode (tagName : string) (href : string) (childNodes : list node).

Definition Element := list nat.

Module Dom.

Fixpoint Element_eqb (a b : Element) : bool :=
  match a, b with
  | [], [] => true
  | i :: a', j :: b' => (i =? j)%nat && Element_eqb a' b'
  | _, _ => false
  end.

(** [els.includes(el)] *)
Definition includes (els : list Element) (el : Element) : bool :=
  existsb (Element_eqb el) els.

(** [el.parentElement] *)
Definition parentElement (el : Element) : option Element :=
  match el with
  | [] => None
  | _ :: up => Some up
  end.

(** Resolving a handle, outermost index first. *)
Fixpoint descend (n : node) (route : list nat) : option node :=
  match route with
  | [] => Some n
  | i :: route' =>
      match n with
      | TextNode _ => None
      | ElementNode _ _ kids =>
          match nth_error kids i with
          | Some kid => descend kid route'
          | None => None
          end
      end
  end.

Definition nodeAt (doc : node) (el : Element) : option node := descend doc (rev el).

(** [node.textContent]: the concatenated data of the text descendants. *)
Fixpoint textOf (n : node) : string :=
  match n with
  | TextNode data => data
  | ElementNode _ _ kids =>
      (fix cat (ks : list node) : string :=
         match ks with
         | [] => ""
         | k :: ks' => (textOf k ++ cat ks')%string
         end) kids
  end.

(** [el.textContent], [None] standing for [null]. *)
Definition textContent (doc : node) (el : Element) : option string :=
  option_map textOf (nodeAt doc el).

(** [a.href] *)
Definition hrefOf (doc : node) (el : Element) : string :=
  match nodeAt doc el with
  | Some (ElementNode _ h _) => h
  | _ => ""
  end.

Definition tagOf (doc : node) (el : Element) : option string :=
  match nodeAt doc el with
  | Some (ElementNode t _ _) => Some t
  | _ => None
  end.

(** All element handles below [n] (itself included) in document order;
    [here] is the handle of [n]. *)
Fixpoint elementsFrom (n : node) (here : Element) : list Element :=
  match n with
  | TextNode _ => []
  | ElementNode _ _ kids =>
      here ::
      (fix each (ks : list node) (i : nat) : list Element :=
         match ks with
         | [] => []
         | k :: ks' => elementsFrom k (i :: here) ++ each ks' (S i)
         end) kids 0%nat
  end.

Definition allElements (doc : node) : list Element := elementsFrom doc [].

(** [A] contains [B]: [A] is reached from [B] by one or more
    [parentElement] steps. *)
Definition contains (A B : Element) : Prop :=
  exists above, above <> [] /\ B = above ++ A.

End Dom.

(** The selector engine of the browser ([element.matches(selector)] for the
    element at a handle of a document) is not part of the program. *)
Definition SelectorEngine := node -> Element -> string -> bool.

(** [document.querySelectorAll(selector)], in document order. *)
Definition querySelectorAll (engine : SelectorEngine) (doc : node) (selector : string)
  : list Element :=
  filter (fun el => engine doc el selector) (Dom.allElements doc).

(** A selector engine that knows type selectors only: a selector matches the
    elements whose tag name it is. *)
Definition tagEngine : SelectorEngine :=
  fun doc el selector =>
    match Dom.tagOf doc el with
    | Some t => (t =? selector)
    | None => false
    end.

(* ================================================================== *)
(** ** The callback of [page.$$eval(singleSelector, els => ...)]
    (index.ts, lines 176-195) *)

(** The [while (parent)] loop: [parent] is a non-null element; the result is
    [true] when neither it nor any element above it is in [els]. *)
Fixpoint noneSelectedFrom (els : list Element) (parent : Element) : bool :=
  if Dom.includes els parent then false
  else match parent with
       | [] => true
       | _ :: up => noneSelectedFrom els up
       end.

(** The predicate given to [els.filter]. *)
Definition keepElement (els : list Element) (el : Element) : bool :=
  match Dom.parentElement el with
  | None => true
  | Some parent => noneSelectedFrom els parent
  end.

(** [el.textContent?.trim().replace(/\s+/g, ' ') || ''] *)
Definition elementText (doc : node) (el : Element) : string :=
  match Dom.textContent doc el with
  | Some text =>
      let s := JsString.replaceWhiteSpace (JsString.trim text) in
      if JsString.truthy s then s else ""
  | None => ""
  end.

Definition evalCallback (doc : node) (els : list Element) : list string :=
  let filteredEls := filter (keepElement els) els in
  filter JsString.truthy (map (elementText doc) filteredEls).


(* ================================================================== *)
(** ** The browser engine and the rest of the platform, as an oracle

    Everything the program obtains from Puppeteer, the clock, the random
    generator and the [URL] parser is read from a [World].  A page is
    scraped at most once per session (the visited set sees to that), so what
    the browser does for a page is indexed by the address being scraped. *)

Record Page : Type := {
  (** [page.title()] *)
  title : Settled string;
  (** [page.waitForSelector(selector, {timeout})], at the given invocation
      of the retried operation *)
  waitForSelector : string -> Z -> nat -> Settled unit;
  (** the reason with which [page.$$eval(selector, ...)] rejects, if it does *)
  evalRejects : string -> option Thrown;
  (** the document the [$$eval] callbacks run against *)
  document : node
}.

Record Browser : Type := {
  (** [puppeteer.launch({headless: true})] *)
  launch : Settled unit;
  (** [browser.newPage()] *)
  newPage : Settled unit;
  (** [page.goto(url, {waitUntil: 'networkidle0', timeout})] *)
  goto : Z -> Settled unit;
  page : Page
}.

Record World : Type := {
  puppeteer : string -> Browser;
  engine : SelectorEngine;
  (** [new URL(s).hostname], [None] when the constructor throws *)
  URL_hostname : string -> option string;
  (** [new Date().toISOString()] at the n-th reading of the clock *)
  toISOString : nat -> string;
  (** the n-th value of [Math.random()] *)
  Math_random : nat -> Q
}.

(** What the program does to the outside, in order. *)
Inductive Event : Type :=
| EvLaunch
| EvNewPage
| EvGoto (url : string) (timeout : Z)
| EvClose
| EvLog (message : string)
| EvSleep (ms : Q).

(** The mutable state of one run: the shared [visitedUrls] set, the events
    so far and how often the clock and the random generator were read. *)
Record State : Type := {
  visitedUrls : JsSet.t;
  trace : list Event;
  clockReads : nat;
  randomReads : nat
}.

Definition initialState : State :=
  {| visitedUrls := JsSet.empty; trace := []; clockReads := 0; randomReads := 0 |}.

(** One more reading of the clock, one more value drawn from the random
    generator. *)
Definition bumpClock (st : State) : State :=
  {| visitedUrls := visitedUrls st; trace := trace st;
     clockReads := S (clockReads st); randomReads := randomReads st |}.

Definition bumpRandom (st : State) : State :=
  {| visitedUrls := visitedUrls st; trace := trace st;
     clockReads := clockReads st; randomReads := S (randomReads st) |}.

(** How a computation ends.  [OutOfFuel] belongs to the model only: it is
    what a recursion returns when its fuel is spent. *)
Inductive Completion (A : Type) : Type :=
| Return (value : A)
| Throw (error : Thrown)
| OutOfFuel.
Arguments Return {A} value.
Arguments Throw {A} error.
Arguments OutOfFuel {A}.

(** Computations: state passing with exceptions. *)
Definition M (A : Type) : Type := State -> Completion A * State.

Definition ret {A} (a : A) : M A := fun st => (Return a, st).

Definition throw {A} (e : Thrown) : M A := fun st => (Throw e, st).

Definition bind {A B} (m : M A) (k : A -> M B) : M B :=
  fun st =>
    match m st with
    | (Return a, st') => k a st'
    | (Throw e, st') => (Throw e, st')
    | (OutOfFuel, st') => (OutOfFuel, st')
    end.

Notation "x <- m ;; k" := (bind m (fun x => k))
  (at level 61, m at next level, right associativity).
Notation "m ;;; k" := (bind m (fun _ => k))
  (at level 61, right associativity).

(** [try { m } catch (error) { handler error }] *)
Definition tryCatch {A} (m : M A) (handler : Thrown -> M A) : M A :=
  fun st =>
    match m st with
    | (Throw e, st') => handler e st'
    | other => other
    end.

(** [try { m } finally { cleanup }], for a [cleanup] that does not throw. *)
Definition tryFinally {A} (m : M A) (cleanup : State -> State) : M A :=
  fun st => let (c, st') := m st in (c, cleanup st').

(** [await p] for a promise settled by the world. *)
Definition await {A} (p : Settled A) : M A :=
  match p with
  | Fulfilled v => ret v
  | Rejected e => throw e
  end.

Definition emitTo (ev : Event) (st : State) : State :=
  {| visitedUrls := visitedUrls st; trace := trace st ++ [ev];
     clockReads := clockReads st; randomReads := randomReads st |}.

Definition emit (ev : Event) : M unit := fun st => (Return tt, emitTo ev st).

(** [Promise.allSettled(tasks)]: every task runs, a task that throws yields
    a rejected entry.  The tasks are interleaved by the scheduler; their
    results do not depend on the interleaving, and the model runs them in
    array order. *)
Fixpoint allSettled {A} (tasks : list (M A)) : M (list (Settled A)) :=
  match tasks with
  | [] => ret []
  | task :: tasks' =>
      fun st =>
        match task st with
        | (Return v, st') => bind (allSettled tasks') (fun rs => ret (Fulfilled v :: rs)) st'
        | (Throw e, st') => bind (allSettled tasks') (fun rs => ret (Rejected e :: rs)) st'
        | (OutOfFuel, st') => (OutOfFuel, st')
        end
  end.

(* ================================================================== *)
(** ** Options (index.ts, lines 13-79) *)

Definition MAX_DEEPEST_DEPTH : Z := 10.

(** [string | string[]] *)
Inductive Selector : Type :=
| One (selector : string)
| Many (selectors : list string).

(** [`${selector}`] *)
Definition Selector_toString (s : Selector) : string :=
  match s with
  | One sel => sel
  | Many sels => JsString.join "," sels
  end.

(** [Required<ScrapingOptions>].  [selectors] holds [Object.entries] of the
    selector object.  [excludeChildPage] is [None] when the property holds
    [undefined], which is what line 249 tests for. *)
Record Options : Type := {
  maxDepth : Z;
  excludeChildPage : option (string -> bool);
  selectors : list (string * Selector);
  withConsole : bool;
  breakWhenFailed : bool;
  retryCount : Z;
  waitForSelectorTimeout : Z;
  waitForPageLoadTimeout : Z
}.

Definition DefaultScrapingOptions : Options := {|
  maxDepth := 0;
  selectors := [ ("headings", Many ["h1"; "h2"; "h3"; "h4"; "h5"]);
                 ("paragraphs", One "p");
                 ("articles", One "article");
                 ("spans", One "span");
                 ("orderLists", One "ol");
                 ("lists", One "ul") ];
  excludeChildPage := Some (fun _ => false);
  withConsole := true;
  breakWhenFailed := false;
  retryCount := 3;
  waitForSelectorTimeout := 12000;
  waitForPageLoadTimeout := 12000
|}.

(** The caller's [ScrapingOptions]: every property may be left out ([None]).
    For [excludeChildPage] the model also has the caller who writes the
    property with the value [undefined] ([Some None]); [Object.assign]
    copies that value over the default. *)
Module Partial.
Record ScrapingOptions : Type := {
  maxDepth : option Z;
  excludeChildPage : option (option (string -> bool));
  selectors : option (list (string * Selector));
  withConsole : option bool;
  breakWhenFailed : option bool;
  retryCount : option Z;
  waitForSelectorTimeout : option Z;
  waitForPageLoadTimeout : option Z
}.

(** [{}] *)
Definition none : ScrapingOptions := {|
  maxDepth := None; excludeChildPage := None; selectors := None;
  withConsole := None; breakWhenFailed := None; retryCount := None;
  waitForSelectorTimeout := None; waitForPageLoadTimeout := None |}.
End Partial.

Definition orDefault {A} (supplied : option A) (default : A) : A :=
  match supplied with
  | Some v => v
  | None => default
  end.

(** [Object.assign({}, defaults, _options)] *)
Definition assign (defaults : Options) (_options : Partial.ScrapingOptions) : Options := {|
  maxDepth := orDefault (Partial.maxDepth _options) (maxDepth defaults);
  excludeChildPage := orDefault (Partial.excludeChildPage _options) (excludeChildPage defaults);
  selectors := orDefault (Partial.selectors _options) (selectors defaults);
  withConsole := orDefault (Partial.withConsole _options) (withConsole defaults);
  breakWhenFailed := orDefault (Partial.breakWhenFailed _options) (breakWhenFailed defaults);
  retryCount := orDefault (Partial.retryCount _options) (retryCount defaults);
  waitForSelectorTimeout :=
    orDefault (Partial.waitForSelectorTimeout _options) (waitForSelectorTimeout defaults);
  waitForPageLoadTimeout :=
    orDefault (Partial.waitForPageLoadTimeout _options) (waitForPageLoadTimeout defaults)
|}.

(* ================================================================== *)
(** ** Results *)

(** [string | string[]], the value of one field. *)
Inductive ExtractedValue : Type :=
| Scalar (text : string)
| Sequence (texts : list string).

(** The [data] object, created as [{}]: its own properties in creation
    order.  Its prototype is not part of the model. *)
Definition DataObject := list (string * ExtractedValue).

(** The own property [key] is given [value]: replaced where it exists,
    created after the others where it does not. *)
Fixpoint defineProperty (key : string) (value : ExtractedValue) (data : DataObject)
  : DataObject :=
  match data with
  | [] => [(key, value)]
  | (k, v) :: rest =>
      if (k =? key)%string then (k, value) :: rest
      else (k, v) :: defineProperty key value rest
  end.

(** [data[key] = value].  The name [__proto__] is the accessor that [data]
    inherits from [Object.prototype]: the assignment calls its setter, which
    ignores a string and takes an array as the new prototype, and no property
    is created.  Every other name inherited from [Object.prototype] is a
    writable data property, and the assignment creates an own property. *)
Definition setProperty (key : string) (value : ExtractedValue) (data : DataObject)
  : DataObject :=
  if (key =? "__proto__")%string then data else defineProperty key value data.

(** The names under which an assignment creates a property. *)
Definition isOwnName (key : string) : bool := negb (key =? "__proto__")%string.

(** The value of the own property [key] of [data], if there is one. *)
Fixpoint getProperty (key : string) (data : DataObject) : option ExtractedValue :=
  match data with
  | [] => None
  | (k, v) :: rest => if (k =? key)%string then Some v else getProperty key rest
  end.

(** [interface ScrapingResult]; [childPages] is [None] when the property is
    missing or holds [undefined], the two ways in which the source leaves
    it out of the serialised result. *)
Inductive ScrapingResult : Type :=
| mkResult (url title : string) (data : DataObject) (timestamp : string)
           (childPages : option (list ScrapingResult)).

Definition result_url (r : ScrapingResult) := let (u, _, _, _, _) := r in u.
Definition result_title (r : ScrapingResult) := let (_, t, _, _, _) := r in t.
Definition result_data (r : ScrapingResult) := let (_, _, d, _, _) := r in d.
Definition result_timestamp (r : ScrapingResult) := let (_, _, _, t, _) := r in t.
Definition result_childPages (r : ScrapingResult) := let (_, _, _, _, c) := r in c.

(* ================================================================== *)
(** ** The program *)

Section Program.

Variable w : World.

(** *** [isValidUrl], [isSameDomain] (lines 81-98) *)

Definition isValidUrl (urlString : string) : bool :=
  match URL_hostname w urlString with
  | Some _ => true
  | None => false
  end.

Definition isSameDomain (baseUrl targetUrl : string) : bool :=
  match URL_hostname w baseUrl with
  | Some base =>
      match URL_hostname w targetUrl with
      | Some target => (base =? target)%string
      | None => false
      end
  | None => false
  end.

(** *** [retry] (lines 100-121) *)

Definition random : M Q :=
  fun st => (Return (Math_random w (randomReads st)), bumpRandom st).

(** [await new Promise(resolve => setTimeout(resolve, ms))] *)
Definition sleep (ms : Q) : M unit := emit (EvSleep ms).

(** [delay * Math.pow(2, attempt) * (0.5 + u * 0.5)], over the rationals. *)
Definition backoffDelay (delay : Q) (attempt : nat) (u : Q) : Q :=
  (delay * Qpower 2 (Z.of_nat attempt) * (0.5 + u * 0.5))%Q.

(** The [for] loop from [attempt] on, with [iterations] rounds left.
    [operation k] is the k-th invocation of the operation: what a call
    does may change from one invocation to the next. *)
Fixpoint retryLoop {T} (iterations : nat) (operation : nat -> M T)
         (maxRetries : Z) (delay : Q) (attempt : nat) (lastError : Thrown) : M T :=
  match iterations with
  | O => throw lastError
  | S more =>
      tryCatch (operation attempt)
        (fun error =>
           (if (Z.of_nat attempt <? maxRetries - 1)%Z
            then u <- random ;; sleep (backoffDelay delay attempt u)
            else ret tt) ;;;
           retryLoop more operation maxRetries delay (S attempt) error)
  end.

(** [attempt] runs from 0 while [attempt < maxRetries]: [Z.to_nat maxRetries]
    rounds, none when [maxRetries] is not positive. *)
Definition retry {T} (operation : nat -> M T) (maxRetries : Z) (delay : Q) : M T :=
  retryLoop (Z.to_nat maxRetries) operation maxRetries delay 0 Undefined.

(** *** [scrapeWebPage] (lines 123-282) *)

Variable options : Options.

(** The logger that [scraping] builds (lines 289-292). *)
Definition logger (message : string) : M unit :=
  if withConsole options then emit (EvLog message) else ret tt.

(** [new Date().toISOString()] *)
Definition now : M string :=
  fun st => (Return (toISOString w (clockReads st)), bumpClock st).

(** [page.$$eval(selector, callback)] *)
Definition evalAll {A} (pg : Page) (selector : string) (callback : list Element -> A) : M A :=
  match evalRejects pg selector with
  | Some e => throw e
  | None => ret (callback (querySelectorAll (engine w) (document pg) selector))
  end.

(** One selector of a field (lines 171-198). *)
Definition selectorTask (pg : Page) (invocation : nat) (singleSelector : string)
  : M (list string) :=
  logger ("waiting for selector " ++ singleSelector ++ "...") ;;;
  await (waitForSelector pg singleSelector (waitForSelectorTimeout options) invocation) ;;;
  extractedElements <- evalAll pg singleSelector (evalCallback (document pg)) ;;
  ret extractedElements.

(** [res.status === 'fulfilled' ? res.value : []] *)
Definition valueOrEmpty (res : Settled (list string)) : list string :=
  match res with
  | Fulfilled value => value
  | Rejected _ => []
  end.

(** [Array.isArray(selector) ? selector : [selector]] *)
Definition selectorsOf (selector : Selector) : list string :=
  match selector with
  | Many sels => sels
  | One sel => [sel]
  end.

(** The operation handed to [retry] (lines 166-204). *)
Definition extractOperation (pg : Page) (selector : Selector) (invocation : nat)
  : M (list string) :=
  let selectors := selectorsOf selector in
  selectorResults <- allSettled (map (selectorTask pg invocation) selectors) ;;
  let allElements := concat (map valueOrEmpty selectorResults) in
  ret (JsSet.toArray (JsSet.ofArray allElements)).

(** [elements.length === 1 ? elements[0] : elements] *)
Definition collapse (elements : list string) : ExtractedValue :=
  match elements with
  | [only] => Scalar only
  | _ => Sequence elements
  end.

(** One entry of [selectorPromises] (lines 164-211). *)
Definition selectorPromise (pg : Page) (entry : string * Selector)
  : M (string * ExtractedValue) :=
  let (key, selector) := entry in
  tryCatch
    (elements <- retry (extractOperation pg selector) (retryCount options) 1000 ;;
     ret (key, collapse elements))
    (fun error =>
       logger ("Failed to extract " ++ key ++ " with selector "
               ++ Selector_toString selector ++ " after all retries: "
               ++ Thrown_toString error) ;;;
       ret (key, Scalar "")).

(** [results.forEach((res, idx) => ...)] (lines 218-229). *)
Fixpoint collectData (results : list (Settled (string * ExtractedValue)))
         (entrys : list (string * Selector)) (data : DataObject) : M DataObject :=
  match results, entrys with
  | res :: results', entry :: entrys' =>
      match res with
      | Rejected _ =>
          let msg := ("Failed to extract " ++ fst entry ++ " with selector "
                      ++ Selector_toString (snd entry))%string in
          logger msg ;;;
          if breakWhenFailed options then throw (newError msg)
          else collectData results' entrys' data
      | Fulfilled (key, value) =>
          collectData results' entrys' (setProperty key value data)
      end
  | _, _ => ret data
  end.

(** The callback of [page.$$eval('a', ...)] (lines 233-235). *)
Definition anchorsCallback (doc : node) (anchors : list Element) : list string :=
  filter (fun href => JsString.truthy href && JsString.startsWith href "http")
         (map (Dom.hrefOf doc) anchors).

(** The filter of lines 245-250; [visited] is [visitedUrls] when the
    filter runs. *)
Definition validLinks (url : string) (visited : JsSet.t) (uniqueLinks : list string)
  : list string :=
  filter (fun link =>
            isValidUrl link &&
            negb (JsSet.has link visited) &&
            match excludeChildPage options with
            | Some exclude => exclude link
            | None => isSameDomain url link
            end)
         uniqueLinks.

(** The recursive call is a parameter of the page body, [self]. *)
Variable self : string -> Z -> M ScrapingResult.

(** [for (const link of validLinks)] (lines 252-268). *)
Fixpoint scrapeChildren (currentDepth : Z) (links : list string)
         (childPages : list ScrapingResult) : M (list ScrapingResult) :=
  match links with
  | [] => ret childPages
  | link :: rest =>
      logger ("scraping " ++ link ++ "...") ;;;
      childPages' <-
        tryCatch
          (childResult <- self link (currentDepth + 1)%Z ;;
           ret (childPages ++ [childResult]))
          (fun error =>
             logger ("Error scraping child page " ++ link ++ ": "
                     ++ Thrown_toString error) ;;;
             if breakWhenFailed options then throw error else ret childPages) ;;
      scrapeChildren currentDepth rest childPages'
  end.

(** Lines 161-229: all fields, then the [data] object. *)
Definition extractData (pg : Page) : M DataObject :=
  let entrys := selectors options in
  results <- allSettled (map (selectorPromise pg) entrys) ;;
  collectData results entrys [].

(** Lines 232-240: the links of the page, without duplicates. *)
Definition collectLinks (pg : Page) : M (list string) :=
  links <- evalAll pg "a" (anchorsCallback (document pg)) ;;
  let uniqueLinks := JsSet.toArray (JsSet.ofArray links) in
  logger ("found " ++ JsString.ofNat (length uniqueLinks) ++ " links. Links: "
          ++ JsString.join ", " uniqueLinks) ;;;
  ret uniqueLinks.

(** Lines 243-269: the child pages. *)
Definition recurse (url : string) (currentDepth : Z) (uniqueLinks : list string)
  : M (list ScrapingResult) :=
  if (currentDepth <? maxDepth options)%Z
  then (fun st => scrapeChildren currentDepth
                    (validLinks url (visitedUrls st) uniqueLinks) [] st)
  else ret [].

(** [childPages.length > 0 ? childPages : undefined] *)
Definition orUndefined (childPages : list ScrapingResult) : option (list ScrapingResult) :=
  match childPages with
  | [] => None
  | _ :: _ => Some childPages
  end.

(** The [try] block (lines 145-277). *)
Definition pageBody (url : string) (currentDepth : Z) : M ScrapingResult :=
  let b := puppeteer w url in
  let pg := page b in
  emit EvNewPage ;;;
  await (newPage b) ;;;
  logger ("prepare loading " ++ url ++ "...") ;;;
  emit (EvGoto url (waitForPageLoadTimeout options)) ;;;
  await (goto b (waitForPageLoadTimeout options)) ;;;
  title <- await (title pg) ;;
  data <- extractData pg ;;
  uniqueLinks <- collectLinks pg ;;
  childPages <- recurse url currentDepth uniqueLinks ;;
  timestamp <- now ;;
  ret (mkResult url title data timestamp (orUndefined childPages)).

Definition markVisited (url : string) (st : State) : State :=
  {| visitedUrls := JsSet.add url (visitedUrls st); trace := trace st;
     clockReads := clockReads st; randomReads := randomReads st |}.

(** Lines 129-282 for one call, the recursive calls going to [self]. *)
Definition scrapeWebPageWith (url : string) (currentDepth : Z) : M ScrapingResult :=
  fun st =>
    if JsSet.has url (visitedUrls st)
    then (timestamp <- now ;;
          ret (mkResult url "Already visited" [] timestamp None)) st
    else
      (emit EvLaunch ;;;
       await (launch (puppeteer w url)) ;;;
       tryFinally (pageBody url currentDepth) (emitTo EvClose))
        (markVisited url st).

End Program.

(** [scrapeWebPage]: the recursion is on [fuel], an upper bound on the
    number of nested calls. *)
Fixpoint scrapeWebPage (w : World) (fuel : nat) (options : Options)
         (url : string) (currentDepth : Z) : M ScrapingResult :=
  match fuel with
  | O => fun st => (OutOfFuel, st)
  | S fuel' => scrapeWebPageWith w options (scrapeWebPage w fuel' options) url currentDepth
  end.

(** [scraping] (lines 284-302).  The call passes neither [currentDepth] nor
    [visitedUrls]: the page is scraped at depth 0 with a new empty set.  A
    page at depth [d] recurses only when [d < maxDepth], so [maxDepth + 1]
    nested calls are enough. *)
Definition scraping (w : World) (url : string) (_options : Partial.ScrapingOptions)
  : M ScrapingResult :=
  let options := assign DefaultScrapingOptions _options in
  if (maxDepth options >? MAX_DEEPEST_DEPTH)%Z
  then throw (newError "Max depth exceeds the maximum depth")
  else
    tryCatch
      (fun st =>
         scrapeWebPage w (S (Z.to_nat (maxDepth options))) options url 0
           {| visitedUrls := JsSet.empty; trace := trace st;
              clockReads := clockReads st; randomReads := randomReads st |})
      (fun error => throw error).

(* ================================================================== *)
(** * What is observed of a run *)

(** The events that reach the browser engine. *)
Definition isBrowserEvent (ev : Event) : bool :=
  match ev with
  | EvLog _ | EvSleep _ => false
  | _ => true
  end.

Definition browserEvents (tr : list Event) : list Event := filter isBrowserEvent tr.

(** The durations slept, in order. *)
Fixpoint sleepsOf (tr : list Event) : list Q :=
  match tr with
  | [] => []
  | EvSleep ms :: rest => ms :: sleepsOf rest
  | _ :: rest => sleepsOf rest
  end.

(** The traffic with the browser of a call that follows no child: nothing
    for a visited address; otherwise a launch, then a page, then the
    navigation to [url], the browser being closed once it was launched. *)
Inductive ownTraffic (url : string) (timeout : Z) : list Event -> Prop :=
| traffic_visited : ownTraffic url timeout []
| traffic_launch : ownTraffic url timeout [EvLaunch]
| traffic_newPage : ownTraffic url timeout [EvLaunch; EvNewPage; EvClose]
| traffic_goto : ownTraffic url timeout [EvLaunch; EvNewPage; EvGoto url timeout; EvClose].

(* ================================================================== *)
(** ** Framing: what a computation leaves alone

    A [Frame] is a preorder on states.  A computation is [sound] for a frame
    when it moves every state to a related one and never reports spent
    fuel.  The combinators of [M] preserve soundness, so that a property of
    the primitives carries over to the whole program. *)

Record Frame : Type := {
  rel :> State -> State -> Prop;
  rel_refl : forall st, rel st st;
  rel_trans : forall a b c, rel a b -> rel b c -> rel a c
}.

Definition sound {A} (F : Frame) (m : M A) : Prop :=
  forall st, F st (snd (m st)) /\ fst (m st) <> OutOfFuel.

Definition tolerates (F : Frame) (change : State -> State) : Prop :=
  forall st, F st (change st).

(** A frame that does not care about console output, sleeping, the clock
    and the random generator. *)
Record Lenient (F : Frame) : Prop := {
  lenient_log : forall message, tolerates F (emitTo (EvLog message));
  lenient_sleep : forall ms, tolerates F (emitTo (EvSleep ms));
  lenient_clock : tolerates F bumpClock;
  lenient_random : tolerates F bumpRandom
}.

(** [quiet]: the visited set and the traffic with the browser are as before. *)
Definition quiet (st st' : State) : Prop :=
  visitedUrls st' = visitedUrls st /\
  browserEvents (trace st') = browserEvents (trace st).

Definition quietFrame : Frame.
Proof.
  refine {| rel := quiet |}.
  - intros st. split; reflexivity.
  - intros a b c [H1 H2] [H3 H4]. split; congruence.
Defined.

(** [grows]: no address leaves the visited set. *)
Definition grows (st st' : State) : Prop :=
  forall x, JsSet.has x (visitedUrls st) = true -> JsSet.has x (visitedUrls st') = true.

Definition growsFrame : Frame.
Proof.
  refine {| rel := grows |}.
  - intros st x H. exact H.
  - intros a b c H1 H2 x H. apply H2, H1, H.
Defined.

(** The frame that relates all states: soundness for it is termination
    within the fuel. *)
Definition anyFrame : Frame.
Proof.
  refine {| rel := fun _ _ => True |}; auto.
Defined.

(* ================================================================== *)
(** ** What the fields of a page evaluate to *)

Section Characterisation.

Variable w : World.
Variable options : Options.
Variable pg : Page.

(** What one selector contributes at invocation [k] of the operation: the
    texts of its surviving elements, or nothing when its task is rejected. *)
Definition selectorResult (k : nat) (singleSelector : string) : list string :=
  match waitForSelector pg singleSelector (waitForSelectorTimeout options) k with
  | Rejected _ => []
  | Fulfilled _ =>
      match evalRejects pg singleSelector with
      | Some _ => []
      | None => evalCallback (document pg)
                  (querySelectorAll (engine w) (document pg) singleSelector)
      end
  end.

(** The merged survivors of a field, before deduplication. *)
Definition survivors (k : nat) (selector : Selector) : list string :=
  concat (map (selectorResult k) (selectorsOf selector)).

(** The value a field ends up with. *)
Definition fieldValue (selector : Selector) : ExtractedValue :=
  if (1 <=? retryCount options)%Z
  then collapse (JsSet.ofArray (survivors 0 selector))
  else Scalar "".

(** The [data] object of a page. *)
Definition dataOf : DataObject :=
  fold_left (fun data entry => setProperty (fst entry) (fieldValue (snd entry)) data)
            (selectors options) [].

End Characterisation.

(** Pages at which no child is followed: the depth bound is reached, or the
    predicate in the options accepts no link. *)
Definition followsNothing (options : Options) (currentDepth : Z) : Prop :=
  (maxDepth options <= currentDepth)%Z \/
  exists exclude, excludeChildPage options = Some exclude /\ forall link, exclude link = false.

(** The state after the pause that follows a failed attempt: one more value
    is drawn from the random generator and one more sleep is recorded. *)
Definition afterBackoff (w : World) (delay : Q) (attempt : nat) (st : State) : State :=
  emitTo (EvSleep (backoffDelay delay attempt (Math_random w (randomReads st))))
         (bumpRandom st).

(* ================================================================== *)
(** ** A small site to run the program on *)

Module Example.

Fixpoint upToSlash (s : string) : string :=
  match s with
  | EmptyString => EmptyString
  | String c rest => if (c =? "/")%char then EmptyString else String c (upToSlash rest)
  end.

Definition afterPrefix (p s : string) : option string :=
  if String.prefix p s
  then Some (substring (String.length p) (String.length s - String.length p) s)
  else None.

(** Host names of [http://host/...] and [https://host/...]; everything else
    is rejected. *)
Definition hostname (s : string) : option string :=
  match afterPrefix "http://" s with
  | Some rest => Some (upToSlash rest)
  | None =>
      match afterPrefix "https://" s with
      | Some rest => Some (upToSlash rest)
      | None => None
      end
  end.

Definition home : node :=
  ElementNode "html" "" [
    ElementNode "h1" "" [TextNode " Welcome "];
    ElementNode "div" "" [TextNode "hello "; ElementNode "span" "" [TextNode "world"]];
    ElementNode "a" "http://a.test/about" [TextNode "about"];
    ElementNode "a" "http://b.test/" [TextNode "elsewhere"];
    ElementNode "a" "http://a.test/" [TextNode "home"];
    ElementNode "a" "mailto:x" [TextNode "mail"] ].

Definition about : node :=
  ElementNode "html" "" [
    ElementNode "h1" "" [TextNode "About"];
    ElementNode "a" "http://a.test/" [TextNode "home"] ].

(** A page that does not change: waiting for a selector times out exactly
    when nothing matches it. *)
Definition staticPage (t : string) (doc : node) : Page := {|
  title := Fulfilled t;
  waitForSelector := fun selector _ _ =>
    match querySelectorAll tagEngine doc selector with
    | [] => Rejected (Error "TimeoutError" "Waiting for selector failed")
    | _ => Fulfilled tt
    end;
  evalRejects := fun _ => None;
  document := doc
|}.

Definition serving (pg : Page) : Browser :=
  {| launch := Fulfilled tt; newPage := Fulfilled tt;
     goto := fun _ => Fulfilled tt; page := pg |}.

Definition unreachable : Browser :=
  {| launch := Fulfilled tt; newPage := Fulfilled tt;
     goto := fun _ => Rejected (Error "Error" "net::ERR_NAME_NOT_RESOLVED");
     page := staticPage "" (ElementNode "html" "" []) |}.

Definition site : World := {|
  puppeteer := fun url =>
    if (url =? "http://a.test/")%string then serving (staticPage "Home" home)
    else if (url =? "http://a.test/about")%string then serving (staticPage "About" about)
    else unreachable;
  engine := tagEngine;
  URL_hostname := hostname;
  toISOString := fun n => ("T" ++ JsString.ofNat n)%string;
  Math_random := fun _ => 0.25%Q
|}.

(** [{ maxDepth: d }] *)
Definition withMaxDepth (d : Z) : Partial.ScrapingOptions := {|
  Partial.maxDepth := Some d; Partial.excludeChildPage := None;
  Partial.selectors := None; Partial.withConsole := None;
  Partial.breakWhenFailed := None; Partial.retryCount := None;
  Partial.waitForSelectorTimeout := None; Partial.waitForPageLoadTimeout := None |}.

(** [{ selectors: { title: 'h1', missing: 'h7' }, breakWhenFailed, retryCount }];
    no [h7] exists on the pages of the site. *)
Definition twoFieldsRequest (break : option bool) (retries : option Z)
  : Partial.ScrapingOptions := {|
  Partial.maxDepth := None; Partial.excludeChildPage := None;
  Partial.selectors := Some [("title", One "h1"); ("missing", One "h7")];
  Partial.withConsole := None;
  Partial.breakWhenFailed := break; Partial.retryCount := retries;
  Partial.waitForSelectorTimeout := None; Partial.waitForPageLoadTimeout := None |}.

Definition twoFields : Options := assign DefaultScrapingOptions (twoFieldsRequest None None).

(** An operation that throws twice and then returns, and one that throws
    at every invocation. *)
Definition flaky (k : nat) : M string :=
  if (k <? 2)%nat then throw (newError "flaky") else ret "done".

Definition broken (k : nat) : M string := throw (newError (JsString.ofNat k)).

(** Options under which pages of the same host are followed one level
    deep, and what the program returns for the home page under them. *)
Definition sameHost : Options := {|
  maxDepth := 1; excludeChildPage := None;
  selectors := [("title", One "h1")]; withConsole := false;
  breakWhenFailed := false; retryCount := 3;
  waitForSelectorTimeout := 12000; waitForPageLoadTimeout := 12000 |}.

(** [{ maxDepth: 1, excludeChildPage: undefined, selectors: { title: 'h1' },
    withConsole: false }] *)
Definition sameHostRequest : Partial.ScrapingOptions := {|
  Partial.maxDepth := Some 1%Z; Partial.excludeChildPage := Some None;
  Partial.selectors := Some [("title", One "h1")]; Partial.withConsole := Some false;
  Partial.breakWhenFailed := None; Partial.retryCount := None;
  Partial.waitForSelectorTimeout := None; Partial.waitForPageLoadTimeout := None |}.

Definition aboutResult : ScrapingResult :=
  mkResult "http://a.test/about" "About" [("title", Scalar "About")] "T0" None.

Definition homeResult : ScrapingResult :=
  mkResult "http://a.test/" "Home" [("title", Scalar "Welcome")] "T1" (Some [aboutResult]).

(** A block inside a block, and a [span] inside the inner one. *)
Definition nested : node :=
  ElementNode "html" "" [
    ElementNode "div" "" [
      TextNode "outer ";
      ElementNode "div" "" [TextNode " inner "; ElementNode "span" "" [TextNode "leaf"]] ] ].

(** [selectors] with a field named [__proto__], as [JSON.parse] gives it
    for [{"title": "h1", "__proto__": "h1"}]. *)
Definition protoField : Options := {|
  maxDepth := 0; excludeChildPage := Some (fun _ => false);
  selectors := [("title", One "h1"); ("__proto__", One "h1")]; withConsole := false;
  breakWhenFailed := false; retryCount := 3;
  waitForSelectorTimeout := 12000; waitForPageLoadTimeout := 12000 |}.

(** A state in which the home page has been visited. *)
Definition homeVisited : State :=
  {| visitedUrls := ["http://a.test/"]; trace := []; clockReads := 0; randomReads := 0 |}.

End Example.

(* ================================================================== *)
(** ** Further observations *)

(** How each child page of the loop of lines 252-268 ends when no failure
    stops the loop: the page of every link is run in turn, each from the
    state in which the round before it ended (after the message that
    announces it, and after the message that reports the failure of the
    page before it). *)
Fixpoint childOutcomes (options : Options) (self : string -> Z -> M ScrapingResult)
         (currentDepth : Z) (links : list string) (st : State)
  : list (Completion ScrapingResult) :=
  match links with
  | [] => []
  | link :: rest =>
      let (outcome, st2) :=
        self link (currentDepth + 1)%Z
             (snd (logger options ("scraping " ++ link ++ "...") st)) in
      outcome ::
      childOutcomes options self currentDepth rest
        match outcome with
        | Throw e => snd (logger options ("Error scraping child page " ++ link ++ ": "
                                          ++ Thrown_toString e) st2)
        | _ => st2
        end
  end.

(** The results among a list of outcomes, in order. *)
Definition returned (outcomes : list (Completion ScrapingResult)) : list ScrapingResult :=
  flat_map (fun outcome => match outcome with Return r => [r] | _ => [] end) outcomes.

(** The console messages, in order. *)
Fixpoint logsOf (tr : list Event) : list string :=
  match tr with
  | [] => []
  | EvLog message :: rest => message :: logsOf rest
  | _ :: rest => logsOf rest
  end.

(** The addresses navigated to, in order. *)
Fixpoint gotos (tr : list Event) : list string :=
  match tr with
  | [] => []
  | EvGoto url _ :: rest => url :: gotos rest
  | _ :: rest => gotos rest
  end.

(** How many browsers were asked for, and how many were closed. *)
Fixpoint launches (tr : list Event) : nat :=
  match tr with
  | [] => 0%nat
  | EvLaunch :: rest => S (launches rest)
  | _ :: rest => launches rest
  end.

Fixpoint closes (tr : list Event) : nat :=
  match tr with
  | [] => 0%nat
  | EvClose :: rest => S (closes rest)
  | _ :: rest => closes rest
  end.

(** The height of a result tree: 0 for a page without [childPages]. *)
Fixpoint depthOf (r : ScrapingResult) : nat :=
  match r with
  | mkResult _ _ _ _ None => 0%nat
  | mkResult _ _ _ _ (Some children) =>
      S ((fix deepest (cs : list ScrapingResult) : nat :=
            match cs with
            | [] => 0%nat
            | c :: cs' => Nat.max (depthOf c) (deepest cs')
            end) children)
  end.

(** [Subsequence xs ys]: [xs] is [ys] with some entries left out. *)
Inductive Subsequence {X : Type} : list X -> list X -> Prop :=
| subsequence_nil : Subsequence [] []
| subsequence_skip : forall y xs ys, Subsequence xs ys -> Subsequence xs (y :: ys)
| subsequence_keep : forall x xs ys, Subsequence xs ys -> Subsequence (x :: xs) (x :: ys).

(** The shape of a normalised text. *)
Definition startsWithWhiteSpace (s : string) : bool :=
  match s with
  | EmptyString => false
  | String c _ => JsString.isWhiteSpace c
  end.

Fixpoint endsWithWhiteSpace (s : string) : bool :=
  match s with
  | EmptyString => false
  | String c rest =>
      match rest with
      | EmptyString => JsString.isWhiteSpace c
      | String _ _ => endsWithWhiteSpace rest
      end
  end.

(** Every white space character is a space that no white space follows. *)
Fixpoint singleSpaced (s : string) : bool :=
  match s with
  | EmptyString => true
  | String c rest =>
      (if JsString.isWhiteSpace c
       then (c =? " ")%char && negb (startsWithWhiteSpace rest)
       else true)
      && singleSpaced rest
  end.

(** The visited set accounts for the navigations: no address was navigated
    to twice, and every address navigated to is in the set. *)
Definition visitedOnce (st : State) : Prop :=
  NoDup (gotos (trace st)) /\
  forall url, In url (gotos (trace st)) -> JsSet.has url (visitedUrls st) = true.

(** [once]: the visited set grows, and it keeps accounting for the
    navigations if it did. *)
Definition once (st st' : State) : Prop :=
  grows st st' /\ (visitedOnce st -> visitedOnce st').

Definition onceFrame : Frame.
Proof.
  refine {| rel := once |}.
  - intros st. split; [intros x H; exact H | auto].
  - intros a b c [G1 V1] [G2 V2]. split; [intros x H; apply G2, G1, H | auto].
Defined.

(** [balanced]: since the first state no more browsers were closed than
    were asked for, and as many when [allLaunch] holds. *)
Definition balanced (allLaunch : Prop) (st st' : State) : Prop :=
  (closes (trace st') + launches (trace st)
   <= launches (trace st') + closes (trace st))%nat /\
  (allLaunch ->
   (closes (trace st') + launches (trace st)
    = launches (trace st') + closes (trace st))%nat).

Definition balancedFrame (allLaunch : Prop) : Frame.
Proof.
  refine {| rel := balanced allLaunch |}.
  - intros st. split; [lia | intros _; lia].
  - intros a b c [L1 E1] [L2 E2]. split; [lia |].
    intros H. specialize (E1 H). specialize (E2 H). lia.
Defined.

(** [options] with [breakWhenFailed] replaced. *)
Definition withBreak (break : bool) (options : Options) : Options := {|
  maxDepth := maxDepth options;
  excludeChildPage := excludeChildPage options;
  selectors := selectors options;
  withConsole := withConsole options;
  breakWhenFailed := break;
  retryCount := retryCount options;
  waitForSelectorTimeout := waitForSelectorTimeout options;
  waitForPageLoadTimeout := waitForPageLoadTimeout options
|}.

(** [steady]: nothing was slept and no random number was drawn. *)
Definition steady (st st' : State) : Prop :=
  sleepsOf (trace st') = sleepsOf (trace st) /\ randomReads st' = randomReads st.

Definition steadyFrame : Frame.
Proof.
  refine {| rel := steady |}.
  - intros st. split; reflexivity.
  - intros a b c [S1 R1] [S2 R2]. split; congruence.
Defined.

(* ================================================================== *)
(** * Properties *)

(** ** Sets and element handles *)

Module JsSetFacts.
Import JsSet.

Lemma has_In (x : string) (s : t) : has x s = true <-> In x s.
Proof.
  unfold has. rewrite existsb_exists. split.
  - intros (y & Hy & Heq). apply String.eqb_eq in Heq. now subst.
  - intros H. exists x. split; [assumption | apply String.eqb_refl].
Qed.

Lemma has_false (x : string) (s : t) : has x s = false <-> ~ In x s.
Proof.
  rewrite <- has_In. destruct (has x s); split; intros; congruence.
Qed.

Lemma add_In (x y : string) (s : t) : In y (add x s) <-> y = x \/ In y s.
Proof.
  unfold add. destruct (has x s) eqn:E.
  - apply has_In in E. split; [now right | intros [-> | H]; assumption].
  - rewrite in_app_iff. simpl. intuition.
Qed.

Lemma add_has (x : string) (s : t) : has x (add x s) = true.
Proof. apply has_In, add_In. now left. Qed.

Lemma add_keeps (x y : string) (s : t) : has y s = true -> has y (add x s) = true.
Proof. rewrite !has_In, add_In. now right. Qed.

Lemma add_NoDup (x : string) (s : t) : NoDup s -> NoDup (add x s).
Proof.
  intros Hs. unfold add. destruct (has x s) eqn:E; [assumption |].
  apply has_false in E. apply NoDup_app; auto.
  - repeat constructor. intros [].
  - intros a Ha [<- | []]. contradiction.
Qed.

Lemma fold_add_In (xs : list string) (acc : t) (y : string) :
  In y (fold_left (fun s x => add x s) xs acc) <-> In y acc \/ In y xs.
Proof.
  revert acc. induction xs as [| x xs IH]; intros acc; simpl.
  - intuition.
  - rewrite IH, add_In. intuition.
Qed.

Lemma fold_add_NoDup (xs : list string) (acc : t) :
  NoDup acc -> NoDup (fold_left (fun s x => add x s) xs acc).
Proof.
  revert acc. induction xs as [| x xs IH]; intros acc Hacc; simpl.
  - assumption.
  - apply IH, add_NoDup, Hacc.
Qed.

(** [new Set(xs)] holds the values of [xs], each once. *)
Lemma ofArray_In (xs : list string) (y : string) : In y (ofArray xs) <-> In y xs.
Proof. unfold ofArray. rewrite fold_add_In. simpl. intuition. Qed.

Lemma ofArray_NoDup (xs : list string) : NoDup (ofArray xs).
Proof. apply fold_add_NoDup. constructor. Qed.

Lemma fold_add_same (xs : list string) (v : string) :
  (forall x, In x xs -> x = v) ->
  fold_left (fun s x => add x s) xs [v] = [v].
Proof.
  induction xs as [| x xs IH]; intros Hall; simpl.
  - reflexivity.
  - rewrite (Hall x (or_introl eq_refl)).
    unfold add at 2. simpl. rewrite String.eqb_refl. simpl.
    apply IH. intros y Hy. apply Hall. now right.
Qed.

(** An array that repeats one value collapses to that value. *)
Lemma ofArray_same (xs : list string) (v : string) :
  xs <> [] -> (forall x, In x xs -> x = v) -> ofArray xs = [v].
Proof.
  destruct xs as [| x xs]; [congruence |]. intros _ Hall.
  unfold ofArray. simpl. rewrite (Hall x (or_introl eq_refl)).
  apply fold_add_same. intros y Hy. apply Hall. now right.
Qed.

End JsSetFacts.

Module DomFacts.
Import Dom.

Lemma Element_eqb_eq (a b : Element) : Element_eqb a b = true <-> a = b.
Proof.
  revert b. induction a as [| i a IH]; intros [| j b]; simpl; try (split; congruence).
  rewrite andb_true_iff, Nat.eqb_eq, IH. split.
  - intros [-> ->]. reflexivity.
  - intros H. injection H as -> ->. auto.
Qed.

Lemma includes_In (els : list Element) (el : Element) :
  includes els el = true <-> In el els.
Proof.
  unfold includes. rewrite existsb_exists. split.
  - intros (x & Hx & Heq). apply Element_eqb_eq in Heq. now subst.
  - intros H. exists el. split; [assumption | now apply Element_eqb_eq].
Qed.

Lemma includes_not_In (els : list Element) (el : Element) :
  includes els el = false <-> ~ In el els.
Proof.
  rewrite <- includes_In. destruct (includes els el); split; intros; congruence.
Qed.

(** The walk up from [parent] finds no selected element exactly when
    [parent] and everything above it are outside [els]. *)
Lemma noneSelectedFrom_spec (els : list Element) (parent : Element) :
  noneSelectedFrom els parent = true <->
  forall above upper, parent = above ++ upper -> ~ In upper els.
Proof.
  induction parent as [| i up IH]; simpl.
  - destruct (includes els []) eqn:E.
    + split; [congruence |]. intros H. apply includes_In in E.
      exfalso. exact (H [] [] eq_refl E).
    + split; [| reflexivity]. intros _ above upper Heq.
      symmetry in Heq. apply app_eq_nil in Heq as [_ ->].
      now apply includes_not_In.
  - destruct (includes els (i :: up)) eqn:E.
    + split; [congruence |]. intros H. apply includes_In in E.
      exfalso. exact (H [] (i :: up) eq_refl E).
    + rewrite IH. apply includes_not_In in E. split.
      * intros H above upper Heq. destruct above as [| j above]; simpl in Heq.
        -- now subst upper.
        -- injection Heq as _ Hup. exact (H above upper Hup).
      * intros H above upper Heq. apply (H (i :: above) upper). simpl. now rewrite Heq.
Qed.

(** [keepElement] keeps exactly the elements that no selected element
    contains. *)
Lemma keepElement_spec (els : list Element) (el : Element) :
  keepElement els el = true <-> forall A, contains A el -> ~ In A els.
Proof.
  unfold keepElement, contains. destruct el as [| i up]; simpl.
  - split; [| reflexivity]. intros _ A (above & Hne & Heq).
    symmetry in Heq. apply app_eq_nil in Heq as [-> _]. congruence.
  - rewrite noneSelectedFrom_spec. split.
    + intros H A (above & Hne & Heq). destruct above as [| j above]; [congruence |].
      simpl in Heq. injection Heq as _ Hup. exact (H above A Hup).
    + intros H above upper Heq. apply H. exists (i :: above). split; [congruence |].
      simpl. now rewrite Heq.
Qed.

Lemma contains_longer (A B : Element) : contains A B -> (length A < length B)%nat.
Proof.
  intros (above & Hne & ->). rewrite length_app.
  destruct above; [congruence | simpl; lia].
Qed.

End DomFacts.

(* ================================================================== *)
(** ** Soundness of the combinators and of the program parts *)

Section Combinators.

Variable F : Frame.

Lemma sound_ret {A} (a : A) : sound F (ret a).
Proof. intros st. simpl. split; [apply rel_refl | discriminate]. Qed.

Lemma sound_throw {A} (e : Thrown) : sound F (@throw A e).
Proof. intros st. simpl. split; [apply rel_refl | discriminate]. Qed.

Lemma sound_bind {A B} (m : M A) (k : A -> M B) :
  sound F m -> (forall a, sound F (k a)) -> sound F (bind m k).
Proof.
  intros Hm Hk st. unfold bind. destruct (Hm st) as [Hrel Hfuel].
  destruct (m st) as [[a | e |] st']; simpl in *.
  - destruct (Hk a st') as [Hrel' Hfuel']. split; [| assumption].
    eapply rel_trans; eassumption.
  - split; [assumption | discriminate].
  - congruence.
Qed.

Lemma sound_tryCatch {A} (m : M A) (handler : Thrown -> M A) :
  sound F m -> (forall e, sound F (handler e)) -> sound F (tryCatch m handler).
Proof.
  intros Hm Hh st. unfold tryCatch. destruct (Hm st) as [Hrel Hfuel].
  destruct (m st) as [[a | e |] st']; simpl in *.
  - split; [assumption | discriminate].
  - destruct (Hh e st') as [Hrel' Hfuel']. split; [| assumption].
    eapply rel_trans; eassumption.
  - congruence.
Qed.

Lemma sound_tryFinally {A} (m : M A) (cleanup : State -> State) :
  sound F m -> tolerates F cleanup -> sound F (tryFinally m cleanup).
Proof.
  intros Hm Hc st. unfold tryFinally. destruct (Hm st) as [Hrel Hfuel].
  destruct (m st) as [c st']; simpl in *. split; [| assumption].
  eapply rel_trans; [eassumption | apply Hc].
Qed.

Lemma sound_await {A} (p : Settled A) : sound F (await p).
Proof. destruct p; [apply sound_ret | apply sound_throw]. Qed.

Lemma sound_change {A} (change : State -> State) (a : State -> A) :
  tolerates F change -> sound F (fun st => (Return (a st), change st)).
Proof. intros H st. simpl. split; [apply H | discriminate]. Qed.

Lemma sound_emit (ev : Event) : tolerates F (emitTo ev) -> sound F (emit ev).
Proof. intros H. exact (sound_change (fun _ => tt) H). Qed.

Lemma sound_reading {A B} (read : State -> B) (m : B -> M A) :
  (forall b, sound F (m b)) -> sound F (fun st => m (read st) st).
Proof. intros H st. apply H. Qed.

Lemma sound_allSettled {A} (tasks : list (M A)) :
  Forall (sound F) tasks -> sound F (allSettled tasks).
Proof.
  induction 1 as [| task tasks Htask _ IH]; simpl.
  - apply sound_ret.
  - intros st. destruct (Htask st) as [Hrel Hfuel].
    destruct (task st) as [[v | e |] st']; simpl in *; try congruence.
    + assert (Hrest : sound F (bind (allSettled tasks) (fun rs => ret (Fulfilled v :: rs))))
        by (apply sound_bind; [exact IH | intros rs; apply sound_ret]).
      destruct (Hrest st') as [Hrel' Hfuel'].
      split; [eapply rel_trans; eassumption | assumption].
    + assert (Hrest : sound F (bind (allSettled tasks) (fun rs => ret (Rejected e :: rs))))
        by (apply sound_bind; [exact IH | intros rs; apply sound_ret]).
      destruct (Hrest st') as [Hrel' Hfuel'].
      split; [eapply rel_trans; eassumption | assumption].
Qed.

Lemma sound_allSettled_map {A X} (task : X -> M A) (xs : list X) :
  (forall x, sound F (task x)) -> sound F (allSettled (map task xs)).
Proof.
  intros H. apply sound_allSettled, Forall_forall.
  intros m Hm. apply in_map_iff in Hm as (x & <- & _). apply H.
Qed.

(** *** The field level: everything below [extractData] *)

Hypothesis lenient : Lenient F.

Variable w : World.
Variable options : Options.

Lemma sound_logger (message : string) : sound F (logger options message).
Proof.
  unfold logger. destruct (withConsole options); [| apply sound_ret].
  apply sound_emit, lenient.
Qed.

Lemma sound_now : sound F (now w).
Proof. exact (sound_change (fun st => toISOString w (clockReads st)) (lenient_clock lenient)). Qed.

Lemma sound_random : sound F (random w).
Proof. exact (sound_change (fun st => Math_random w (randomReads st)) (lenient_random lenient)). Qed.

Lemma sound_sleep (ms : Q) : sound F (sleep ms).
Proof. apply sound_emit, lenient. Qed.

Lemma sound_retryLoop {T} (operation : nat -> M T) (maxRetries : Z) (delay : Q)
      (iterations attempt : nat) (lastError : Thrown) :
  (forall k, sound F (operation k)) ->
  sound F (retryLoop w iterations operation maxRetries delay attempt lastError).
Proof.
  intros Hop. revert attempt lastError.
  induction iterations as [| more IH]; intros attempt lastError; simpl.
  - apply sound_throw.
  - apply sound_tryCatch; [apply Hop |]. intros e.
    apply sound_bind; [| intros _; apply IH].
    destruct (Z.of_nat attempt <? maxRetries - 1)%Z; [| apply sound_ret].
    apply sound_bind; [apply sound_random | intros u; apply sound_sleep].
Qed.

Lemma sound_retry {T} (operation : nat -> M T) (maxRetries : Z) (delay : Q) :
  (forall k, sound F (operation k)) -> sound F (retry w operation maxRetries delay).
Proof. apply sound_retryLoop. Qed.

Lemma sound_evalAll {A} (pg : Page) (selector : string) (callback : list Element -> A) :
  sound F (evalAll w pg selector callback).
Proof. unfold evalAll. destruct (evalRejects pg selector); [apply sound_throw | apply sound_ret]. Qed.

Lemma sound_selectorTask (pg : Page) (k : nat) (singleSelector : string) :
  sound F (selectorTask w options pg k singleSelector).
Proof.
  unfold selectorTask.
  apply sound_bind; [apply sound_logger | intros _].
  apply sound_bind; [apply sound_await | intros _].
  apply sound_bind; [apply sound_evalAll | intros x; apply sound_ret].
Qed.

Lemma sound_extractOperation (pg : Page) (selector : Selector) (k : nat) :
  sound F (extractOperation w options pg selector k).
Proof.
  unfold extractOperation.
  apply sound_bind; [| intros rs; apply sound_ret].
  apply sound_allSettled_map. intros s. apply sound_selectorTask.
Qed.

Lemma sound_selectorPromise (pg : Page) (entry : string * Selector) :
  sound F (selectorPromise w options pg entry).
Proof.
  destruct entry as [key selector]. unfold selectorPromise.
  apply sound_tryCatch.
  - apply sound_bind; [| intros els; apply sound_ret].
    apply sound_retry. intros k. apply sound_extractOperation.
  - intros e. apply sound_bind; [apply sound_logger | intros _; apply sound_ret].
Qed.

Lemma sound_collectData (results : list (Settled (string * ExtractedValue)))
      (entrys : list (string * Selector)) (data : DataObject) :
  sound F (collectData options results entrys data).
Proof.
  revert entrys data. induction results as [| res results IH]; intros entrys data; simpl.
  - apply sound_ret.
  - destruct entrys as [| entry entrys]; [apply sound_ret |].
    destruct res as [[key value] | reason].
    + apply IH.
    + apply sound_bind; [apply sound_logger | intros _].
      destruct (breakWhenFailed options); [apply sound_throw | apply IH].
Qed.

Lemma sound_extractData (pg : Page) : sound F (extractData w options pg).
Proof.
  unfold extractData. apply sound_bind.
  - apply sound_allSettled_map. intros e. apply sound_selectorPromise.
  - intros rs. apply sound_collectData.
Qed.

Lemma sound_collectLinks (pg : Page) : sound F (collectLinks w options pg).
Proof.
  unfold collectLinks. apply sound_bind; [apply sound_evalAll | intros links].
  apply sound_bind; [apply sound_logger | intros _; apply sound_ret].
Qed.

(** *** The children, for a sound recursive call *)

Variable self : string -> Z -> M ScrapingResult.

Lemma sound_scrapeChildren (currentDepth : Z) (links : list string)
      (childPages : list ScrapingResult) :
  (forall link, sound F (self link (currentDepth + 1)%Z)) ->
  sound F (scrapeChildren options self currentDepth links childPages).
Proof.
  intros Hself. revert childPages.
  induction links as [| link rest IH]; intros childPages; simpl.
  - apply sound_ret.
  - apply sound_bind; [apply sound_logger | intros _].
    apply sound_bind; [| intros cs; apply IH].
    apply sound_tryCatch.
    + apply sound_bind; [apply Hself | intros r; apply sound_ret].
    + intros e. apply sound_bind; [apply sound_logger | intros _].
      destruct (breakWhenFailed options); [apply sound_throw | apply sound_ret].
Qed.

Lemma sound_recurse (url : string) (currentDepth : Z) (uniqueLinks : list string) :
  ((currentDepth < maxDepth options)%Z ->
   forall link, sound F (self link (currentDepth + 1)%Z)) ->
  sound F (recurse w options self url currentDepth uniqueLinks).
Proof.
  intros Hself. unfold recurse.
  destruct (currentDepth <? maxDepth options)%Z eqn:E; [| apply sound_ret].
  apply Z.ltb_lt in E.
  apply (sound_reading visitedUrls
           (fun visited => scrapeChildren options self currentDepth
                             (validLinks w options url visited uniqueLinks) [])).
  intros visited. apply sound_scrapeChildren. auto.
Qed.

(** The part of [pageBody] after the title has been read. *)
Lemma sound_afterTitle (pg : Page) (url title : string) (currentDepth : Z) :
  (forall links, sound F (recurse w options self url currentDepth links)) ->
  sound F (data <- extractData w options pg ;;
           uniqueLinks <- collectLinks w options pg ;;
           childPages <- recurse w options self url currentDepth uniqueLinks ;;
           timestamp <- now w ;;
           ret (mkResult url title data timestamp (orUndefined childPages))).
Proof.
  intros Hrec.
  apply sound_bind; [apply sound_extractData | intros data].
  apply sound_bind; [apply sound_collectLinks | intros links].
  apply sound_bind; [apply Hrec | intros cs].
  apply sound_bind; [apply sound_now | intros ts; apply sound_ret].
Qed.

(** The whole page, for a frame that accepts every event. *)
Lemma sound_pageBody (url : string) (currentDepth : Z) :
  (forall ev, tolerates F (emitTo ev)) ->
  (forall links, sound F (recurse w options self url currentDepth links)) ->
  sound F (pageBody w options self url currentDepth).
Proof.
  intros Hev Hrec. unfold pageBody.
  apply sound_bind; [apply sound_emit, Hev | intros _].
  apply sound_bind; [apply sound_await | intros _].
  apply sound_bind; [apply sound_logger | intros _].
  apply sound_bind; [apply sound_emit, Hev | intros _].
  apply sound_bind; [apply sound_await | intros _].
  apply sound_bind; [apply sound_await | intros title].
  now apply sound_afterTitle.
Qed.

End Combinators.

(* ================================================================== *)
(** ** The frames [quiet], [grows] and [any] *)

Lemma browserEvents_app (a b : list Event) :
  browserEvents (a ++ b) = browserEvents a ++ browserEvents b.
Proof. apply filter_app. Qed.

Lemma sleepsOf_app (a b : list Event) : sleepsOf (a ++ b) = sleepsOf a ++ sleepsOf b.
Proof.
  induction a as [| ev a IH]; simpl; [reflexivity |].
  destruct ev; simpl; rewrite IH; reflexivity.
Qed.

Lemma quiet_lenient : Lenient quietFrame.
Proof.
  split.
  - intros message st. split; simpl; [reflexivity |].
    rewrite browserEvents_app. simpl. apply app_nil_r.
  - intros ms st. split; simpl; [reflexivity |].
    rewrite browserEvents_app. simpl. apply app_nil_r.
  - intros st. split; reflexivity.
  - intros st. split; reflexivity.
Qed.

Lemma grows_lenient : Lenient growsFrame.
Proof. split; intros; intros st x H; exact H. Qed.

Lemma grows_emit (ev : Event) : tolerates growsFrame (emitTo ev).
Proof. intros st x H. exact H. Qed.

Lemma grows_markVisited (url : string) : tolerates growsFrame (markVisited url).
Proof. intros st x H. simpl. now apply JsSetFacts.add_keeps. Qed.

(* ================================================================== *)
(** ** Running a computation step by step *)

Lemma bind_run {A B} (m : M A) (k : A -> M B) (st : State) (a : A) :
  fst (m st) = Return a -> bind m k st = k a (snd (m st)).
Proof. unfold bind. destruct (m st) as [c st']. simpl. intros ->. reflexivity. Qed.

Lemma bind_Return_inv {A B} (m : M A) (k : A -> M B) (st : State) (b : B) :
  fst (bind m k st) = Return b ->
  exists a, fst (m st) = Return a /\ fst (k a (snd (m st))) = Return b.
Proof.
  unfold bind. destruct (m st) as [[a | e |] st']; simpl; try discriminate.
  intros H. exists a. split; [reflexivity | assumption].
Qed.

Lemma tryFinally_fst {A} (m : M A) (cleanup : State -> State) (st : State) :
  fst (tryFinally m cleanup st) = fst (m st).
Proof. unfold tryFinally. destruct (m st). reflexivity. Qed.

Lemma logger_run (options : Options) (message : string) (st : State) :
  fst (logger options message st) = Return tt.
Proof. unfold logger. destruct (withConsole options); reflexivity. Qed.

Lemma allSettled_map_value {A X} (task : X -> M A) (value : X -> A) (xs : list X) :
  (forall x st, fst (task x st) = Return (value x)) ->
  forall st, fst (allSettled (map task xs) st) = Return (map (fun x => Fulfilled (value x)) xs).
Proof.
  intros Htask. induction xs as [| x xs IH]; intros st; simpl; [reflexivity |].
  specialize (Htask x st). destruct (task x st) as [c st']. simpl in Htask. subst c.
  rewrite (bind_run _ _ _ (IH st')). reflexivity.
Qed.

(* ================================================================== *)
(** ** [retry] *)

Section RetryFacts.

Variable w : World.
Context {T : Type}.
Variable operation : nat -> M T.
Variable maxRetries : Z.
Variable delay : Q.

(** No attempt is made when [maxRetries] is not positive: [lastError] is
    still [undefined] when it is thrown. *)
Lemma retry_no_attempt (st : State) :
  (maxRetries <= 0)%Z -> retry w operation maxRetries delay st = (Throw Undefined, st).
Proof.
  intros H. unfold retry. replace (Z.to_nat maxRetries) with 0%nat by lia. reflexivity.
Qed.

(** A first attempt that succeeds ends the loop. *)
Lemma retry_first_attempt (st : State) (v : T) :
  (1 <= maxRetries)%Z ->
  fst (operation 0%nat st) = Return v ->
  retry w operation maxRetries delay st = (Return v, snd (operation 0%nat st)).
Proof.
  intros H Hop. unfold retry.
  destruct (Z.to_nat maxRetries) as [| more] eqn:E; [lia |].
  simpl. unfold tryCatch. destruct (operation 0%nat st) as [c st']. simpl in *.
  subst c. reflexivity.
Qed.

End RetryFacts.

(* ================================================================== *)
(** ** What a field evaluates to *)

Section FieldFacts.

Variable w : World.
Variable options : Options.
Variable pg : Page.

Lemma selectorTask_value (k : nat) (singleSelector : string) (st : State) :
  match fst (selectorTask w options pg k singleSelector st) with
  | Return v => v = selectorResult w options pg k singleSelector
  | Throw _ => selectorResult w options pg k singleSelector = []
  | OutOfFuel => False
  end.
Proof.
  unfold selectorTask, selectorResult.
  rewrite (bind_run _ _ _ (logger_run options _ st)).
  set (st1 := snd (logger options _ st)). clearbody st1.
  destruct (waitForSelector pg singleSelector (waitForSelectorTimeout options) k)
    as [[] | reason]; simpl; [| reflexivity].
  unfold bind, evalAll. simpl.
  destruct (evalRejects pg singleSelector); reflexivity.
Qed.

Lemma allSettled_selectorTasks (k : nat) (sels : list string) (st : State) :
  exists results,
    fst (allSettled (map (selectorTask w options pg k) sels) st) = Return results /\
    map (valueOrEmpty) results = map (selectorResult w options pg k) sels.
Proof.
  revert st. induction sels as [| sel sels IH]; intros st; simpl.
  - exists []. split; reflexivity.
  - pose proof (selectorTask_value k sel st) as Hv.
    destruct (selectorTask w options pg k sel st) as [[v | e |] st']; simpl in Hv.
    + destruct (IH st') as (rs & Hrs & Hmap).
      rewrite (bind_run _ _ _ Hrs). simpl.
      exists (Fulfilled v :: rs). split; [reflexivity |]. simpl. now rewrite Hmap, Hv.
    + destruct (IH st') as (rs & Hrs & Hmap).
      rewrite (bind_run _ _ _ Hrs). simpl.
      exists (Rejected e :: rs). split; [reflexivity |]. simpl. now rewrite Hmap, Hv.
    + contradiction.
Qed.

(** The operation given to [retry] never throws: rejected selectors are
    replaced by empty arrays. *)
Lemma extractOperation_value (selector : Selector) (k : nat) (st : State) :
  fst (extractOperation w options pg selector k st)
  = Return (JsSet.ofArray (survivors w options pg k selector)).
Proof.
  unfold extractOperation, survivors.
  destruct (allSettled_selectorTasks k (selectorsOf selector) st) as (rs & Hrs & Hmap).
  rewrite (bind_run _ _ _ Hrs). simpl. now rewrite Hmap.
Qed.

Lemma selectorPromise_value (key : string) (selector : Selector) (st : State) :
  fst (selectorPromise w options pg (key, selector) st) = Return (key, fieldValue w options pg selector).
Proof.
  unfold selectorPromise, fieldValue, tryCatch.
  destruct (1 <=? retryCount options)%Z eqn:E.
  - apply Z.leb_le in E.
    pose proof (extractOperation_value selector 0 st) as Hop.
    pose proof (@retry_first_attempt w _ (extractOperation w options pg selector)
                  (retryCount options) 1000 st _ E Hop) as Hretry.
    rewrite (bind_run _ _ _ (f_equal fst Hretry)).
    reflexivity.
  - apply Z.leb_gt in E.
    unfold bind at 1. rewrite retry_no_attempt by lia.
    unfold bind, logger. destruct (withConsole options); reflexivity.
Qed.

Lemma selectorPromises_value (entrys : list (string * Selector)) (st : State) :
  fst (allSettled (map (selectorPromise w options pg) entrys) st)
  = Return (map (fun entry => Fulfilled (fst entry, fieldValue w options pg (snd entry))) entrys).
Proof.
  apply allSettled_map_value. intros [key selector] st'. apply selectorPromise_value.
Qed.

Lemma collectData_fulfilled (entrys : list (string * Selector)) (data : DataObject)
      (st : State) :
  collectData options
    (map (fun entry => Fulfilled (fst entry, fieldValue w options pg (snd entry))) entrys) entrys data st
  = (Return (fold_left (fun d entry => setProperty (fst entry) (fieldValue w options pg (snd entry)) d)
                       entrys data), st).
Proof.
  revert data. induction entrys as [| entry entrys IH]; intros data; simpl.
  - reflexivity.
  - apply IH.
Qed.

(** [extractData] always returns, whatever happened to the selectors. *)
Lemma extractData_value (st : State) : fst (extractData w options pg st) = Return (dataOf w options pg).
Proof.
  unfold extractData.
  rewrite (bind_run _ _ _ (selectorPromises_value (selectors options) st)).
  rewrite collectData_fulfilled. reflexivity.
Qed.

End FieldFacts.

(* ================================================================== *)
(** ** The [data] object *)

Lemma setProperty_proto (value : ExtractedValue) (data : DataObject) :
  setProperty "__proto__" value data = data.
Proof. reflexivity. Qed.

Lemma setProperty_named (key : string) (value : ExtractedValue) (data : DataObject) :
  key <> "__proto__" -> setProperty key value data = defineProperty key value data.
Proof.
  intros Hkey. unfold setProperty.
  destruct (key =? "__proto__")%string eqn:E; [| reflexivity].
  apply String.eqb_eq in E. contradiction.
Qed.

Lemma getProperty_define_same (key : string) (value : ExtractedValue) (data : DataObject) :
  getProperty key (defineProperty key value data) = Some value.
Proof.
  induction data as [| [k v] rest IH]; simpl.
  - now rewrite String.eqb_refl.
  - destruct (k =? key)%string eqn:E; simpl; rewrite E; [reflexivity | exact IH].
Qed.

Lemma getProperty_define_other (key other : string) (value : ExtractedValue)
      (data : DataObject) :
  key <> other -> getProperty key (defineProperty other value data) = getProperty key data.
Proof.
  intros Hne. induction data as [| [k v] rest IH]; simpl.
  - destruct (other =? key)%string eqn:E; [| reflexivity].
    apply String.eqb_eq in E. congruence.
  - destruct (k =? other)%string eqn:E; simpl.
    + apply String.eqb_eq in E. subst k.
      destruct (other =? key)%string eqn:E'; [| reflexivity].
      apply String.eqb_eq in E'. congruence.
    + destruct (k =? key)%string; [reflexivity | exact IH].
Qed.

Lemma getProperty_set_same (key : string) (value : ExtractedValue) (data : DataObject) :
  key <> "__proto__" -> getProperty key (setProperty key value data) = Some value.
Proof. intros Hkey. rewrite setProperty_named by assumption. apply getProperty_define_same. Qed.

Lemma getProperty_set_other (key other : string) (value : ExtractedValue)
      (data : DataObject) :
  key <> other -> getProperty key (setProperty other value data) = getProperty key data.
Proof.
  intros Hne. unfold setProperty.
  destruct (other =? "__proto__")%string; [reflexivity |].
  now apply getProperty_define_other.
Qed.

(** No assignment makes [__proto__] a property. *)
Lemma getProperty_set_proto (other : string) (value : ExtractedValue) (data : DataObject) :
  getProperty "__proto__" (setProperty other value data) = getProperty "__proto__" data.
Proof.
  destruct (String.eqb_spec other "__proto__") as [-> | Hne]; [reflexivity |].
  apply getProperty_set_other. congruence.
Qed.

Section DataFacts.

Variable value : Selector -> ExtractedValue.

Lemma getProperty_fold_other (entrys : list (string * Selector)) (data : DataObject)
      (key : string) :
  ~ In key (map fst entrys) ->
  getProperty key
    (fold_left (fun d entry => setProperty (fst entry) (value (snd entry)) d) entrys data)
  = getProperty key data.
Proof.
  revert data. induction entrys as [| [k s] entrys IH]; intros data Hnot; simpl.
  - reflexivity.
  - simpl in Hnot. rewrite IH by tauto.
    apply getProperty_set_other. intros ->. tauto.
Qed.

Lemma getProperty_fold_proto (entrys : list (string * Selector)) (data : DataObject) :
  getProperty "__proto__"
    (fold_left (fun d entry => setProperty (fst entry) (value (snd entry)) d) entrys data)
  = getProperty "__proto__" data.
Proof.
  revert data. induction entrys as [| [k s] entrys IH]; intros data; simpl.
  - reflexivity.
  - rewrite IH. apply getProperty_set_proto.
Qed.

(** With distinct keys, as [Object.entries] gives them, every entry but
    [__proto__] is found under its key with its own value. *)
Lemma getProperty_fold (entrys : list (string * Selector)) (data : DataObject)
      (key : string) (selector : Selector) :
  NoDup (map fst entrys) ->
  In (key, selector) entrys ->
  key <> "__proto__" ->
  getProperty key
    (fold_left (fun d entry => setProperty (fst entry) (value (snd entry)) d) entrys data)
  = Some (value selector).
Proof.
  revert data. induction entrys as [| [k s] entrys IH]; intros data Hnd Hin Hkey; simpl.
  - destruct Hin.
  - simpl in Hnd. inversion Hnd as [| ? ? Hk Hrest]; subst.
    destruct Hin as [Heq | Hin].
    + injection Heq as -> ->. rewrite getProperty_fold_other by assumption.
      now apply getProperty_set_same.
    + apply IH; assumption.
Qed.

End DataFacts.

Lemma dataOf_property (w : World) (options : Options) (pg : Page)
      (key : string) (selector : Selector) :
  NoDup (map fst (selectors options)) ->
  In (key, selector) (selectors options) ->
  key <> "__proto__" ->
  getProperty key (dataOf w options pg) = Some (fieldValue w options pg selector).
Proof. intros Hnd Hin Hkey. unfold dataOf. now apply getProperty_fold. Qed.

Lemma dataOf_proto (w : World) (options : Options) (pg : Page) :
  getProperty "__proto__" (dataOf w options pg) = None.
Proof. unfold dataOf. now rewrite getProperty_fold_proto. Qed.

(* ================================================================== *)
(** ** One page *)

Lemma await_Return_inv {A} (p : Settled A) (st : State) (a : A) :
  fst (await p st) = Return a -> p = Fulfilled a.
Proof. destruct p; simpl; intros H; [now injection H as -> | discriminate]. Qed.

Section PageFacts.

Variable w : World.
Variable options : Options.
Variable self : string -> Z -> M ScrapingResult.

Lemma validLinks_none_accepted (url : string) (visited : JsSet.t) (links : list string)
      (exclude : string -> bool) :
  excludeChildPage options = Some exclude ->
  (forall link, exclude link = false) ->
  validLinks w options url visited links = [].
Proof.
  intros Hex Hall. unfold validLinks. rewrite Hex.
  induction links as [| link rest IH]; simpl; [reflexivity |].
  rewrite Hall, andb_false_r. exact IH.
Qed.

Lemma recurse_followsNothing (url : string) (currentDepth : Z) (links : list string)
      (st : State) :
  followsNothing options currentDepth ->
  recurse w options self url currentDepth links st = (Return [], st).
Proof.
  intros Hleaf. unfold recurse.
  destruct (currentDepth <? maxDepth options)%Z eqn:E; [| reflexivity].
  apply Z.ltb_lt in E. destruct Hleaf as [Hge | (exclude & Hex & Hall)]; [lia |].
  now rewrite (validLinks_none_accepted url (visitedUrls st) links Hex Hall).
Qed.

(** With [breakWhenFailed] off, the loop over the children returns. *)
Lemma scrapeChildren_returns (currentDepth : Z) (links : list string)
      (childPages : list ScrapingResult) (st : State) :
  breakWhenFailed options = false ->
  (forall link st', fst (self link (currentDepth + 1)%Z st') <> OutOfFuel) ->
  exists result, fst (scrapeChildren options self currentDepth links childPages st)
                 = Return result.
Proof.
  intros Hbreak Hself. revert childPages st.
  induction links as [| link rest IH]; intros childPages st; simpl.
  - exists childPages. reflexivity.
  - rewrite (bind_run _ _ _ (logger_run options _ st)).
    set (st1 := snd (logger options _ st)). clearbody st1.
    unfold bind at 1. unfold tryCatch. unfold bind at 1.
    pose proof (Hself link st1) as Hfuel.
    destruct (self link (currentDepth + 1)%Z st1) as [[r | e |] st2]; simpl in *.
    + apply IH.
    + rewrite (bind_run _ _ _ (logger_run options _ st2)).
      rewrite Hbreak. simpl. apply IH.
    + congruence.
Qed.

Lemma recurse_returns (url : string) (currentDepth : Z) (links : list string)
      (st : State) :
  breakWhenFailed options = false ->
  (forall link st', fst (self link (currentDepth + 1)%Z st') <> OutOfFuel) ->
  exists result, fst (recurse w options self url currentDepth links st) = Return result.
Proof.
  intros Hbreak Hself. unfold recurse.
  destruct (currentDepth <? maxDepth options)%Z.
  - now apply scrapeChildren_returns.
  - exists []. reflexivity.
Qed.

(** What a returned page looks like. *)
Lemma pageBody_Return_inv (url : string) (currentDepth : Z) (st : State)
      (r : ScrapingResult) :
  fst (pageBody w options self url currentDepth st) = Return r ->
  exists pageTitle links childPages timestamp st1,
    title (page (puppeteer w url)) = Fulfilled pageTitle /\
    fst (recurse w options self url currentDepth links st1) = Return childPages /\
    r = mkResult url pageTitle (dataOf w options (page (puppeteer w url))) timestamp
          (orUndefined childPages).
Proof.
  unfold pageBody. intros H.
  apply bind_Return_inv in H as (_ & _ & H).
  apply bind_Return_inv in H as (_ & _ & H).
  apply bind_Return_inv in H as (_ & _ & H).
  apply bind_Return_inv in H as (_ & _ & H).
  apply bind_Return_inv in H as (_ & _ & H).
  apply bind_Return_inv in H as (pageTitle & Htitle & H).
  apply await_Return_inv in Htitle.
  apply bind_Return_inv in H as (data & Hdata & H).
  rewrite extractData_value in Hdata. injection Hdata as <-.
  apply bind_Return_inv in H as (links & _ & H).
  apply bind_Return_inv in H as (childPages & Hchildren & H).
  apply bind_Return_inv in H as (timestamp & _ & H).
  simpl in H. injection H as <-.
  exists pageTitle, links, childPages, timestamp. eexists. repeat split; eassumption.
Qed.

(** A page whose browser calls succeed is returned, provided the loop over
    its children returns. *)
Lemma pageBody_returns (url : string) (currentDepth : Z) (st : State) (t : string) :
  let b := puppeteer w url in
  newPage b = Fulfilled tt ->
  goto b (waitForPageLoadTimeout options) = Fulfilled tt ->
  title (page b) = Fulfilled t ->
  evalRejects (page b) "a" = None ->
  (forall links st', exists result,
      fst (recurse w options self url currentDepth links st') = Return result) ->
  exists r, fst (pageBody w options self url currentDepth st) = Return r.
Proof.
  intros b Hnew Hgoto Htitle Heval Hrec. unfold pageBody. fold b.
  rewrite Hnew, Hgoto, Htitle.
  unfold bind at 1. simpl. unfold bind at 1. simpl.
  rewrite (bind_run _ _ _ (logger_run options _ _)).
  set (st1 := snd (logger options _ _)). clearbody st1.
  unfold bind at 1. simpl. unfold bind at 1. simpl. unfold bind at 1. simpl.
  rewrite (bind_run _ _ _ (extractData_value w options (page b) _)).
  set (st2 := snd (extractData w options (page b) _)). clearbody st2.
  unfold collectLinks, evalAll. rewrite Heval.
  unfold bind at 1. unfold bind at 1. simpl.
  rewrite (bind_run _ _ _ (logger_run options _ _)).
  set (st3 := snd (logger options _ _)). clearbody st3. simpl.
  match goal with
  | |- context [recurse w options self url currentDepth ?links] =>
      destruct (Hrec links st3) as (cs & Hcs)
  end.
  rewrite (bind_run _ _ _ Hcs). simpl. eexists. reflexivity.
Qed.

End PageFacts.

(* ================================================================== *)
(** ** One call of [scrapeWebPage] *)

Lemma bind_emit {B} (ev : Event) (k : unit -> M B) (st : State) :
  bind (emit ev) k st = k tt (emitTo ev st).
Proof. reflexivity. Qed.

Lemma bind_await_fulfilled {A B} (a : A) (k : A -> M B) (st : State) :
  bind (await (Fulfilled a)) k st = k a st.
Proof. reflexivity. Qed.

Lemma bind_await_rejected {A B} (e : Thrown) (k : A -> M B) (st : State) :
  bind (await (Rejected e)) k st = (Throw e, st).
Proof. reflexivity. Qed.

Lemma any_lenient : Lenient anyFrame.
Proof. split; intros; intros st; exact I. Qed.

Lemma any_tolerates (change : State -> State) : tolerates anyFrame change.
Proof. intros st. exact I. Qed.

Section CallFacts.

Variable w : World.
Variable options : Options.
Variable self : string -> Z -> M ScrapingResult.

Lemma recurse_followsNothing_sound (F : Frame) (url : string) (currentDepth : Z)
      (links : list string) :
  followsNothing options currentDepth ->
  sound F (recurse w options self url currentDepth links).
Proof.
  intros Hleaf st. rewrite (recurse_followsNothing w self url links st Hleaf).
  simpl. split; [apply rel_refl | discriminate].
Qed.

Lemma pageBody_followsNothing (url : string) (currentDepth : Z) (st : State) :
  followsNothing options currentDepth ->
  let out := pageBody w options self url currentDepth st in
  fst out <> OutOfFuel /\
  (forall r, fst out = Return r -> result_childPages r = None) /\
  visitedUrls (snd out) = visitedUrls st /\
  (browserEvents (trace (snd out)) = browserEvents (trace st) ++ [EvNewPage] \/
   browserEvents (trace (snd out))
   = browserEvents (trace st) ++ [EvNewPage; EvGoto url (waitForPageLoadTimeout options)]).
Proof.
  intros Hleaf out. split; [| split].
  - apply (sound_pageBody any_lenient).
    + intros ev. apply any_tolerates.
    + intros links. now apply recurse_followsNothing_sound.
  - intros r Hr. apply pageBody_Return_inv in Hr
      as (t & links & cs & ts & st1 & _ & Hcs & ->).
    rewrite (recurse_followsNothing w self url links st1 Hleaf) in Hcs.
    injection Hcs as <-. reflexivity.
  - subst out. unfold pageBody.
    set (b := puppeteer w url). set (timeout := waitForPageLoadTimeout options).
    rewrite bind_emit.
    destruct (newPage b) as [[] | e].
    2:{ rewrite bind_await_rejected. simpl. split; [reflexivity |].
        left. rewrite browserEvents_app. reflexivity. }
    rewrite bind_await_fulfilled.
    rewrite (bind_run _ _ _ (logger_run options _ _)).
    match goal with
    | |- context [snd (logger options ?msg ?s)] =>
        destruct (sound_logger quiet_lenient options msg s) as [[Hv1 Hb1] _];
        set (st1 := snd (logger options msg s)) in *; clearbody st1
    end.
    simpl in Hv1, Hb1. rewrite browserEvents_app in Hb1. simpl in Hb1.
    rewrite bind_emit.
    assert (Hdone : forall st2 : State,
               quiet (emitTo (EvGoto url timeout) st1) st2 ->
               visitedUrls st2 = visitedUrls st /\
               (browserEvents (trace st2) = browserEvents (trace st) ++ [EvNewPage] \/
                browserEvents (trace st2)
                = browserEvents (trace st) ++ [EvNewPage; EvGoto url timeout])).
    { intros st2 [Hv2 Hb2]. simpl in Hv2, Hb2. split; [congruence |]. right.
      rewrite Hb2, browserEvents_app, Hb1. simpl. now rewrite <- app_assoc. }
    destruct (goto b timeout) as [[] | e].
    2:{ rewrite bind_await_rejected. apply Hdone, (rel_refl quietFrame). }
    rewrite bind_await_fulfilled.
    destruct (title (page b)) as [t | e].
    2:{ rewrite bind_await_rejected. apply Hdone, (rel_refl quietFrame). }
    rewrite bind_await_fulfilled.
    apply Hdone.
    apply (sound_afterTitle quiet_lenient).
    intros links. now apply recurse_followsNothing_sound.
Qed.

(** A call that follows no child talks to the browser about its own
    address only, and returns no [childPages]. *)
Lemma scrapeWebPageWith_followsNothing (url : string) (currentDepth : Z) (st : State) :
  followsNothing options currentDepth ->
  let out := scrapeWebPageWith w options self url currentDepth st in
  fst out <> OutOfFuel /\
  (forall r, fst out = Return r -> result_childPages r = None) /\
  visitedUrls (snd out) = JsSet.add url (visitedUrls st) /\
  exists traffic,
    browserEvents (trace (snd out)) = browserEvents (trace st) ++ traffic /\
    ownTraffic url (waitForPageLoadTimeout options) traffic.
Proof.
  intros Hleaf out. subst out. unfold scrapeWebPageWith.
  destruct (JsSet.has url (visitedUrls st)) eqn:Hvisited.
  - simpl. repeat split; try discriminate.
    + intros r Hr. injection Hr as <-. reflexivity.
    + unfold JsSet.add. now rewrite Hvisited.
    + exists []. split; [now rewrite app_nil_r | constructor].
  - rewrite bind_emit.
    destruct (launch (puppeteer w url)) as [[] | e].
    2:{ rewrite bind_await_rejected. simpl. repeat split; try discriminate.
        exists [EvLaunch]. split; [apply browserEvents_app | constructor]. }
    rewrite bind_await_fulfilled. unfold tryFinally.
    destruct (pageBody_followsNothing url (emitTo EvLaunch (markVisited url st)) Hleaf)
      as (Hfuel & Hchildren & Hv & Hb).
    destruct (pageBody w options self url currentDepth (emitTo EvLaunch (markVisited url st)))
      as [c st'].
    simpl in *. repeat split; try assumption.
    rewrite browserEvents_app. simpl.
    rewrite browserEvents_app in Hb. simpl in Hb.
    destruct Hb as [-> | ->]; rewrite <- !app_assoc; simpl; eexists; split;
      try reflexivity; constructor.
Qed.

End CallFacts.

(* ================================================================== *)
(** ** The recursion *)

Section RecursionFacts.

Variable F : Frame.
Hypothesis lenient : Lenient F.
Hypothesis accepts_events : forall ev, tolerates F (emitTo ev).
Hypothesis accepts_marking : forall url, tolerates F (markVisited url).

Variable w : World.
Variable options : Options.

(** Lines 140-281: the browser is launched, the page body runs, the
    browser is closed. *)
Lemma sound_launched (self : string -> Z -> M ScrapingResult)
      (url : string) (currentDepth : Z) :
  ((currentDepth < maxDepth options)%Z ->
   forall link, sound F (self link (currentDepth + 1)%Z)) ->
  sound F (emit EvLaunch ;;;
           await (launch (puppeteer w url)) ;;;
           tryFinally (pageBody w options self url currentDepth) (emitTo EvClose)).
Proof.
  intros Hself.
  apply sound_bind; [apply sound_emit, accepts_events | intros _].
  apply sound_bind; [apply sound_await | intros _].
  apply sound_tryFinally; [| apply accepts_events].
  apply sound_pageBody; try assumption.
  intros links. now apply sound_recurse.
Qed.

Lemma sound_scrapeWebPageWith (self : string -> Z -> M ScrapingResult)
      (url : string) (currentDepth : Z) :
  ((currentDepth < maxDepth options)%Z ->
   forall link, sound F (self link (currentDepth + 1)%Z)) ->
  sound F (scrapeWebPageWith w options self url currentDepth).
Proof.
  intros Hself st. unfold scrapeWebPageWith.
  destruct (JsSet.has url (visitedUrls st)).
  - apply sound_bind; [now apply sound_now | intros ts; apply sound_ret].
  - destruct (sound_launched self url Hself (markVisited url st)) as [Hrel Hfuel].
    split; [| assumption].
    eapply rel_trans; [apply accepts_marking | eassumption].
Qed.

(** The fuel that [scraping] provides is enough at every depth. *)
Lemma sound_scrapeWebPage (fuel : nat) (url : string) (currentDepth : Z) :
  (Z.to_nat (maxDepth options - currentDepth) < fuel)%nat ->
  sound F (scrapeWebPage w fuel options url currentDepth).
Proof.
  revert url currentDepth. induction fuel as [| fuel IH]; intros url currentDepth Hfuel.
  - lia.
  - simpl. apply sound_scrapeWebPageWith. intros Hlt link. apply IH. lia.
Qed.

End RecursionFacts.

Lemma tryCatch_rethrow {A} (m : M A) (st : State) :
  tryCatch m (fun error => throw error) st = m st.
Proof. unfold tryCatch. destruct (m st) as [[a | e |] st']; reflexivity. Qed.


(* ================================================================== *)
(** ** The program on the small site *)

Example trim_and_collapse :
  JsString.replaceWhiteSpace (JsString.trim "  two
   words ") = "two words".
Proof. reflexivity. Qed.

Example set_keeps_first_occurrences :
  JsSet.toArray (JsSet.ofArray ["b"; "a"; "b"; "c"; "a"]) = ["b"; "a"; "c"].
Proof. reflexivity. Qed.

Example home_links :
  anchorsCallback Example.home (querySelectorAll tagEngine Example.home "a")
  = ["http://a.test/about"; "http://b.test/"; "http://a.test/"].
Proof. reflexivity. Qed.

(** One level of recursion, for a caller who passes [excludeChildPage:
    undefined]: the page of the same host is scraped as a child, the page
    itself and the foreign host are not. *)
Example crawl_one_level :
  let request := {|
    Partial.maxDepth := Some 1%Z; Partial.excludeChildPage := Some None;
    Partial.selectors := Some [("title", One "h1")]; Partial.withConsole := Some false;
    Partial.breakWhenFailed := None; Partial.retryCount := None;
    Partial.waitForSelectorTimeout := None; Partial.waitForPageLoadTimeout := None |} in
  scraping Example.site "http://a.test/" request initialState
  = (Return (mkResult "http://a.test/" "Home" [("title", Scalar "Welcome")] "T1"
               (Some [mkResult "http://a.test/about" "About" [("title", Scalar "About")]
                               "T0" None])),
     {| visitedUrls := ["http://a.test/"; "http://a.test/about"];
        trace := [EvLaunch; EvNewPage; EvGoto "http://a.test/" 12000;
                  EvLaunch; EvNewPage; EvGoto "http://a.test/about" 12000;
                  EvClose; EvClose];
        clockReads := 2; randomReads := 0 |}).
Proof. vm_compute. reflexivity. Qed.

(* ================================================================== *)
(** * The claims *)

(** C9.  A call of [scraping] with [maxDepth] above [MAX_DEEPEST_DEPTH]
    (10) throws [Error('Max depth exceeds the maximum depth')] and leaves
    the state as it was: no browser is launched, no page is opened, nothing
    is logged. *)
Theorem depth_above_ceiling_fails_fast (w : World) (url : string)
        (_options : Partial.ScrapingOptions) (d : Z) (st : State) :
  Partial.maxDepth _options = Some d ->
  (MAX_DEEPEST_DEPTH < d)%Z ->
  scraping w url _options st
  = (Throw (newError "Max depth exceeds the maximum depth"), st).
Proof.
  intros Hd Hlt. unfold scraping. simpl. rewrite Hd. simpl.
  destruct (d >? MAX_DEEPEST_DEPTH)%Z eqn:E; [reflexivity |].
  rewrite Z.gtb_ltb in E. apply Z.ltb_ge in E. lia.
Qed.

Lemma depth_above_ceiling_fails_fast_witness :
  scraping Example.site "http://a.test/" (Example.withMaxDepth 11) initialState
  = (Throw (newError "Max depth exceeds the maximum depth"), initialState).
Proof.
  apply (@depth_above_ceiling_fails_fast Example.site "http://a.test/"
           (Example.withMaxDepth 11) 11 initialState).
  - reflexivity.
  - reflexivity.
Defined.

(** C10.  A call of [scrapeWebPage] for an address in [visitedUrls] returns
    (it does not throw) the result with title "Already visited", empty
    [data] and no [childPages]; the visited set and the trace are as
    before.  For an address outside the set, the call is the launch of the
    browser and the page body run from the state in which the address has
    been added and nothing else has happened, and the address is in the set
    when the call ends, however it ends. *)
Theorem visited_address_is_skipped (w : World) (fuel : nat) (options : Options)
        (url : string) (currentDepth : Z) (st : State) :
  (JsSet.has url (visitedUrls st) = true ->
   exists timestamp st',
     scrapeWebPage w (S fuel) options url currentDepth st
     = (Return (mkResult url "Already visited" [] timestamp None), st') /\
     visitedUrls st' = visitedUrls st /\ trace st' = trace st) /\
  (JsSet.has url (visitedUrls st) = false ->
   scrapeWebPage w (S fuel) options url currentDepth st
   = (emit EvLaunch ;;;
      await (launch (puppeteer w url)) ;;;
      tryFinally (pageBody w options (scrapeWebPage w fuel options) url currentDepth)
                 (emitTo EvClose))
       (markVisited url st) /\
   JsSet.has url (visitedUrls (markVisited url st)) = true /\
   trace (markVisited url st) = trace st /\
   ((Z.to_nat (maxDepth options - currentDepth) <= fuel)%nat ->
    JsSet.has url
      (visitedUrls (snd (scrapeWebPage w (S fuel) options url currentDepth st))) = true)).
Proof.
  split; intros Hvisited.
  - simpl. unfold scrapeWebPageWith. rewrite Hvisited. simpl.
    eexists. eexists. repeat split.
  - split; [| split; [| split]].
    + simpl. unfold scrapeWebPageWith. now rewrite Hvisited.
    + simpl. apply JsSetFacts.add_has.
    + reflexivity.
    + intros Hfuel. simpl. unfold scrapeWebPageWith. rewrite Hvisited.
      assert (Hbody : sound growsFrame
                (emit EvLaunch ;;;
                 await (launch (puppeteer w url)) ;;;
                 tryFinally (pageBody w options (scrapeWebPage w fuel options)
                                      url currentDepth)
                            (emitTo EvClose))).
      { apply sound_launched; [apply grows_lenient | apply grows_emit |].
        intros Hlt link. apply sound_scrapeWebPage.
        - apply grows_lenient.
        - apply grows_emit.
        - apply grows_markVisited.
        - lia. }
      apply (proj1 (Hbody (markVisited url st))). simpl. apply JsSetFacts.add_has.
Qed.

Lemma visited_address_is_skipped_witness :
  (exists timestamp st',
      scrapeWebPage Example.site 1 DefaultScrapingOptions "http://a.test/" 0
                    Example.homeVisited
      = (Return (mkResult "http://a.test/" "Already visited" [] timestamp None), st') /\
      visitedUrls st' = visitedUrls Example.homeVisited /\
      trace st' = trace Example.homeVisited) /\
  JsSet.has "http://a.test/"
    (visitedUrls (snd (scrapeWebPage Example.site 1 DefaultScrapingOptions
                                     "http://a.test/" 0 initialState))) = true.
Proof.
  split.
  - apply (proj1 (visited_address_is_skipped Example.site 0 DefaultScrapingOptions
                    "http://a.test/" 0 Example.homeVisited)).
    reflexivity.
  - apply (proj2 (visited_address_is_skipped Example.site 0 DefaultScrapingOptions
                    "http://a.test/" 0 initialState)).
    + reflexivity.
    + simpl. lia.
Defined.

(** C8.  At [currentDepth = maxDepth] no child link is followed: the only
    traffic with the browser is for the page itself, the visited set gains
    the address of the page only, and a returned result has no
    [childPages].  At every depth, the [childPages] of a returned result is
    never an empty list: it is left out for a visited address, and
    otherwise it is the list that the loop over the children produced, left
    out when that list is empty. *)
Theorem depth_bound_stops_recursion (w : World) (fuel : nat) (options : Options)
        (url : string) (currentDepth : Z) (st : State) :
  let out := scrapeWebPage w (S fuel) options url currentDepth st in
  (currentDepth = maxDepth options ->
   fst out <> OutOfFuel /\
   (forall r, fst out = Return r -> result_childPages r = None) /\
   visitedUrls (snd out) = JsSet.add url (visitedUrls st) /\
   exists traffic,
     browserEvents (trace (snd out)) = browserEvents (trace st) ++ traffic /\
     ownTraffic url (waitForPageLoadTimeout options) traffic) /\
  (forall r, fst out = Return r ->
     result_childPages r <> Some [] /\
     ((JsSet.has url (visitedUrls st) = true /\ result_childPages r = None) \/
      (exists links st1 produced,
          fst (recurse w options (scrapeWebPage w fuel options) url currentDepth links st1)
          = Return produced /\
          result_childPages r = match produced with
                                | [] => None
                                | _ :: _ => Some produced
                                end))).
Proof.
  intros out. split.
  - intros Hdepth. subst out. simpl.
    apply scrapeWebPageWith_followsNothing. left. lia.
  - intros r Hr. subst out. simpl in Hr. unfold scrapeWebPageWith in Hr.
    destruct (JsSet.has url (visitedUrls st)).
    + simpl in Hr. injection Hr as <-. split; [discriminate | left; now split].
    + rewrite bind_emit in Hr.
      destruct (launch (puppeteer w url)) as [[] | e].
      2:{ rewrite bind_await_rejected in Hr. discriminate. }
      rewrite bind_await_fulfilled, tryFinally_fst in Hr.
      apply pageBody_Return_inv in Hr as (t & links & cs & ts & st1 & _ & Hcs & ->).
      split.
      * simpl. destruct cs; discriminate.
      * right. exists links, st1, cs. split; [exact Hcs | reflexivity].
Qed.

Lemma depth_bound_stops_recursion_witness :
  let out := scrapeWebPage Example.site 1 DefaultScrapingOptions "http://a.test/" 0
                           initialState in
  fst out <> OutOfFuel /\
  (forall r, fst out = Return r -> result_childPages r = None) /\
  visitedUrls (snd out) = JsSet.add "http://a.test/" (visitedUrls initialState) /\
  exists traffic,
    browserEvents (trace (snd out)) = browserEvents (trace initialState) ++ traffic /\
    ownTraffic "http://a.test/" (waitForPageLoadTimeout DefaultScrapingOptions) traffic.
Proof.
  apply (proj1 (depth_bound_stops_recursion Example.site 0 DefaultScrapingOptions
                  "http://a.test/" 0 initialState)).
  reflexivity.
Defined.

(** C3.  When the caller leaves [excludeChildPage] out, the merged options
    hold the default predicate, which is [false] for every address and is
    used as the test for inclusion: [validLinks] is empty for every page,
    and for every seed address and every [maxDepth] from 0 to 10 [scraping]
    talks to the browser about the seed page only and a returned result has
    no [childPages]. *)
Theorem default_predicate_follows_nothing (w : World) (url : string)
        (_options : Partial.ScrapingOptions) (st : State) :
  Partial.excludeChildPage _options = None ->
  (0 <= maxDepth (assign DefaultScrapingOptions _options) <= 10)%Z ->
  let options := assign DefaultScrapingOptions _options in
  let out := scraping w url _options st in
  (exists exclude, excludeChildPage options = Some exclude) /\
  (forall page visited links, validLinks w options page visited links = []) /\
  fst out <> OutOfFuel /\
  (forall r, fst out = Return r -> result_childPages r = None) /\
  exists traffic,
    browserEvents (trace (snd out)) = browserEvents (trace st) ++ traffic /\
    ownTraffic url (waitForPageLoadTimeout options) traffic.
Proof.
  intros Homitted Hdepth options out.
  assert (Hex : excludeChildPage options = Some (fun _ => false)).
  { subst options. simpl. now rewrite Homitted. }
  split; [eauto | split].
  - intros page visited links.
    now apply (@validLinks_none_accepted w options page visited links (fun _ => false)).
  - subst out. unfold scraping. fold options. fold options in Hdepth.
    destruct (maxDepth options >? MAX_DEEPEST_DEPTH)%Z eqn:E.
    { rewrite Z.gtb_ltb in E. apply Z.ltb_lt in E. unfold MAX_DEEPEST_DEPTH in E. lia. }
    rewrite tryCatch_rethrow. simpl.
    match goal with
    | |- context [scrapeWebPageWith w options ?self url 0%Z ?s] =>
        destruct (@scrapeWebPageWith_followsNothing w options self url 0%Z s)
          as (Hfuel & Hchildren & _ & Htraffic)
    end.
    { right. exists (fun _ => false). split; [exact Hex | reflexivity]. }
    repeat split; assumption.
Qed.

Lemma default_predicate_follows_nothing_witness :
  let options := assign DefaultScrapingOptions (Example.withMaxDepth 2) in
  let out := scraping Example.site "http://a.test/" (Example.withMaxDepth 2) initialState in
  (exists exclude, excludeChildPage options = Some exclude) /\
  (forall page visited links, validLinks Example.site options page visited links = []) /\
  fst out <> OutOfFuel /\
  (forall r, fst out = Return r -> result_childPages r = None) /\
  exists traffic,
    browserEvents (trace (snd out)) = browserEvents (trace initialState) ++ traffic /\
    ownTraffic "http://a.test/" (waitForPageLoadTimeout options) traffic.
Proof.
  apply (@default_predicate_follows_nothing Example.site "http://a.test/"
           (Example.withMaxDepth 2) initialState).
  - reflexivity.
  - simpl. lia.
Defined.

(** C2, on the code.  The predicate that filters the links of a page is
    read from the merged options.  A caller who supplies a predicate has it
    applied as the test for inclusion.  The comparison of host names, which
    line 249 provides for a missing predicate, is reached only by a caller
    who writes [excludeChildPage: undefined]: for a caller who leaves the
    property out, the merge of line 285 fills in the default predicate, and
    no link passes, where lines 17 and 22 document that child links are
    followed by default and that a predicate returning [true] skips a
    link. *)
Theorem child_link_filter (w : World) (_options : Partial.ScrapingOptions)
        (url : string) (visited : JsSet.t) (links : list string) :
  validLinks w (assign DefaultScrapingOptions _options) url visited links =
  match Partial.excludeChildPage _options with
  | Some (Some exclude) =>
      filter (fun link => isValidUrl w link && negb (JsSet.has link visited) && exclude link)
             links
  | Some None =>
      filter (fun link => isValidUrl w link && negb (JsSet.has link visited)
                          && isSameDomain w url link)
             links
  | None => []
  end.
Proof.
  destruct (Partial.excludeChildPage _options) as [[exclude |] |] eqn:E.
  - unfold validLinks. simpl. rewrite E. reflexivity.
  - unfold validLinks. simpl. rewrite E. reflexivity.
  - apply (@validLinks_none_accepted w _ url visited links (fun _ => false)).
    + simpl. rewrite E. reflexivity.
    + reflexivity.
Qed.

(** C2 at the failing input: the caller supplies no predicate and allows
    one level, the page links to an unvisited page of its own host, the
    filter keeps nothing and the page is returned without child pages. *)
Lemma same_host_fallback_counterexample :
  let links := ["http://a.test/about"; "http://b.test/"] in
  Partial.excludeChildPage (Example.withMaxDepth 1) = None /\
  filter (fun link => isValidUrl Example.site link
                      && negb (JsSet.has link ["http://a.test/"])
                      && isSameDomain Example.site "http://a.test/" link) links
  = ["http://a.test/about"] /\
  validLinks Example.site (assign DefaultScrapingOptions (Example.withMaxDepth 1))
             "http://a.test/" ["http://a.test/"] links
  = [] /\
  exists r,
    fst (scraping Example.site "http://a.test/" (Example.withMaxDepth 1) initialState)
    = Return r /\
    result_childPages r = None.
Proof.
  repeat split. eexists. split; [vm_compute; reflexivity | reflexivity].
Qed.

(* ------------------------------------------------------------------ *)

Lemma filter_all_same {X} (keep : X -> bool) (xs : list X) (a : X) :
  In a xs -> keep a = true ->
  (forall x, In x xs -> x = a \/ keep x = false) ->
  filter keep xs <> [] /\ forall x, In x (filter keep xs) -> x = a.
Proof.
  intros Hin Hkeep Hall. split.
  - intros Hnil. assert (Ha : In a (filter keep xs)) by (apply filter_In; auto).
    rewrite Hnil in Ha. destruct Ha.
  - intros x Hx. apply filter_In in Hx as [Hx Hk].
    destruct (Hall x Hx) as [-> | Hno]; [reflexivity | congruence].
Qed.

Lemma map_all_same {X Y} (f : X -> Y) (xs : list X) (a : X) :
  xs <> [] -> (forall x, In x xs -> x = a) ->
  map f xs <> [] /\ forall y, In y (map f xs) -> y = f a.
Proof.
  intros Hne Hall. split.
  - destruct xs; [congruence | discriminate].
  - intros y Hy. apply in_map_iff in Hy as (x & <- & Hx). now rewrite (Hall x Hx).
Qed.

Lemma selectorResult_keeps (w : World) (options : Options) (pg : Page)
      (singleSelector : string) (el : Element) :
  let doc := document pg in
  let els := querySelectorAll (engine w) doc singleSelector in
  waitForSelector pg singleSelector (waitForSelectorTimeout options) 0 = Fulfilled tt ->
  evalRejects pg singleSelector = None ->
  In el els ->
  keepElement els el = true ->
  elementText doc el <> "" ->
  In (elementText doc el) (selectorResult w options pg 0 singleSelector).
Proof.
  intros doc els Hwait Heval Hin Hkeep Htext.
  unfold selectorResult. rewrite Hwait, Heval. fold doc. fold els.
  unfold evalCallback. apply filter_In. split.
  - apply in_map. apply filter_In. now split.
  - unfold JsString.truthy. destruct (String.eqb_spec (elementText doc el) "");
      [contradiction | reflexivity].
Qed.

Lemma collapse_two (texts : list string) (a b : string) :
  In a texts -> In b texts -> a <> b -> collapse texts = Sequence texts.
Proof.
  intros Ha Hb Hne. destruct texts as [| x [| y rest]]; try reflexivity.
  destruct Ha as [<- | []]. destruct Hb as [<- | []]. contradiction.
Qed.

(** C4, as the code has it.  The check for a selected ancestor is made
    inside one [$$eval], against the matches of that one selector: an
    element that a match of the same selector contains is filtered out.
    When a field has a single selector whose matches are an element [A] and
    elements inside [A], and the text of [A] is not empty, the extracted
    sequence is the one text of [A], and the field is that text.  Matches
    of different selectors of a field are not compared: when [A] is a match
    of one selector and [B], inside [A], a match of another, each without an
    ancestor among the matches of its own selector, the texts of both are
    among the values of the field, which are distinct texts. *)
Theorem nested_match_is_dropped (w : World) (options : Options) (pg : Page)
        (key singleSelector : string) (A : Element) (st : State) :
  let doc := document pg in
  let els := querySelectorAll (engine w) doc singleSelector in
  (forall B, In A els -> Dom.contains A B ->
             keepElement els B = false /\ ~ In B (filter (keepElement els) els)) /\
  ((1 <= retryCount options)%Z ->
   waitForSelector pg singleSelector (waitForSelectorTimeout options) 0 = Fulfilled tt ->
   evalRejects pg singleSelector = None ->
   In A els ->
   (forall el, In el els -> el = A \/ Dom.contains A el) ->
   elementText doc A <> "" ->
   fst (extractOperation w options pg (One singleSelector) 0 st)
   = Return [elementText doc A] /\
   fst (selectorPromise w options pg (key, One singleSelector) st)
   = Return (key, Scalar (elementText doc A))) /\
  ((1 <= retryCount options)%Z ->
   forall (sels : list string) (other : string) (B : Element),
     let others := querySelectorAll (engine w) doc other in
     In singleSelector sels ->
     In other sels ->
     waitForSelector pg singleSelector (waitForSelectorTimeout options) 0 = Fulfilled tt ->
     evalRejects pg singleSelector = None ->
     waitForSelector pg other (waitForSelectorTimeout options) 0 = Fulfilled tt ->
     evalRejects pg other = None ->
     In A els ->
     In B others ->
     Dom.contains A B ->
     keepElement els A = true ->
     keepElement others B = true ->
     elementText doc A <> "" ->
     elementText doc B <> "" ->
     exists texts,
       fst (extractOperation w options pg (Many sels) 0 st) = Return texts /\
       NoDup texts /\
       In (elementText doc A) texts /\
       In (elementText doc B) texts /\
       (elementText doc A <> elementText doc B ->
        fst (selectorPromise w options pg (key, Many sels) st)
        = Return (key, Sequence texts))).
Proof.
  intros doc els.
  assert (Hdrop : forall B, In A els -> Dom.contains A B -> keepElement els B = false).
  { intros B HA Hcontains. destruct (keepElement els B) eqn:E; [| reflexivity].
    exfalso. exact (proj1 (DomFacts.keepElement_spec els B) E A Hcontains HA). }
  split; [| split].
  - intros B HA Hcontains. split; [now apply Hdrop |].
    intros Hin. apply filter_In in Hin as [_ Hkeep].
    rewrite (Hdrop B HA Hcontains) in Hkeep. discriminate.
  - intros Hretry Hwait Heval HA Hall Htext.
    assert (HkeepA : keepElement els A = true).
    { apply DomFacts.keepElement_spec. intros P HP HPin.
      apply DomFacts.contains_longer in HP.
      destruct (Hall P HPin) as [-> | HAP]; [lia |].
      apply DomFacts.contains_longer in HAP. lia. }
    assert (Hdistinct : JsSet.ofArray (survivors w options pg 0 (One singleSelector))
                        = [elementText doc A]).
    { unfold survivors, selectorResult. simpl. rewrite Hwait, Heval.
      fold doc. fold els. rewrite app_nil_r. unfold evalCallback.
      destruct (@filter_all_same _ (keepElement els) els A HA HkeepA) as [Hne Hsame].
      { intros x Hx. destruct (Hall x Hx) as [-> | Hc]; [now left | right; now apply Hdrop]. }
      destruct (map_all_same (elementText doc) Hne Hsame) as [Hne' Hsame'].
      apply JsSetFacts.ofArray_same.
      - destruct (filter (keepElement els) els) as [| x xs]; [congruence |].
        simpl. rewrite (Hsame x (or_introl eq_refl)).
        unfold JsString.truthy at 1.
        destruct (elementText doc A =? "")%string eqn:E; [| discriminate].
        apply String.eqb_eq in E. contradiction.
      - intros x Hx. apply filter_In in Hx as [Hx _]. now apply Hsame'. }
    split.
    + rewrite extractOperation_value. now rewrite Hdistinct.
    + rewrite selectorPromise_value. unfold fieldValue.
      apply Z.leb_le in Hretry. rewrite Hretry, Hdistinct. reflexivity.
  - intros Hretry sels other B others HsA HsB HwaitA HevalA HwaitB HevalB HA HB _
           HkeepA HkeepB HtextA HtextB.
    exists (JsSet.ofArray (survivors w options pg 0 (Many sels))).
    assert (HinA : In (elementText doc A)
                      (JsSet.ofArray (survivors w options pg 0 (Many sels)))).
    { apply JsSetFacts.ofArray_In. unfold survivors. simpl. apply in_concat.
      exists (selectorResult w options pg 0 singleSelector).
      split; [now apply in_map | now apply selectorResult_keeps]. }
    assert (HinB : In (elementText doc B)
                      (JsSet.ofArray (survivors w options pg 0 (Many sels)))).
    { apply JsSetFacts.ofArray_In. unfold survivors. simpl. apply in_concat.
      exists (selectorResult w options pg 0 other).
      split; [now apply in_map | now apply selectorResult_keeps]. }
    split; [apply extractOperation_value |].
    split; [apply JsSetFacts.ofArray_NoDup |].
    split; [exact HinA | split; [exact HinB |]].
    intros Hne. rewrite selectorPromise_value. unfold fieldValue.
    apply Z.leb_le in Hretry. rewrite Hretry.
    now rewrite (collapse_two _ HinA HinB Hne).
Qed.

Lemma nested_match_is_dropped_witness :
  let pg := Example.staticPage "Nested" Example.nested in
  let doc := Example.nested in
  let outer := [0%nat] in
  let inner := [1%nat; 0%nat] in
  let leaf := [1%nat; 1%nat; 0%nat] in
  let els := querySelectorAll tagEngine doc "div" in
  els = [outer; inner] /\
  Dom.contains outer inner /\
  Dom.contains outer leaf /\
  elementText doc outer = "outer inner leaf" /\
  elementText doc leaf = "leaf" /\
  (keepElement els inner = false /\ ~ In inner (filter (keepElement els) els)) /\
  (fst (extractOperation Example.site DefaultScrapingOptions pg (One "div") 0 initialState)
   = Return [elementText doc outer] /\
   fst (selectorPromise Example.site DefaultScrapingOptions pg ("block", One "div")
                        initialState)
   = Return ("block", Scalar (elementText doc outer))) /\
  exists texts,
    fst (extractOperation Example.site DefaultScrapingOptions pg (Many ["div"; "span"]) 0
                          initialState) = Return texts /\
    NoDup texts /\
    In (elementText doc outer) texts /\
    In (elementText doc leaf) texts /\
    (elementText doc outer <> elementText doc leaf ->
     fst (selectorPromise Example.site DefaultScrapingOptions pg
                          ("block", Many ["div"; "span"]) initialState)
     = Return ("block", Sequence texts)).
Proof.
  intros pg doc outer inner leaf els.
  assert (Hinner : Dom.contains outer inner)
    by (exists [1%nat]; split; [discriminate | reflexivity]).
  assert (Hleaf : Dom.contains outer leaf)
    by (exists [1%nat; 1%nat]; split; [discriminate | reflexivity]).
  pose proof (@nested_match_is_dropped Example.site DefaultScrapingOptions pg
                "block" "div" outer initialState) as (Hdrop & Hone & Hboth).
  split; [reflexivity |].
  split; [exact Hinner |].
  split; [exact Hleaf |].
  split; [reflexivity |].
  split; [reflexivity |].
  split; [apply Hdrop; [simpl; now left | exact Hinner] |].
  split.
  - apply Hone.
    + simpl. lia.
    + reflexivity.
    + reflexivity.
    + simpl. now left.
    + intros el Hel. simpl in Hel. destruct Hel as [<- | [<- | []]]; [now left | now right].
    + discriminate.
  - apply (Hboth ltac:(simpl; lia) ["div"; "span"] "span" leaf).
    + simpl. now left.
    + simpl. tauto.
    + reflexivity.
    + reflexivity.
    + reflexivity.
    + reflexivity.
    + simpl. now left.
    + simpl. now left.
    + exact Hleaf.
    + reflexivity.
    + reflexivity.
    + discriminate.
    + discriminate.
Defined.

(** C4 as stated fails: [div] contains [span], the field selects both
    through two selectors, and both texts are extracted. *)
Lemma nested_match_counterexample :
  let pg := Example.staticPage "Home" Example.home in
  Dom.contains [1%nat] [1%nat; 1%nat] /\
  querySelectorAll tagEngine Example.home "div" = [[1%nat]] /\
  querySelectorAll tagEngine Example.home "span" = [[1%nat; 1%nat]] /\
  elementText Example.home [1%nat] = "hello world" /\
  fst (extractOperation Example.site DefaultScrapingOptions pg (Many ["div"; "span"]) 0
                        initialState)
  = Return ["hello world"; "world"] /\
  fst (selectorPromise Example.site DefaultScrapingOptions pg
                       ("block", Many ["div"; "span"]) initialState)
  = Return ("block", Sequence ["hello world"; "world"]).
Proof.
  intros pg. split; [| repeat split].
  exists [1%nat]. split; [discriminate | reflexivity].
Qed.

(** C7.  The operation of a field returns the distinct values among the
    merged survivors of its selectors, in order of first occurrence.  One
    distinct value makes the field that string; none, or two and more, make
    it the sequence of the distinct values. *)
Theorem one_value_is_a_scalar (w : World) (options : Options) (pg : Page)
        (key : string) (selector : Selector) (st : State) :
  (1 <= retryCount options)%Z ->
  let merged := survivors w options pg 0 selector in
  let distinct := JsSet.ofArray merged in
  NoDup distinct /\
  (forall v, In v distinct <-> In v merged) /\
  fst (extractOperation w options pg selector 0 st) = Return distinct /\
  exists value,
    fst (selectorPromise w options pg (key, selector) st) = Return (key, value) /\
    (forall only, distinct = [only] -> value = Scalar only) /\
    (length distinct <> 1%nat -> value = Sequence distinct).
Proof.
  intros Hretry merged distinct.
  split; [apply JsSetFacts.ofArray_NoDup |].
  split; [intros v; apply JsSetFacts.ofArray_In |].
  split; [apply extractOperation_value |].
  exists (collapse distinct). split; [| split].
  - rewrite selectorPromise_value. unfold fieldValue.
    apply Z.leb_le in Hretry. now rewrite Hretry.
  - intros only ->. reflexivity.
  - intros Hlen. destruct distinct as [| a [| b rest]]; simpl in *; congruence.
Qed.

Lemma one_value_is_a_scalar_witness :
  let pg := Example.staticPage "Home" Example.home in
  let merged := survivors Example.site DefaultScrapingOptions pg 0 (One "h1") in
  let distinct := JsSet.ofArray merged in
  NoDup distinct /\
  (forall v, In v distinct <-> In v merged) /\
  fst (extractOperation Example.site DefaultScrapingOptions pg (One "h1") 0 initialState)
  = Return distinct /\
  exists value,
    fst (selectorPromise Example.site DefaultScrapingOptions pg ("headings", One "h1")
                         initialState) = Return ("headings", value) /\
    (forall only, distinct = [only] -> value = Scalar only) /\
    (length distinct <> 1%nat -> value = Sequence distinct).
Proof.
  apply (@one_value_is_a_scalar Example.site DefaultScrapingOptions
           (Example.staticPage "Home" Example.home) "headings" (One "h1") initialState).
  simpl. lia.
Defined.

(* ------------------------------------------------------------------ *)

Lemma survivors_all_rejected (w : World) (options : Options) (pg : Page)
      (selector : Selector) :
  (forall sel, In sel (selectorsOf selector) ->
               exists e, waitForSelector pg sel (waitForSelectorTimeout options) 0
                         = Rejected e) ->
  survivors w options pg 0 selector = [].
Proof.
  intros Hall. unfold survivors.
  induction (selectorsOf selector) as [| sel sels IH]; simpl; [reflexivity |].
  rewrite IH by (intros s Hs; apply Hall; now right).
  unfold selectorResult. destruct (Hall sel (or_introl eq_refl)) as (e & ->). reflexivity.
Qed.

(** C5, on the code.  With [breakWhenFailed] off, a page whose own browser
    calls succeed is returned, whatever happens to its fields and to its
    children, and every configured field (but one named [__proto__], which
    is never a property of [data]) is in [data] with the value of its own
    selectors.  A field all of whose selectors are rejected does not get the
    empty string that lines 207-210 record "after all retries": when an
    attempt is allowed, the operation given to [retry] returns at its first
    invocation and the field holds the empty array.  The empty string is
    recorded only when [retry] made no attempt ([retryCount] below 1). *)
Theorem unresolved_field_is_recorded (w : World) (fuel : nat) (options : Options)
        (url : string) (currentDepth : Z) (st : State)
        (key : string) (selector : Selector) :
  let b := puppeteer w url in
  breakWhenFailed options = false ->
  (Z.to_nat (maxDepth options - currentDepth) <= fuel)%nat ->
  JsSet.has url (visitedUrls st) = false ->
  launch b = Fulfilled tt ->
  newPage b = Fulfilled tt ->
  goto b (waitForPageLoadTimeout options) = Fulfilled tt ->
  (exists t, title (page b) = Fulfilled t) ->
  evalRejects (page b) "a" = None ->
  NoDup (map fst (selectors options)) ->
  In (key, selector) (selectors options) ->
  key <> "__proto__" ->
  (forall sel, In sel (selectorsOf selector) ->
               exists e, waitForSelector (page b) sel (waitForSelectorTimeout options) 0
                         = Rejected e) ->
  exists r,
    fst (scrapeWebPage w (S fuel) options url currentDepth st) = Return r /\
    (forall k s, In (k, s) (selectors options) -> k <> "__proto__" ->
                 getProperty k (result_data r) = Some (fieldValue w options (page b) s)) /\
    getProperty "__proto__" (result_data r) = None /\
    ((1 <= retryCount options)%Z -> getProperty key (result_data r) = Some (Sequence [])) /\
    ((retryCount options < 1)%Z -> getProperty key (result_data r) = Some (Scalar "")).
Proof.
  intros b Hbreak Hfuel Hvisited Hlaunch Hnew Hgoto (t & Htitle) Heval Hnd Hin Hkey Hrej.
  assert (Hself : forall link st',
             fst (scrapeWebPage w fuel options link (currentDepth + 1)%Z st') <> OutOfFuel
             \/ (maxDepth options <= currentDepth)%Z).
  { intros link st'. destruct (Z_lt_le_dec currentDepth (maxDepth options)) as [Hlt | Hge].
    - left. apply (@sound_scrapeWebPage anyFrame any_lenient).
      + intros ev. apply any_tolerates.
      + intros u. apply any_tolerates.
      + lia.
    - now right. }
  assert (Hrec : forall links st', exists result,
             fst (recurse w options (scrapeWebPage w fuel options) url currentDepth links st')
             = Return result).
  { intros links st'.
    destruct (Z_lt_le_dec currentDepth (maxDepth options)) as [Hlt | Hge].
    - apply recurse_returns; [assumption |].
      intros link st''. destruct (Hself link st'') as [H | H]; [assumption | lia].
    - exists []. rewrite recurse_followsNothing; [reflexivity | left; assumption]. }
  destruct (@pageBody_returns w options (scrapeWebPage w fuel options) url currentDepth
              (emitTo EvLaunch (markVisited url st)) t Hnew Hgoto Htitle Heval Hrec)
    as (r & Hr).
  exists r.
  assert (Hcall : fst (scrapeWebPage w (S fuel) options url currentDepth st) = Return r).
  { simpl. unfold scrapeWebPageWith. rewrite Hvisited, bind_emit. fold b.
    rewrite Hlaunch, bind_await_fulfilled, tryFinally_fst. exact Hr. }
  split; [exact Hcall |].
  apply pageBody_Return_inv in Hr as (t' & links & cs & ts & st1 & _ & _ & ->).
  simpl. fold b.
  split; [| split; [| split]].
  - intros k s Hks Hk. now apply dataOf_property.
  - apply dataOf_proto.
  - intros Hretry. rewrite (@dataOf_property w options (page b) key selector Hnd Hin Hkey).
    unfold fieldValue. apply Z.leb_le in Hretry. rewrite Hretry.
    now rewrite (@survivors_all_rejected w options (page b) selector Hrej).
  - intros Hretry. rewrite (@dataOf_property w options (page b) key selector Hnd Hin Hkey).
    unfold fieldValue. apply Z.leb_gt in Hretry. now rewrite Hretry.
Qed.

Lemma unresolved_field_is_recorded_witness :
  exists r,
    fst (scrapeWebPage Example.site 1 Example.twoFields "http://a.test/" 0 initialState)
    = Return r /\
    (forall k s, In (k, s) (selectors Example.twoFields) -> k <> "__proto__" ->
                 getProperty k (result_data r)
                 = Some (fieldValue Example.site Example.twoFields
                                    (page (puppeteer Example.site "http://a.test/")) s)) /\
    getProperty "__proto__" (result_data r) = None /\
    ((1 <= retryCount Example.twoFields)%Z ->
     getProperty "missing" (result_data r) = Some (Sequence [])) /\
    ((retryCount Example.twoFields < 1)%Z ->
     getProperty "missing" (result_data r) = Some (Scalar "")).
Proof.
  apply (@unresolved_field_is_recorded Example.site 0 Example.twoFields
           "http://a.test/" 0 initialState "missing" (One "h7")).
  - reflexivity.
  - simpl. lia.
  - reflexivity.
  - reflexivity.
  - reflexivity.
  - reflexivity.
  - eexists. reflexivity.
  - reflexivity.
  - simpl. repeat constructor; simpl; intuition discriminate.
  - simpl. tauto.
  - discriminate.
  - intros sel [<- | []]. eexists. reflexivity.
Defined.

(** C5 at the failing input: with the default [breakWhenFailed] and three
    attempts allowed, the selector [h7] of the field [missing] is rejected
    at every invocation; the page is returned, the field holds an empty
    array, not an empty string, and [h7] was waited for once: nothing was
    retried and nothing slept. *)
Lemma empty_string_placeholder_counterexample :
  let out := scraping Example.site "http://a.test/" (Example.twoFieldsRequest None None)
                      initialState in
  breakWhenFailed (assign DefaultScrapingOptions (Example.twoFieldsRequest None None))
  = false /\
  (forall k, exists e,
      waitForSelector (page (puppeteer Example.site "http://a.test/")) "h7" 12000 k
      = Rejected e) /\
  exists r,
    fst out = Return r /\
    result_data r = [("title", Scalar "Welcome"); ("missing", Sequence [])] /\
    getProperty "missing" (result_data r) <> Some (Scalar "") /\
    filter (String.eqb "waiting for selector h7...") (logsOf (trace (snd out)))
    = ["waiting for selector h7..."] /\
    sleepsOf (trace (snd out)) = [].
Proof.
  intros out. split; [reflexivity | split].
  - intros k. eexists. reflexivity.
  - eexists. split; [vm_compute; reflexivity |].
    split; [reflexivity | split; [discriminate | split; vm_compute; reflexivity]].
Qed.

(** C1, on the code.  [breakWhenFailed] is on in both runs.  In the first,
    [retryCount] is 0: [retry] throws for both fields, the failure is
    logged, the fields hold the empty string and [scraping] returns.  In the
    second, three attempts are allowed and the selector [h7] is rejected:
    the field holds an empty array and [scraping] returns. *)
Theorem field_failure_does_not_abort :
  (let out := scraping Example.site "http://a.test/"
                       (Example.twoFieldsRequest (Some true) (Some 0%Z)) initialState in
   breakWhenFailed (assign DefaultScrapingOptions
                           (Example.twoFieldsRequest (Some true) (Some 0%Z))) = true /\
   In (EvLog "Failed to extract missing with selector h7 after all retries: undefined")
      (trace (snd out)) /\
   exists r,
     fst out = Return r /\
     result_data r = [("title", Scalar ""); ("missing", Scalar "")]) /\
  (let out := scraping Example.site "http://a.test/"
                       (Example.twoFieldsRequest (Some true) (Some 3%Z)) initialState in
   exists r,
     fst out = Return r /\
     result_data r = [("title", Scalar "Welcome"); ("missing", Sequence [])]).
Proof.
  split.
  - split; [reflexivity | split].
    + vm_compute. tauto.
    + eexists. split; [vm_compute; reflexivity | reflexivity].
  - eexists. split; [vm_compute; reflexivity | reflexivity].
Qed.

(* ------------------------------------------------------------------ *)

Section RetryBackoff.

Variable w : World.
Context {T : Type}.
Variable operation : nat -> M T.
Variable maxRetries : Z.
Variable delay : Q.

Lemma sleepsOf_afterBackoff (attempt : nat) (st : State) :
  sleepsOf (trace (afterBackoff w delay attempt st))
  = sleepsOf (trace st)
    ++ [backoffDelay delay attempt (Math_random w (randomReads st))].
Proof. unfold afterBackoff. simpl. now rewrite sleepsOf_app. Qed.

Lemma retryLoop_succeeds (more attempt : nat) (lastError : Thrown) (st : State) (v : T) :
  fst (operation attempt st) = Return v ->
  retryLoop w (S more) operation maxRetries delay attempt lastError st
  = (Return v, snd (operation attempt st)).
Proof.
  intros H. simpl. unfold tryCatch.
  destruct (operation attempt st) as [c st']. simpl in *. now subst c.
Qed.

Lemma retryLoop_backs_off (more attempt : nat) (lastError e : Thrown) (st : State) :
  fst (operation attempt st) = Throw e ->
  (Z.of_nat attempt < maxRetries - 1)%Z ->
  retryLoop w (S more) operation maxRetries delay attempt lastError st
  = retryLoop w more operation maxRetries delay (S attempt) e
              (afterBackoff w delay attempt (snd (operation attempt st))).
Proof.
  intros H Hlt. simpl. unfold tryCatch.
  destruct (operation attempt st) as [c st']. simpl in *. subst c.
  apply Z.ltb_lt in Hlt. rewrite Hlt. reflexivity.
Qed.

Lemma retryLoop_gives_up (more attempt : nat) (lastError e : Thrown) (st : State) :
  fst (operation attempt st) = Throw e ->
  (maxRetries - 1 <= Z.of_nat attempt)%Z ->
  retryLoop w (S more) operation maxRetries delay attempt lastError st
  = retryLoop w more operation maxRetries delay (S attempt) e (snd (operation attempt st)).
Proof.
  intros H Hge. simpl. unfold tryCatch.
  destruct (operation attempt st) as [c st']. simpl in *. subst c.
  apply Z.ltb_ge in Hge. rewrite Hge. reflexivity.
Qed.

Lemma retryLoop_exhausted :
  (forall k s, (Z.of_nat k < maxRetries)%Z -> exists e, fst (operation k s) = Throw e) ->
  forall (iterations attempt : nat) (lastError : Thrown) (st : State),
    Z.of_nat (attempt + iterations) = maxRetries ->
    exists e,
      fst (retryLoop w iterations operation maxRetries delay attempt lastError st) = Throw e /\
      match iterations with
      | O => e = lastError
      | S _ => exists s, fst (operation (attempt + iterations - 1)%nat s) = Throw e
      end.
Proof.
  intros Hfail. induction iterations as [| more IH]; intros attempt lastError st Hsum.
  - exists lastError. split; reflexivity.
  - destruct (Hfail attempt st) as (e & He); [lia |].
    destruct more as [| more'].
    + rewrite (@retryLoop_gives_up 0 attempt lastError e st He) by lia.
      exists e. split; [reflexivity |]. exists st.
      replace (attempt + 1 - 1)%nat with attempt by lia. exact He.
    + rewrite (@retryLoop_backs_off (S more') attempt lastError e st He) by lia.
      destruct (IH (S attempt) e (afterBackoff w delay attempt (snd (operation attempt st))))
        as (e' & He' & s & Hs); [lia |].
      exists e'. split; [exact He' |]. exists s.
      replace (attempt + S (S more') - 1)%nat with (S attempt + S more' - 1)%nat by lia.
      exact Hs.
Qed.

End RetryBackoff.

Lemma backoffDelay_bounds (delay u : Q) (attempt : nat) :
  (0 <= delay)%Q -> (0 <= u)%Q -> (u < 1)%Q ->
  (delay * Qpower 2 (Z.of_nat attempt) * 0.5 <= backoffDelay delay attempt u)%Q /\
  (backoffDelay delay attempt u <= delay * Qpower 2 (Z.of_nat attempt))%Q.
Proof.
  intros Hd Hu0 Hu1. unfold backoffDelay.
  assert (Hpow : (0 <= Qpower 2 (Z.of_nat attempt))%Q) by (apply Qpower_0_le; lra).
  set (p := Qpower 2 (Z.of_nat attempt)) in *. clearbody p.
  assert (Hc : (0 <= delay * p)%Q) by (apply Qmult_le_0_compat; assumption).
  set (c := (delay * p)%Q) in *. clearbody c.
  split; nra.
Qed.

(** C6.  [baseDelay] is not negative and [Math.random()] returns values in
    [0, 1); the operation does not sleep on its own account.  If the
    operation throws at its first two invocations and returns at the third,
    [retry] with three attempts returns what the third invocation returned,
    after exactly two sleeps; the sleep after failed attempt [i] lasts
    [delay * 2^i * (0.5 + u * 0.5)] for a value [u] of the random generator,
    which is between [delay * 2^i * 0.5] and [delay * 2^i].  If the
    operation throws at every attempt, [retry] throws what the last attempt
    threw. *)
Theorem retry_backoff (w : World) (T : Type) (operation : nat -> M T) (delay : Q) :
  (0 <= delay)%Q ->
  (forall n, 0 <= Math_random w n /\ Math_random w n < 1)%Q ->
  (forall k st, sleepsOf (trace (snd (operation k st))) = sleepsOf (trace st)) ->
  (forall st : State,
      (forall s, exists e, fst (operation 0%nat s) = Throw e) ->
      (forall s, exists e, fst (operation 1%nat s) = Throw e) ->
      (forall s, exists v, fst (operation 2%nat s) = Return v) ->
      let out := retry w operation 3 delay st in
      (exists v s2, fst (operation 2%nat s2) = Return v /\
                    out = (Return v, snd (operation 2%nat s2))) /\
      exists u0 u1 : Q,
        (0 <= u0 /\ u0 < 1)%Q /\ (0 <= u1 /\ u1 < 1)%Q /\
        sleepsOf (trace (snd out))
        = sleepsOf (trace st)
          ++ [(delay * 2 ^ 0 * (0.5 + u0 * 0.5))%Q; (delay * 2 ^ 1 * (0.5 + u1 * 0.5))%Q] /\
        (delay * 2 ^ 0 * 0.5 <= delay * 2 ^ 0 * (0.5 + u0 * 0.5)
         /\ delay * 2 ^ 0 * (0.5 + u0 * 0.5) <= delay * 2 ^ 0)%Q /\
        (delay * 2 ^ 1 * 0.5 <= delay * 2 ^ 1 * (0.5 + u1 * 0.5)
         /\ delay * 2 ^ 1 * (0.5 + u1 * 0.5) <= delay * 2 ^ 1)%Q) /\
  (forall (maxRetries : Z) (st : State),
      (1 <= maxRetries)%Z ->
      (forall k s, (Z.of_nat k < maxRetries)%Z -> exists e, fst (operation k s) = Throw e) ->
      exists e s,
        fst (operation (Z.to_nat (maxRetries - 1)) s) = Throw e /\
        fst (retry w operation maxRetries delay st) = Throw e).
Proof.
  intros Hdelay Hrandom Hquiet. split.
  - intros st H0 H1 H2 out. subst out. unfold retry.
    change (Z.to_nat 3) with 3%nat.
    destruct (H0 st) as (e0 & He0).
    rewrite (@retryLoop_backs_off w T operation 3 delay 2 0 Undefined e0 st He0)
      by (simpl; lia).
    set (s0 := snd (operation 0%nat st)).
    destruct (H1 (afterBackoff w delay 0 s0)) as (e1 & He1).
    rewrite (@retryLoop_backs_off w T operation 3 delay 1 1 e0 e1 _ He1)
      by (simpl; lia).
    set (s1 := snd (operation 1%nat (afterBackoff w delay 0 s0))).
    destruct (H2 (afterBackoff w delay 1 s1)) as (v & Hv).
    rewrite (@retryLoop_succeeds w T operation 3 delay 0 2 e1 _ v Hv).
    simpl fst. simpl snd. split.
    { exists v, (afterBackoff w delay 1 s1). split; [exact Hv | reflexivity]. }
    exists (Math_random w (randomReads s0)), (Math_random w (randomReads s1)).
    split; [apply Hrandom | split; [apply Hrandom | split; [| split]]].
    + rewrite Hquiet, sleepsOf_afterBackoff. subst s1.
      rewrite Hquiet, sleepsOf_afterBackoff. subst s0.
      rewrite Hquiet, <- app_assoc. reflexivity.
    + apply (@backoffDelay_bounds delay (Math_random w (randomReads s0)) 0 Hdelay);
        apply Hrandom.
    + apply (@backoffDelay_bounds delay (Math_random w (randomReads s1)) 1 Hdelay);
        apply Hrandom.
  - intros maxRetries st Hmax Hfail. unfold retry.
    destruct (@retryLoop_exhausted w T operation maxRetries delay Hfail
                (Z.to_nat maxRetries) 0 Undefined st) as (e & He & Hlast); [lia |].
    destruct (Z.to_nat maxRetries) as [| n] eqn:E; [lia |].
    destruct Hlast as (s & Hs). exists e, s. split; [| exact He].
    replace (Z.to_nat (maxRetries - 1)) with (0 + S n - 1)%nat by lia. exact Hs.
Qed.

Lemma retry_backoff_witness :
  (let out := retry Example.site Example.flaky 3 1000 initialState in
   (exists v s2, fst (Example.flaky 2%nat s2) = Return v /\
                 out = (Return v, snd (Example.flaky 2%nat s2))) /\
   exists u0 u1 : Q,
     (0 <= u0 /\ u0 < 1)%Q /\ (0 <= u1 /\ u1 < 1)%Q /\
     sleepsOf (trace (snd out))
     = sleepsOf (trace initialState)
       ++ [(1000 * 2 ^ 0 * (0.5 + u0 * 0.5))%Q; (1000 * 2 ^ 1 * (0.5 + u1 * 0.5))%Q] /\
     (1000 * 2 ^ 0 * 0.5 <= 1000 * 2 ^ 0 * (0.5 + u0 * 0.5)
      /\ 1000 * 2 ^ 0 * (0.5 + u0 * 0.5) <= 1000 * 2 ^ 0)%Q /\
     (1000 * 2 ^ 1 * 0.5 <= 1000 * 2 ^ 1 * (0.5 + u1 * 0.5)
      /\ 1000 * 2 ^ 1 * (0.5 + u1 * 0.5) <= 1000 * 2 ^ 1)%Q) /\
  (exists e s,
      fst (Example.broken (Z.to_nat (3 - 1)) s) = Throw e /\
      fst (retry Example.site Example.broken 3 1000 initialState) = Throw e).
Proof.
  assert (Hdelay : (0 <= 1000)%Q) by (unfold Qle; simpl; lia).
  assert (Hrandom : forall n, (0 <= Math_random Example.site n
                               /\ Math_random Example.site n < 1)%Q).
  { intros n. simpl. split; [unfold Qle | unfold Qlt]; simpl; lia. }
  assert (Hflaky : forall k st,
             sleepsOf (trace (snd (Example.flaky k st))) = sleepsOf (trace st)).
  { intros k st. unfold Example.flaky. destruct (k <? 2)%nat; reflexivity. }
  split.
  - apply (proj1 (@retry_backoff Example.site string Example.flaky 1000
                    Hdelay Hrandom Hflaky) initialState);
      intros s; eexists; reflexivity.
  - apply (proj2 (@retry_backoff Example.site string Example.broken 1000
                    Hdelay Hrandom (fun k st => eq_refl)) 3%Z initialState).
    + lia.
    + intros k s _. eexists. reflexivity.
Defined.

(* ================================================================== *)
(** * Further properties of the code *)

(** ** [isSameDomain] *)

(** X1.  [isSameDomain] is symmetric and transitive, it relates an address
    to itself exactly when the address parses, and it relates only
    addresses that parse. *)
Theorem isSameDomain_partial_equivalence (w : World) (a b c : string) :
  isSameDomain w a b = isSameDomain w b a /\
  isSameDomain w a a = isValidUrl w a /\
  (isSameDomain w a b = true -> isValidUrl w a = true /\ isValidUrl w b = true) /\
  (isSameDomain w a b = true -> isSameDomain w b c = true -> isSameDomain w a c = true).
Proof.
  unfold isSameDomain, isValidUrl.
  destruct (URL_hostname w a) as [ha |], (URL_hostname w b) as [hb |],
           (URL_hostname w c) as [hc |];
    repeat split; try congruence; try apply String.eqb_sym; try apply String.eqb_refl;
    try (intros H1 H2; apply String.eqb_eq in H1, H2; apply String.eqb_eq; congruence).
Qed.

Lemma isSameDomain_partial_equivalence_witness :
  (isValidUrl Example.site "http://a.test/" = true
   /\ isValidUrl Example.site "http://a.test/about" = true) /\
  isSameDomain Example.site "http://a.test/" "http://a.test/x" = true.
Proof.
  pose proof (@isSameDomain_partial_equivalence Example.site "http://a.test/"
                "http://a.test/about" "http://a.test/x") as (_ & _ & Hvalid & Htrans).
  split.
  - apply Hvalid. reflexivity.
  - apply Htrans; reflexivity.
Defined.

(** ** [retry] *)

Section RetryOutcome.

Variable w : World.
Context {T : Type}.
Variable operation : nat -> M T.
Variable maxRetries : Z.
Variable delay : Q.

(** The loop ends with what one of its invocations ended with. *)
Lemma retryLoop_outcome (iterations attempt : nat) (lastError : Thrown) (st : State) :
  match fst (retryLoop w iterations operation maxRetries delay attempt lastError st) with
  | Return v =>
      exists k s, (attempt <= k < attempt + iterations)%nat /\
                  fst (operation k s) = Return v
  | Throw e =>
      match iterations with
      | O => e = lastError
      | S _ => exists s, fst (operation (attempt + iterations - 1)%nat s) = Throw e
      end
  | OutOfFuel =>
      exists k s, (attempt <= k < attempt + iterations)%nat /\
                  fst (operation k s) = OutOfFuel
  end.
Proof.
  revert attempt lastError st.
  induction iterations as [| more IH]; intros attempt lastError st.
  - reflexivity.
  - simpl. unfold tryCatch.
    destruct (operation attempt st) as [[v | e |] st1] eqn:Hop.
    + simpl. exists attempt, st. rewrite Hop. split; [lia | reflexivity].
    + match goal with
      | |- context [bind ?pause ?k st1] =>
          assert (Hpause : exists st2, bind pause k st1 = k tt st2)
      end.
      { destruct (Z.of_nat attempt <? maxRetries - 1)%Z; eexists; reflexivity. }
      destruct Hpause as (st2 & ->).
      specialize (IH (S attempt) e st2).
      destruct (fst (retryLoop w more operation maxRetries delay (S attempt) e st2))
        as [v | e' |].
      * destruct IH as (k & s & Hk & Hv). exists k, s. split; [lia | exact Hv].
      * destruct more as [| more'].
        -- subst e'. exists st.
           replace (attempt + 1 - 1)%nat with attempt by lia.
           rewrite Hop. reflexivity.
        -- destruct IH as (s & Hs). exists s.
           replace (attempt + S (S more') - 1)%nat with (S attempt + S more' - 1)%nat by lia.
           exact Hs.
      * destruct IH as (k & s & Hk & Hv). exists k, s. split; [lia | exact Hv].
    + simpl. exists attempt, st. rewrite Hop. split; [lia | reflexivity].
Qed.

Hypothesis operation_does_not_sleep :
  forall k st, sleepsOf (trace (snd (operation k st))) = sleepsOf (trace st).

(** [failures] failed attempts from [attempt] on, then a success: one sleep
    per failure. *)
Lemma retryLoop_sleeps_until_success (failures : nat) :
  forall (iterations attempt : nat) (lastError : Thrown) (st : State),
    (failures < iterations)%nat ->
    Z.of_nat (attempt + iterations) = maxRetries ->
    (forall j s, (attempt <= j < attempt + failures)%nat ->
                 exists e, fst (operation j s) = Throw e) ->
    (forall s, exists v, fst (operation (attempt + failures)%nat s) = Return v) ->
    let out := retryLoop w iterations operation maxRetries delay attempt lastError st in
    (exists v, fst out = Return v) /\
    length (sleepsOf (trace (snd out))) = (length (sleepsOf (trace st)) + failures)%nat.
Proof.
  induction failures as [| failures IH];
    intros iterations attempt lastError st Hlt Hsum Hfail Hok out; subst out;
    destruct iterations as [| more]; try lia.
  - destruct (Hok st) as (v & Hv). rewrite Nat.add_0_r in Hv.
    rewrite (@retryLoop_succeeds w T operation maxRetries delay more attempt lastError st v Hv).
    simpl. split; [eauto |]. rewrite operation_does_not_sleep. lia.
  - destruct (Hfail attempt st) as (e & He); [lia |].
    rewrite (@retryLoop_backs_off w T operation maxRetries delay more attempt lastError e st He)
      by lia.
    destruct (IH more (S attempt) e
                 (afterBackoff w delay attempt (snd (operation attempt st))))
      as (Hv & Hlen).
    + lia.
    + lia.
    + intros j s Hj. apply Hfail. lia.
    + intros s. replace (S attempt + failures)%nat with (attempt + S failures)%nat by lia.
      apply Hok.
    + split; [exact Hv |]. rewrite Hlen, sleepsOf_afterBackoff, length_app.
      rewrite operation_does_not_sleep. simpl. lia.
Qed.

(** Every attempt fails: one sleep per failure but the last. *)
Lemma retryLoop_sleeps_until_exhausted :
  (forall j s, (Z.of_nat j < maxRetries)%Z -> exists e, fst (operation j s) = Throw e) ->
  forall (iterations attempt : nat) (lastError : Thrown) (st : State),
    Z.of_nat (attempt + iterations) = maxRetries ->
    length (sleepsOf (trace (snd (retryLoop w iterations operation maxRetries delay
                                            attempt lastError st))))
    = (length (sleepsOf (trace st)) + (iterations - 1))%nat.
Proof.
  intros Hfail. induction iterations as [| more IH]; intros attempt lastError st Hsum.
  - simpl. lia.
  - destruct (Hfail attempt st) as (e & He); [lia |].
    destruct more as [| more'].
    + rewrite (@retryLoop_gives_up w T operation maxRetries delay 0 attempt lastError e st He)
        by lia.
      simpl. rewrite operation_does_not_sleep. lia.
    + rewrite (@retryLoop_backs_off w T operation maxRetries delay (S more') attempt
                 lastError e st He) by lia.
      rewrite IH by lia. rewrite sleepsOf_afterBackoff, length_app.
      rewrite operation_does_not_sleep. simpl. lia.
Qed.

End RetryOutcome.

(** X2.  [retry] fabricates no outcome.  A value it returns was returned by
    one of at most [maxRetries] invocations of the operation.  What it
    throws is [undefined] when [maxRetries] is below 1, where the operation
    is never invoked and the state is untouched, and otherwise what the
    last invocation, number [maxRetries - 1], threw. *)
Theorem retry_outcome_provenance (w : World) (T : Type) (operation : nat -> M T)
        (maxRetries : Z) (delay : Q) (st : State) :
  let out := retry w operation maxRetries delay st in
  match fst out with
  | Return v => exists k s, (Z.of_nat k < maxRetries)%Z /\ fst (operation k s) = Return v
  | Throw e =>
      if (maxRetries <? 1)%Z
      then e = Undefined /\ snd out = st
      else exists s, fst (operation (Z.to_nat (maxRetries - 1)) s) = Throw e
  | OutOfFuel => exists k s, fst (operation k s) = OutOfFuel
  end.
Proof.
  intros out. subst out. unfold retry.
  pose proof (@retryLoop_outcome w T operation maxRetries delay
                (Z.to_nat maxRetries) 0 Undefined st) as H.
  destruct (maxRetries <? 1)%Z eqn:E.
  - apply Z.ltb_lt in E. replace (Z.to_nat maxRetries) with 0%nat in * by lia.
    simpl. split; reflexivity.
  - apply Z.ltb_ge in E.
    destruct (fst (retryLoop w (Z.to_nat maxRetries) operation maxRetries delay 0
                             Undefined st)) as [v | e |].
    + destruct H as (k & s & Hk & Hv). exists k, s. split; [lia | exact Hv].
    + destruct (Z.to_nat maxRetries) as [| n] eqn:En; [lia |].
      destruct H as (s & Hs). exists s.
      replace (Z.to_nat (maxRetries - 1)) with (0 + S n - 1)%nat by lia. exact Hs.
    + destruct H as (k & s & _ & Hv). exists k, s. exact Hv.
Qed.

(** X3.  [retry] sleeps once after every failed attempt but the last one
    allowed.  When the operation throws at its first [failures] invocations
    and returns at the next, with [failures < maxRetries], [retry] returns
    after [failures] sleeps; when it throws at every one of the
    [maxRetries >= 1] attempts, [retry] has slept [maxRetries - 1] times.
    The operation is taken not to sleep on its own account. *)
Theorem retry_sleeps_between_attempts (w : World) (T : Type) (operation : nat -> M T)
        (maxRetries : Z) (delay : Q) (st : State) :
  (forall k s, sleepsOf (trace (snd (operation k s))) = sleepsOf (trace s)) ->
  let out := retry w operation maxRetries delay st in
  (forall failures : nat,
      (Z.of_nat failures < maxRetries)%Z ->
      (forall j s, (j < failures)%nat -> exists e, fst (operation j s) = Throw e) ->
      (forall s, exists v, fst (operation failures s) = Return v) ->
      (exists v, fst out = Return v) /\
      length (sleepsOf (trace (snd out))) = (length (sleepsOf (trace st)) + failures)%nat) /\
  ((1 <= maxRetries)%Z ->
   (forall j s, (Z.of_nat j < maxRetries)%Z -> exists e, fst (operation j s) = Throw e) ->
   length (sleepsOf (trace (snd out)))
   = (length (sleepsOf (trace st)) + Z.to_nat (maxRetries - 1))%nat).
Proof.
  intros Hquiet out. subst out. unfold retry. split.
  - intros failures Hlt Hfail Hok.
    apply (@retryLoop_sleeps_until_success w T operation maxRetries delay Hquiet failures).
    + lia.
    + lia.
    + intros j s Hj. apply Hfail. lia.
    + exact Hok.
  - intros Hmax Hfail.
    rewrite (@retryLoop_sleeps_until_exhausted w T operation maxRetries delay Hquiet Hfail)
      by lia.
    f_equal. lia.
Qed.

Lemma retry_sleeps_between_attempts_witness :
  ((exists v, fst (retry Example.site Example.flaky 5 1000 initialState) = Return v) /\
   length (sleepsOf (trace (snd (retry Example.site Example.flaky 5 1000 initialState))))
   = (length (sleepsOf (trace initialState)) + 2)%nat) /\
  length (sleepsOf (trace (snd (retry Example.site Example.broken 4 1000 initialState))))
  = (length (sleepsOf (trace initialState)) + Z.to_nat (4 - 1))%nat.
Proof.
  assert (Hflaky : forall k st,
             sleepsOf (trace (snd (Example.flaky k st))) = sleepsOf (trace st)).
  { intros k st. unfold Example.flaky. destruct (k <? 2)%nat; reflexivity. }
  split.
  - apply (proj1 (@retry_sleeps_between_attempts Example.site string Example.flaky
                    5 1000 initialState Hflaky) 2%nat).
    + lia.
    + intros j s Hj. unfold Example.flaky.
      destruct (j <? 2)%nat eqn:E; [eexists; reflexivity |].
      apply Nat.ltb_ge in E. lia.
    + intros s. eexists. reflexivity.
  - apply (proj2 (@retry_sleeps_between_attempts Example.site string Example.broken
                    4 1000 initialState (fun k s => eq_refl))).
    + lia.
    + intros j s _. eexists. reflexivity.
Defined.

(** X4.  Whatever the jitter, the pause after a failed attempt is at least
    as long as the pause after the attempt before it: the shortest pause
    after attempt [i + 1], [delay * 2^(i+1) * 0.5], is the longest after
    attempt [i]. *)
Theorem backoff_never_shrinks (delay u u' : Q) (attempt : nat) :
  (0 <= delay)%Q ->
  (0 <= u /\ u < 1)%Q ->
  (0 <= u' /\ u' < 1)%Q ->
  (backoffDelay delay attempt u <= backoffDelay delay (S attempt) u')%Q.
Proof.
  intros Hd [Hu0 Hu1] [Hv0 Hv1].
  destruct (@backoffDelay_bounds delay u attempt Hd Hu0 Hu1) as [_ Hupper].
  destruct (@backoffDelay_bounds delay u' (S attempt) Hd Hv0 Hv1) as [Hlower _].
  apply Qle_trans with (delay * Qpower 2 (Z.of_nat attempt))%Q; [exact Hupper |].
  eapply Qle_trans; [| exact Hlower].
  rewrite Nat2Z.inj_succ. unfold Z.succ.
  rewrite Qpower_plus by (intros H; discriminate H).
  set (p := Qpower 2 (Z.of_nat attempt)).
  change (Qpower 2 1) with 2%Q.
  apply Qle_lteq. right. ring.
Qed.

Lemma backoff_never_shrinks_witness :
  (backoffDelay 1000 0 0.75 <= backoffDelay 1000 1 0)%Q.
Proof.
  apply (@backoff_never_shrinks 1000 0.75 0 0).
  - unfold Qle; simpl; lia.
  - split; [unfold Qle | unfold Qlt]; simpl; lia.
  - split; [unfold Qle | unfold Qlt]; simpl; lia.
Defined.

(** ** The callback of [$$eval] *)

Lemma contains_trans (A B C : Element) :
  Dom.contains A B -> Dom.contains B C -> Dom.contains A C.
Proof.
  intros (ab & Hab & ->) (bc & Hbc & ->). exists (bc ++ ab). split.
  - destruct bc; [congruence | discriminate].
  - now rewrite app_assoc.
Qed.

Lemma noneSelectedFrom_false (els : list Element) (parent : Element) :
  noneSelectedFrom els parent = false ->
  exists above upper, parent = above ++ upper /\ In upper els.
Proof.
  induction parent as [| i up IH]; simpl.
  - destruct (Dom.includes els []) eqn:E; [| discriminate]. intros _.
    exists [], []. split; [reflexivity | now apply DomFacts.includes_In].
  - destruct (Dom.includes els (i :: up)) eqn:E.
    + intros _. exists [], (i :: up). split; [reflexivity | now apply DomFacts.includes_In].
    + intros H. destruct (IH H) as (above & upper & -> & Hin).
      exists (i :: above), upper. split; [reflexivity | exact Hin].
Qed.

Lemma keepElement_false (els : list Element) (el : Element) :
  keepElement els el = false -> exists A, Dom.contains A el /\ In A els.
Proof.
  unfold keepElement. destruct el as [| i up]; simpl; [discriminate |].
  intros H. destruct (noneSelectedFrom_false els up H) as (above & upper & -> & Hin).
  exists upper. split; [| exact Hin].
  exists (i :: above). split; [discriminate | reflexivity].
Qed.

Lemma outermost_exists (els : list Element) (n : nat) :
  forall el, (length el <= n)%nat -> In el els ->
             exists A, In A (filter (keepElement els) els) /\ (A = el \/ Dom.contains A el).
Proof.
  induction n as [| n IH]; intros el Hlen Hin.
  - destruct el; [| simpl in Hlen; lia].
    exists []. split; [| now left]. apply filter_In. split; [exact Hin | reflexivity].
  - destruct (keepElement els el) eqn:E.
    + exists el. split; [| now left]. apply filter_In. now split.
    + destruct (keepElement_false els el E) as (P & HP & HPin).
      pose proof (DomFacts.contains_longer HP) as Hshorter.
      destruct (IH P ltac:(lia) HPin) as (A & HA & [-> | HAP]).
      * exists P. split; [exact HA | now right].
      * exists A. split; [exact HA | right; eapply contains_trans; eassumption].
Qed.

(** X5.  The filter of the [$$eval] callback keeps the outermost matches and
    loses none: no kept element contains another kept element, and every
    matched element is kept or lies inside a kept one, whose text includes
    its own. *)
Theorem dedup_keeps_the_outermost (els : list Element) :
  let kept := filter (keepElement els) els in
  (forall A B, In A kept -> In B kept -> ~ Dom.contains A B) /\
  (forall el, In el els -> exists A, In A kept /\ (A = el \/ Dom.contains A el)).
Proof.
  intros kept. split.
  - intros A B HA HB Hcontains.
    apply filter_In in HA as [HA _]. apply filter_In in HB as [_ HB].
    exact (proj1 (DomFacts.keepElement_spec els B) HB A Hcontains HA).
  - intros el Hin. apply (@outermost_exists els (length el) el (Nat.le_refl _) Hin).
Qed.

Lemma dedup_keeps_the_outermost_witness :
  let els := [[1%nat]; [1%nat; 1%nat]; [0%nat]] in
  exists A, In A (filter (keepElement els) els)
            /\ (A = [1%nat; 1%nat] \/ Dom.contains A [1%nat; 1%nat]).
Proof.
  intros els.
  apply (proj2 (dedup_keeps_the_outermost els)). simpl. tauto.
Defined.

(** *** The shape of the extracted texts *)

Lemma trimStart_starts (s : string) : startsWithWhiteSpace (JsString.trimStart s) = false.
Proof.
  induction s as [| c rest IH]; simpl; [reflexivity |].
  destruct (JsString.isWhiteSpace c) eqn:E; [exact IH | simpl; exact E].
Qed.

Lemma trimEnd_ends (s : string) : endsWithWhiteSpace (JsString.trimEnd s) = false.
Proof.
  induction s as [| c rest IH]; simpl; [reflexivity |].
  destruct (JsString.trimEnd rest) as [| k ks] eqn:E.
  - destruct (JsString.isWhiteSpace c) eqn:Ec; simpl; [reflexivity | exact Ec].
  - simpl in *. exact IH.
Qed.

Lemma trimEnd_starts (s : string) :
  startsWithWhiteSpace s = false -> startsWithWhiteSpace (JsString.trimEnd s) = false.
Proof.
  destruct s as [| c rest]; simpl; [reflexivity |]. intros Hc.
  destruct (JsString.trimEnd rest); [rewrite Hc |]; simpl; exact Hc.
Qed.

Lemma collapseRuns_in_run_starts (s : string) :
  startsWithWhiteSpace (JsString.collapseRuns true s) = false.
Proof.
  induction s as [| c rest IH]; simpl; [reflexivity |].
  destruct (JsString.isWhiteSpace c) eqn:E; [exact IH | simpl; exact E].
Qed.

Lemma collapseRuns_singleSpaced (s : string) :
  forall inRun, singleSpaced (JsString.collapseRuns inRun s) = true.
Proof.
  induction s as [| c rest IH]; intros inRun; simpl; [reflexivity |].
  destruct (JsString.isWhiteSpace c) eqn:E.
  - destruct inRun; [apply IH |].
    simpl. rewrite collapseRuns_in_run_starts, IH. reflexivity.
  - simpl. rewrite E, IH. reflexivity.
Qed.

Lemma collapseRuns_starts (s : string) (inRun : bool) :
  startsWithWhiteSpace s = false ->
  startsWithWhiteSpace (JsString.collapseRuns inRun s) = false.
Proof.
  destruct s as [| c rest]; simpl; [reflexivity |]. intros Hc. rewrite Hc. simpl. exact Hc.
Qed.

Lemma collapseRuns_nonempty (s : string) :
  forall inRun, s <> EmptyString -> endsWithWhiteSpace s = false ->
                JsString.collapseRuns inRun s <> EmptyString.
Proof.
  induction s as [| c rest IH]; intros inRun Hne Hends; [congruence |].
  simpl in *. destruct rest as [| c' rest'].
  - rewrite Hends. discriminate.
  - destruct (JsString.isWhiteSpace c); [| discriminate].
    destruct inRun; [| discriminate].
    apply IH; [discriminate | exact Hends].
Qed.

Lemma collapseRuns_ends (s : string) :
  forall inRun, endsWithWhiteSpace s = false ->
                endsWithWhiteSpace (JsString.collapseRuns inRun s) = false.
Proof.
  induction s as [| c rest IH]; intros inRun Hends; [reflexivity |].
  destruct rest as [| c' rest'].
  - simpl in *. rewrite Hends. simpl. exact Hends.
  - assert (Hrest : endsWithWhiteSpace (String c' rest') = false) by exact Hends.
    assert (Hne : forall b, JsString.collapseRuns b (String c' rest') <> EmptyString)
      by (intros b; apply collapseRuns_nonempty; [discriminate | exact Hrest]).
    change (JsString.collapseRuns inRun (String c (String c' rest')))
      with (if JsString.isWhiteSpace c
            then (if inRun then JsString.collapseRuns true (String c' rest')
                  else String " " (JsString.collapseRuns true (String c' rest')))
            else String c (JsString.collapseRuns false (String c' rest'))).
    destruct (JsString.isWhiteSpace c).
    + destruct inRun; [apply IH; exact Hrest |].
      pose proof (IH true Hrest) as Htail. specialize (Hne true).
      destruct (JsString.collapseRuns true (String c' rest')); [congruence | exact Htail].
    + pose proof (IH false Hrest) as Htail. specialize (Hne false).
      destruct (JsString.collapseRuns false (String c' rest')); [congruence | exact Htail].
Qed.

(** X6.  Every text that the [$$eval] callback returns is normalised: it is
    not empty, it neither starts nor ends with white space, and every white
    space in it is a single space. *)
Theorem extracted_texts_are_normalised (doc : node) (els : list Element) (t : string) :
  In t (evalCallback doc els) ->
  t <> "" /\
  startsWithWhiteSpace t = false /\
  endsWithWhiteSpace t = false /\
  singleSpaced t = true.
Proof.
  unfold evalCallback. intros Hin. apply filter_In in Hin as [Hin Htruthy].
  assert (Hne : t <> "").
  { intros ->. discriminate Htruthy. }
  split; [exact Hne |].
  apply in_map_iff in Hin as (el & Hel & _). unfold elementText in Hel.
  destruct (Dom.textContent doc el) as [text |]; [| congruence].
  cbv zeta in Hel.
  destruct (JsString.truthy (JsString.replaceWhiteSpace (JsString.trim text)));
    [| congruence].
  subst t. unfold JsString.replaceWhiteSpace, JsString.trim. split; [| split].
  - apply collapseRuns_starts, trimEnd_starts, trimStart_starts.
  - apply collapseRuns_ends, trimEnd_ends.
  - apply collapseRuns_singleSpaced.
Qed.

Lemma extracted_texts_are_normalised_witness :
  "hello world" <> "" /\
  startsWithWhiteSpace "hello world" = false /\
  endsWithWhiteSpace "hello world" = false /\
  singleSpaced "hello world" = true.
Proof.
  apply (@extracted_texts_are_normalised Example.home
           (querySelectorAll tagEngine Example.home "div") "hello world").
  simpl. now left.
Defined.

(** ** The fields of a page *)

Lemma evalCallback_nonempty (doc : node) (els : list Element) (t : string) :
  In t (evalCallback doc els) -> t <> "".
Proof.
  unfold evalCallback. intros Hin. apply filter_In in Hin as [_ Htruthy].
  intros ->. discriminate Htruthy.
Qed.

Lemma survivors_nonempty (w : World) (options : Options) (pg : Page) (k : nat)
      (selector : Selector) (t : string) :
  In t (survivors w options pg k selector) -> t <> "".
Proof.
  unfold survivors. intros Hin. apply in_concat in Hin as (l & Hl & Ht).
  apply in_map_iff in Hl as (sel & <- & _). unfold selectorResult in Ht.
  destruct (waitForSelector pg sel (waitForSelectorTimeout options) k); [| destruct Ht].
  destruct (evalRejects pg sel); [destruct Ht |].
  eapply evalCallback_nonempty. exact Ht.
Qed.

(** X7.  The value of a field has one of three shapes.  It is the empty
    string exactly when [retryCount] is below 1; otherwise it is a scalar
    that is one of the extracted texts, hence not empty, or a sequence of
    none or of two and more distinct extracted texts: never a sequence of
    one. *)
Theorem field_value_shapes (w : World) (options : Options) (pg : Page)
        (key : string) (selector : Selector) (st : State) :
  exists value,
    fst (selectorPromise w options pg (key, selector) st) = Return (key, value) /\
    (value = Scalar "" <-> (retryCount options < 1)%Z) /\
    match value with
    | Scalar t => t = "" \/ In t (survivors w options pg 0 selector)
    | Sequence ts =>
        length ts <> 1%nat /\ NoDup ts /\
        forall t, In t ts -> t <> "" /\ In t (survivors w options pg 0 selector)
    end.
Proof.
  exists (fieldValue w options pg selector).
  split; [apply selectorPromise_value |].
  unfold fieldValue. destruct (1 <=? retryCount options)%Z eqn:E.
  - apply Z.leb_le in E.
    set (distinct := JsSet.ofArray (survivors w options pg 0 selector)).
    assert (Hin : forall t, In t distinct -> t <> "" /\ In t (survivors w options pg 0 selector)).
    { intros t Ht. unfold distinct in Ht.
      apply (proj1 (JsSetFacts.ofArray_In _ t)) in Ht.
      split; [eapply survivors_nonempty; exact Ht | exact Ht]. }
    assert (Hnd : NoDup distinct) by apply JsSetFacts.ofArray_NoDup.
    clearbody distinct. destruct distinct as [| a [| b rest]]; simpl.
    + split; [split; [discriminate | lia] |].
      split; [discriminate | split; [exact Hnd | exact Hin]].
    + destruct (Hin a (or_introl eq_refl)) as [Hne Ha].
      split; [split; [intros H; injection H as ->; congruence | lia] |].
      right. exact Ha.
    + split; [split; [discriminate | lia] |].
      split; [discriminate | split; [exact Hnd | exact Hin]].
  - apply Z.leb_gt in E. split; [split; [intros _; lia | reflexivity] | now left].
Qed.

Lemma fold_add_absorbed (xs : list string) (acc : JsSet.t) :
  (forall x, In x xs -> In x acc) ->
  fold_left (fun s x => JsSet.add x s) xs acc = acc.
Proof.
  induction xs as [| x xs IH]; intros Hall; simpl; [reflexivity |].
  assert (Hx : JsSet.add x acc = acc).
  { unfold JsSet.add. rewrite (proj2 (JsSetFacts.has_In x acc) (Hall x (or_introl eq_refl))).
    reflexivity. }
  rewrite Hx. apply IH. intros y Hy. apply Hall. now right.
Qed.

Lemma ofArray_app_absorbed (xs ys : list string) :
  (forall y, In y ys -> In y xs) -> JsSet.ofArray (xs ++ ys) = JsSet.ofArray xs.
Proof.
  intros Hall. unfold JsSet.ofArray. rewrite fold_left_app.
  apply fold_add_absorbed. intros y Hy. apply JsSetFacts.fold_add_In. right. now apply Hall.
Qed.

Lemma survivors_Many_app (w : World) (options : Options) (pg : Page) (k : nat)
      (xs ys : list string) :
  survivors w options pg k (Many (xs ++ ys))
  = survivors w options pg k (Many xs) ++ survivors w options pg k (Many ys).
Proof. unfold survivors. simpl. now rewrite map_app, concat_app. Qed.

(** X8.  A selector that is rejected (its wait or its evaluation fails)
    leaves the field as it would be without it: the failure touches neither
    the other selectors of the field nor the order of their texts. *)
Theorem rejected_selector_is_isolated (w : World) (options : Options) (pg : Page)
        (key bad : string) (before after : list string) (st st' : State) :
  (exists e, waitForSelector pg bad (waitForSelectorTimeout options) 0 = Rejected e) \/
  (exists e, evalRejects pg bad = Some e) ->
  fst (selectorPromise w options pg (key, Many (before ++ bad :: after)) st)
  = fst (selectorPromise w options pg (key, Many (before ++ after)) st').
Proof.
  intros Hbad. rewrite !selectorPromise_value. f_equal. f_equal.
  unfold fieldValue. destruct (1 <=? retryCount options)%Z; [| reflexivity].
  f_equal. f_equal.
  rewrite !survivors_Many_app. f_equal.
  change (bad :: after) with ([bad] ++ after). rewrite survivors_Many_app.
  assert (Hnone : survivors w options pg 0 (Many [bad]) = []).
  { unfold survivors, selectorResult. simpl.
    destruct Hbad as [(e & ->) | (e & ->)]; [reflexivity |].
    destruct (waitForSelector pg bad (waitForSelectorTimeout options) 0); reflexivity. }
  now rewrite Hnone.
Qed.

Lemma rejected_selector_is_isolated_witness :
  let pg := Example.staticPage "Home" Example.home in
  fst (selectorPromise Example.site DefaultScrapingOptions pg
                       ("headings", Many (["h1"] ++ "h7" :: ["span"])) initialState)
  = fst (selectorPromise Example.site DefaultScrapingOptions pg
                         ("headings", Many (["h1"] ++ ["span"])) Example.homeVisited).
Proof.
  intros pg.
  apply (@rejected_selector_is_isolated Example.site DefaultScrapingOptions pg
           "headings" "h7" ["h1"] ["span"] initialState Example.homeVisited).
  left. eexists. reflexivity.
Defined.

(** X9.  Deduplication is by text and keeps first occurrences: a selector
    at the end of a field's list whose texts were all extracted by the
    selectors before it leaves the field unchanged.  In particular a
    selector listed twice counts once. *)
Theorem repeated_texts_are_absorbed (w : World) (options : Options) (pg : Page)
        (key extra : string) (sels : list string) (st st' : State) :
  (forall t, In t (selectorResult w options pg 0 extra) ->
             In t (survivors w options pg 0 (Many sels))) ->
  fst (selectorPromise w options pg (key, Many (sels ++ [extra])) st)
  = fst (selectorPromise w options pg (key, Many sels) st').
Proof.
  intros Hseen. rewrite !selectorPromise_value. f_equal. f_equal.
  unfold fieldValue. destruct (1 <=? retryCount options)%Z; [| reflexivity].
  f_equal. rewrite survivors_Many_app. apply ofArray_app_absorbed.
  intros t Ht. apply Hseen. unfold survivors in Ht. simpl in Ht.
  now rewrite app_nil_r in Ht.
Qed.

Lemma repeated_texts_are_absorbed_witness :
  let pg := Example.staticPage "Home" Example.home in
  fst (selectorPromise Example.site DefaultScrapingOptions pg
                       ("block", Many (["div"; "span"] ++ ["div"])) initialState)
  = fst (selectorPromise Example.site DefaultScrapingOptions pg
                         ("block", Many ["div"; "span"]) initialState).
Proof.
  intros pg.
  apply (@repeated_texts_are_absorbed Example.site DefaultScrapingOptions pg
           "block" "div" ["div"; "span"] initialState initialState).
  intros t Ht. simpl in Ht. simpl. tauto.
Defined.

(** ** The links of a page *)

(** X10.  When [collectLinks] returns, its links are distinct and are
    exactly the [href]s of the anchors of the document that start with
    [http]; it throws only when the evaluation for ['a'] is rejected, with
    that reason. *)
Theorem collected_links_are_distinct_http (w : World) (options : Options) (pg : Page)
        (st : State) :
  match fst (collectLinks w options pg st) with
  | Return links =>
      NoDup links /\
      forall link,
        In link links <->
        JsString.startsWith link "http" = true /\
        exists anchor, In anchor (querySelectorAll (engine w) (document pg) "a") /\
                       Dom.hrefOf (document pg) anchor = link
  | Throw e => evalRejects pg "a" = Some e
  | OutOfFuel => False
  end.
Proof.
  unfold collectLinks, evalAll.
  destruct (evalRejects pg "a") as [e |]; [reflexivity |].
  unfold bind at 1. unfold ret at 1.
  rewrite (bind_run _ _ _ (logger_run options _ st)). simpl.
  split; [apply JsSetFacts.ofArray_NoDup |].
  intros link. unfold JsSet.toArray. rewrite JsSetFacts.ofArray_In.
  unfold anchorsCallback. rewrite filter_In, in_map_iff, andb_true_iff. split.
  - intros [(anchor & Hhref & Hanchor) [_ Hhttp]]. split; [exact Hhttp | eauto].
  - intros [Hhttp (anchor & Hanchor & Hhref)]. split; [eauto |].
    split; [| exact Hhttp].
    destruct link; [discriminate Hhttp | reflexivity].
Qed.

(** ** The children of a page *)

Lemma Subsequence_refl {X} (xs : list X) : Subsequence xs xs.
Proof. induction xs; constructor; assumption. Qed.

Lemma Subsequence_In {X} (xs ys : list X) :
  Subsequence xs ys -> forall x, In x xs -> In x ys.
Proof.
  induction 1 as [| y xs ys _ IH | x xs ys _ IH]; intros z Hz.
  - exact Hz.
  - right. now apply IH.
  - destruct Hz as [-> | Hz]; [now left | right; now apply IH].
Qed.

Lemma Subsequence_NoDup {X} (xs ys : list X) :
  Subsequence xs ys -> NoDup ys -> NoDup xs.
Proof.
  induction 1 as [| y xs ys _ IH | x xs ys Hsub IH]; intros Hnd.
  - exact Hnd.
  - inversion Hnd; subst. now apply IH.
  - inversion Hnd as [| ? ? Hx Hrest]; subst. constructor; [| now apply IH].
    intros Hin. apply Hx. eapply Subsequence_In; eassumption.
Qed.

Lemma Subsequence_filter {X} (keep : X -> bool) (ys : list X) :
  forall xs, Subsequence xs (filter keep ys) ->
             Subsequence xs ys /\ forall x, In x xs -> keep x = true.
Proof.
  induction ys as [| y ys IH]; intros xs Hsub; simpl in Hsub.
  - inversion Hsub; subst. split; [constructor | intros x []].
  - destruct (keep y) eqn:E.
    + inversion Hsub as [| ? ? ? Hrest | ? xs' ? Hrest]; subst.
      * destruct (IH xs Hrest) as [H1 H2]. split; [now constructor | exact H2].
      * destruct (IH xs' Hrest) as [H1 H2]. split; [now constructor |].
        intros x [<- | Hx]; [exact E | now apply H2].
    + destruct (IH xs Hsub) as [H1 H2]. split; [now constructor | exact H2].
Qed.

Lemma Subsequence_app_keep {X} (xs ys : list X) (y : X) :
  Subsequence xs ys -> Subsequence (y :: xs) (y :: ys).
Proof. now constructor. Qed.

Section ChildrenFacts.

Variable w : World.
Variable options : Options.
Variable self : string -> Z -> M ScrapingResult.
Variable currentDepth : Z.

Hypothesis self_keeps_address :
  forall link st r, fst (self link (currentDepth + 1)%Z st) = Return r -> result_url r = link.

(** One round of the loop (lines 252-268), by what the child call did. *)
Lemma scrapeChildren_cons (link : string) (rest : list string)
      (childPages : list ScrapingResult) (st : State) :
  scrapeChildren options self currentDepth (link :: rest) childPages st
  = match self link (currentDepth + 1)%Z
            (snd (logger options ("scraping " ++ link ++ "...") st)) with
    | (Return r, st2) =>
        scrapeChildren options self currentDepth rest (childPages ++ [r]) st2
    | (Throw e, st2) =>
        let st3 := snd (logger options ("Error scraping child page " ++ link ++ ": "
                                        ++ Thrown_toString e) st2) in
        if breakWhenFailed options then (Throw e, st3)
        else scrapeChildren options self currentDepth rest childPages st3
    | (OutOfFuel, st2) => (OutOfFuel, st2)
    end.
Proof.
  simpl. rewrite (bind_run _ _ _ (logger_run options _ st)).
  unfold bind at 1. unfold tryCatch. unfold bind at 1.
  destruct (self link (currentDepth + 1)%Z _) as [[r | e |] st2]; simpl.
  - reflexivity.
  - rewrite (bind_run _ _ _ (logger_run options _ st2)).
    destruct (breakWhenFailed options); reflexivity.
  - reflexivity.
Qed.

Lemma scrapeChildren_step (link : string) (rest : list string)
      (childPages : list ScrapingResult) (st : State) :
  exists st1,
    match fst (self link (currentDepth + 1)%Z st1) with
    | Return r =>
        exists st2, scrapeChildren options self currentDepth (link :: rest) childPages st
                    = scrapeChildren options self currentDepth rest (childPages ++ [r]) st2
    | Throw e =>
        if breakWhenFailed options
        then fst (scrapeChildren options self currentDepth (link :: rest) childPages st)
             = Throw e
        else exists st2,
            scrapeChildren options self currentDepth (link :: rest) childPages st
            = scrapeChildren options self currentDepth rest childPages st2
    | OutOfFuel =>
        fst (scrapeChildren options self currentDepth (link :: rest) childPages st)
        = OutOfFuel
    end.
Proof.
  rewrite scrapeChildren_cons.
  exists (snd (logger options ("scraping " ++ link ++ "...") st)).
  destruct (self link (currentDepth + 1)%Z _) as [[r | e |] st2]; simpl.
  - eexists. reflexivity.
  - destruct (breakWhenFailed options); [reflexivity | eexists; reflexivity].
  - reflexivity.
Qed.

Lemma scrapeChildren_outcome (links : list string) :
  forall (childPages : list ScrapingResult) (st : State),
    match fst (scrapeChildren options self currentDepth links childPages st) with
    | Return children =>
        exists new,
          children = childPages ++ new /\
          Subsequence (map result_url new) links /\
          (breakWhenFailed options = true -> map result_url new = links)
    | Throw e =>
        breakWhenFailed options = true /\
        exists link s, In link links /\ fst (self link (currentDepth + 1)%Z s) = Throw e
    | OutOfFuel =>
        exists link s, In link links /\ fst (self link (currentDepth + 1)%Z s) = OutOfFuel
    end.
Proof.
  induction links as [| link rest IH]; intros childPages st.
  - simpl. exists []. rewrite app_nil_r. repeat split; constructor.
  - destruct (scrapeChildren_step link rest childPages st) as (st1 & Hstep).
    destruct (fst (self link (currentDepth + 1)%Z st1)) as [r | e |] eqn:Hchild.
    + destruct Hstep as (st2 & ->). specialize (IH (childPages ++ [r]) st2).
      destruct (fst (scrapeChildren options self currentDepth rest (childPages ++ [r]) st2))
        as [children | e |].
      * destruct IH as (new & -> & Hsub & Hall). exists (r :: new).
        rewrite <- app_assoc. split; [reflexivity |]. simpl.
        rewrite (self_keeps_address _ _ Hchild).
        split; [now constructor | intros Hb; now rewrite (Hall Hb)].
      * destruct IH as (Hb & l & s & Hl & Hs). split; [exact Hb |].
        exists l, s. split; [now right | exact Hs].
      * destruct IH as (l & s & Hl & Hs). exists l, s. split; [now right | exact Hs].
    + destruct (breakWhenFailed options) eqn:Hb.
      * rewrite Hstep. split; [reflexivity |]. exists link, st1. split; [now left | exact Hchild].
      * destruct Hstep as (st2 & ->). specialize (IH childPages st2).
        destruct (fst (scrapeChildren options self currentDepth rest childPages st2))
          as [children | e' |].
        -- destruct IH as (new & -> & Hsub & Hall). exists new.
           split; [reflexivity | split; [now constructor | discriminate]].
        -- destruct IH as (Hb' & _). discriminate.
        -- destruct IH as (l & s & Hl & Hs). exists l, s. split; [now right | exact Hs].
    + rewrite Hstep. exists link, st1. split; [now left | exact Hchild].
Qed.

End ChildrenFacts.

Lemma scrapeChildren_Forall (options : Options) (self : string -> Z -> M ScrapingResult)
      (currentDepth : Z) (P : ScrapingResult -> Prop) (links : list string) :
  (forall link st r, fst (self link (currentDepth + 1)%Z st) = Return r -> P r) ->
  forall (childPages : list ScrapingResult) (st : State) (children : list ScrapingResult),
    Forall P childPages ->
    fst (scrapeChildren options self currentDepth links childPages st) = Return children ->
    Forall P children.
Proof.
  intros Hself. induction links as [| link rest IH]; intros childPages st children Hacc Hrun.
  - simpl in Hrun. injection Hrun as <-. exact Hacc.
  - simpl in Hrun. rewrite (bind_run _ _ _ (logger_run options _ st)) in Hrun.
    set (st1 := snd (logger options _ st)) in Hrun. clearbody st1.
    unfold bind at 1 in Hrun. unfold tryCatch in Hrun. unfold bind at 1 in Hrun.
    destruct (self link (currentDepth + 1)%Z st1) as [[r | e |] st2] eqn:Hchild;
      simpl in Hrun.
    + apply (IH _ _ _ (proj2 (Forall_app _ _ _)
                               (conj Hacc (Forall_cons r
                                  (Hself link st1 r (f_equal fst Hchild)) (Forall_nil P))))
                Hrun).
    + rewrite (bind_run _ _ _ (logger_run options _ st2)) in Hrun.
      destruct (breakWhenFailed options); simpl in Hrun; [discriminate |].
      exact (IH _ _ _ Hacc Hrun).
    + discriminate.
Qed.

Lemma scrapeWebPage_keeps_address (w : World) (fuel : nat) (options : Options)
      (url : string) (currentDepth : Z) (st : State) (r : ScrapingResult) :
  fst (scrapeWebPage w fuel options url currentDepth st) = Return r -> result_url r = url.
Proof.
  destruct fuel as [| fuel]; simpl; [discriminate |].
  unfold scrapeWebPageWith. destruct (JsSet.has url (visitedUrls st)).
  - simpl. intros H. injection H as <-. reflexivity.
  - rewrite bind_emit. destruct (launch (puppeteer w url)) as [[] | e].
    2:{ rewrite bind_await_rejected. discriminate. }
    rewrite bind_await_fulfilled, tryFinally_fst. intros H.
    apply pageBody_Return_inv in H as (t & links & cs & ts & st1 & _ & _ & ->).
    reflexivity.
Qed.

Section ChildOutcomes.

Variable options : Options.
Variable self : string -> Z -> M ScrapingResult.
Variable currentDepth : Z.

Hypothesis self_keeps_address :
  forall link st r, fst (self link (currentDepth + 1)%Z st) = Return r -> result_url r = link.

Lemma childOutcomes_length (links : list string) :
  forall st, length (childOutcomes options self currentDepth links st) = length links.
Proof.
  induction links as [| link rest IH]; intros st; simpl; [reflexivity |].
  destruct (self link (currentDepth + 1)%Z _) as [outcome st2]. simpl. now rewrite IH.
Qed.

Lemma childOutcomes_cons (link : string) (rest : list string) (st : State) :
  childOutcomes options self currentDepth (link :: rest) st
  = match self link (currentDepth + 1)%Z
            (snd (logger options ("scraping " ++ link ++ "...") st)) with
    | (Throw e, st2) =>
        Throw e ::
        childOutcomes options self currentDepth rest
          (snd (logger options ("Error scraping child page " ++ link ++ ": "
                                ++ Thrown_toString e) st2))
    | (outcome, st2) => outcome :: childOutcomes options self currentDepth rest st2
    end.
Proof.
  simpl. destruct (self link (currentDepth + 1)%Z _) as [[r | e |] st2]; reflexivity.
Qed.

(** The loop against the outcomes of the child pages. *)
Lemma scrapeChildren_exact (links : list string) :
  forall (childPages : list ScrapingResult) (st : State),
    let outcomes := childOutcomes options self currentDepth links st in
    match fst (scrapeChildren options self currentDepth links childPages st) with
    | Return children =>
        children = childPages ++ returned outcomes /\
        Forall2 (fun link outcome =>
                   (exists r, outcome = Return r /\ result_url r = link) \/
                   (exists e, outcome = Throw e /\ breakWhenFailed options = false))
                links outcomes
    | Throw e =>
        breakWhenFailed options = true /\
        exists before after,
          outcomes = before ++ Throw e :: after /\
          Forall (fun outcome => exists r, outcome = Return r) before
    | OutOfFuel =>
        exists before after,
          outcomes = before ++ OutOfFuel :: after /\
          Forall (fun outcome => outcome <> OutOfFuel) before
    end.
Proof.
  induction links as [| link rest IH]; intros childPages st.
  - simpl. rewrite app_nil_r. split; [reflexivity | constructor].
  - cbv zeta. rewrite scrapeChildren_cons, childOutcomes_cons.
    destruct (self link (currentDepth + 1)%Z
                   (snd (logger options ("scraping " ++ link ++ "...") st)))
      as [[r | e |] st2] eqn:Hchild.
    + specialize (IH (childPages ++ [r]) st2). cbv zeta in IH.
      destruct (fst (scrapeChildren options self currentDepth rest (childPages ++ [r]) st2))
        as [children | e |].
      * destruct IH as (-> & Hall). split.
        -- simpl. now rewrite <- app_assoc.
        -- constructor; [| exact Hall]. left. exists r. split; [reflexivity |].
           exact (self_keeps_address _ _ (f_equal fst Hchild)).
      * destruct IH as (Hb & before & after & -> & Hbefore). split; [exact Hb |].
        exists (Return r :: before), after. split; [reflexivity |].
        constructor; [now exists r | exact Hbefore].
      * destruct IH as (before & after & -> & Hbefore).
        exists (Return r :: before), after. split; [reflexivity |].
        constructor; [discriminate | exact Hbefore].
    + destruct (breakWhenFailed options) eqn:Hb.
      * simpl. split; [reflexivity |].
        exists [], (childOutcomes options self currentDepth rest
                      (snd (logger options ("Error scraping child page " ++ link ++ ": "
                                            ++ Thrown_toString e) st2))).
        split; [reflexivity | constructor].
      * cbv zeta.
        specialize (IH childPages
                       (snd (logger options ("Error scraping child page " ++ link ++ ": "
                                             ++ Thrown_toString e) st2))).
        cbv zeta in IH.
        destruct (fst (scrapeChildren options self currentDepth rest childPages _))
          as [children | e' |].
        -- destruct IH as (-> & Hall). split; [reflexivity |].
           constructor; [| exact Hall]. right. now exists e.
        -- destruct IH as (Hb' & _). discriminate.
        -- destruct IH as (before & after & -> & Hbefore).
           exists (Throw e :: before), after. split; [reflexivity |].
           constructor; [discriminate | exact Hbefore].
    + simpl. exists [], (childOutcomes options self currentDepth rest st2).
      split; [reflexivity | constructor].
Qed.

End ChildOutcomes.

(** X11.  The loop over the child links treats failures as
    [breakWhenFailed] says.  Every link's page is run in turn.  When the
    loop returns, its results are exactly those of the pages that returned,
    in the order of the links and each under the address of its link; the
    links left out are exactly those whose page threw, which happens only
    with [breakWhenFailed] off.  When the loop throws, [breakWhenFailed] is
    on and the error is that of the first page that threw, every page before
    it having returned. *)
Theorem child_failure_policy (w : World) (fuel : nat) (options : Options)
        (currentDepth : Z) (links : list string) (st : State) :
  let self := scrapeWebPage w fuel options in
  let outcomes := childOutcomes options self currentDepth links st in
  length outcomes = length links /\
  match fst (scrapeChildren options self currentDepth links [] st) with
  | Return children =>
      children = returned outcomes /\
      Forall2 (fun link outcome =>
                 (exists r, outcome = Return r /\ result_url r = link) \/
                 (exists e, outcome = Throw e /\ breakWhenFailed options = false))
              links outcomes /\
      (breakWhenFailed options = true -> map result_url children = links)
  | Throw e =>
      breakWhenFailed options = true /\
      exists before after,
        outcomes = before ++ Throw e :: after /\
        Forall (fun outcome => exists r, outcome = Return r) before
  | OutOfFuel =>
      exists before after,
        outcomes = before ++ OutOfFuel :: after /\
        Forall (fun outcome => outcome <> OutOfFuel) before
  end.
Proof.
  intros self outcomes. split; [apply childOutcomes_length |].
  pose proof (@scrapeChildren_exact options self currentDepth
                (fun link s r => @scrapeWebPage_keeps_address w fuel options link _ s r)
                links [] st) as Hexact.
  pose proof (@scrapeChildren_outcome options self currentDepth
                (fun link s r => @scrapeWebPage_keeps_address w fuel options link _ s r)
                links [] st) as Hold.
  cbv zeta in Hexact. fold outcomes in Hexact.
  destruct (fst (scrapeChildren options self currentDepth links [] st)).
  - destruct Hexact as (-> & Hall). destruct Hold as (new & Hnew & _ & Hbreak).
    simpl in Hnew. subst new.
    split; [reflexivity | split; assumption].
  - exact Hexact.
  - exact Hexact.
Qed.

(** ** A returned page *)

Lemma visited_after_quiet {A} (m : M A) (st : State) :
  sound quietFrame m -> visitedUrls (snd (m st)) = visitedUrls st.
Proof. intros H. exact (proj1 (proj1 (H st))). Qed.

Lemma visited_after_await {A} (p : Settled A) (st : State) :
  visitedUrls (snd (await p st)) = visitedUrls st.
Proof. destruct p; reflexivity. Qed.

Lemma collectLinks_Return (w : World) (options : Options) (pg : Page) (st : State)
      (links : list string) :
  fst (collectLinks w options pg st) = Return links ->
  links = JsSet.toArray
            (JsSet.ofArray (anchorsCallback (document pg)
                              (querySelectorAll (engine w) (document pg) "a"))).
Proof.
  unfold collectLinks, evalAll. destruct (evalRejects pg "a"); [discriminate |].
  unfold bind at 1. unfold ret at 1.
  rewrite (bind_run _ _ _ (logger_run options _ st)). simpl.
  intros H. injection H as <-. reflexivity.
Qed.

(** The page body in two steps: up to the navigation, and from there on. *)
Lemma pageBody_unfold (w : World) (options : Options)
      (self : string -> Z -> M ScrapingResult) (url : string) (currentDepth : Z)
      (st : State) :
  let b := puppeteer w url in
  pageBody w options self url currentDepth st
  = match newPage b with
    | Rejected e => (Throw e, emitTo EvNewPage st)
    | Fulfilled _ =>
        (await (goto b (waitForPageLoadTimeout options)) ;;;
         title <- await (title (page b)) ;;
         data <- extractData w options (page b) ;;
         uniqueLinks <- collectLinks w options (page b) ;;
         childPages <- recurse w options self url currentDepth uniqueLinks ;;
         timestamp <- now w ;;
         ret (mkResult url title data timestamp (orUndefined childPages)))
          (emitTo (EvGoto url (waitForPageLoadTimeout options))
                  (snd (logger options ("prepare loading " ++ url ++ "...")
                               (emitTo EvNewPage st))))
    end.
Proof.
  intros b. unfold pageBody. fold b. rewrite bind_emit.
  destruct (newPage b) as [[] | e].
  - rewrite bind_await_fulfilled.
    rewrite (bind_run _ _ _ (logger_run options _ _)). rewrite bind_emit. reflexivity.
  - rewrite bind_await_rejected. reflexivity.
Qed.

Lemma pageBody_Return_children (w : World) (options : Options)
      (self : string -> Z -> M ScrapingResult) (url : string) (currentDepth : Z)
      (st : State) (r : ScrapingResult) :
  fst (pageBody w options self url currentDepth st) = Return r ->
  exists children st1,
    visitedUrls st1 = visitedUrls st /\
    fst (recurse w options self url currentDepth
           (JsSet.toArray
              (JsSet.ofArray
                 (anchorsCallback (document (page (puppeteer w url)))
                    (querySelectorAll (engine w) (document (page (puppeteer w url))) "a"))))
           st1) = Return children /\
    result_childPages r = orUndefined children.
Proof.
  rewrite pageBody_unfold. cbv zeta.
  destruct (newPage (puppeteer w url)) as [[] | e]; [| discriminate].
  intros H.
  apply bind_Return_inv in H as (_ & _ & H).
  apply bind_Return_inv in H as (t & _ & H).
  apply bind_Return_inv in H as (data & _ & H).
  apply bind_Return_inv in H as (links & Hlinks & H).
  apply collectLinks_Return in Hlinks. subst links.
  apply bind_Return_inv in H as (children & Hchildren & H).
  apply bind_Return_inv in H as (ts & _ & H).
  simpl in H. injection H as <-.
  eexists. eexists. split; [| split; [exact Hchildren | reflexivity]].
  rewrite (visited_after_quiet _ (sound_collectLinks quiet_lenient w options _)).
  rewrite (visited_after_quiet _ (sound_extractData quiet_lenient w options _)).
  rewrite !visited_after_await. simpl.
  rewrite (visited_after_quiet _ (sound_logger quiet_lenient options _)).
  reflexivity.
Qed.

(** X12.  The children of a returned page follow its links.  A page has
    [childPages] only below the depth bound; their addresses are distinct,
    come in the order in which the links were found on the page, and each
    is a link that parses, that was not visited when the page was entered,
    that is not the page itself and that the test of line 249 accepts. *)
Theorem children_follow_the_links (w : World) (fuel : nat) (options : Options)
        (url : string) (currentDepth : Z) (st : State)
        (r : ScrapingResult) (children : list ScrapingResult) :
  fst (scrapeWebPage w (S fuel) options url currentDepth st) = Return r ->
  result_childPages r = Some children ->
  let doc := document (page (puppeteer w url)) in
  let links := JsSet.toArray
                 (JsSet.ofArray (anchorsCallback doc (querySelectorAll (engine w) doc "a"))) in
  (currentDepth < maxDepth options)%Z /\
  Subsequence (map result_url children) links /\
  NoDup (map result_url children) /\
  forall child, In child children ->
    result_url child <> url /\
    isValidUrl w (result_url child) = true /\
    JsSet.has (result_url child) (visitedUrls st) = false /\
    match excludeChildPage options with
    | Some exclude => exclude (result_url child) = true
    | None => isSameDomain w url (result_url child) = true
    end.
Proof.
  intros Hrun Hchildren doc links. simpl in Hrun. unfold scrapeWebPageWith in Hrun.
  destruct (JsSet.has url (visitedUrls st)) eqn:Hvisited.
  { simpl in Hrun. injection Hrun as <-. discriminate Hchildren. }
  rewrite bind_emit in Hrun.
  destruct (launch (puppeteer w url)) as [[] | e];
    [| rewrite bind_await_rejected in Hrun; discriminate].
  rewrite bind_await_fulfilled, tryFinally_fst in Hrun.
  apply pageBody_Return_children in Hrun as (cs & st1 & Hv & Hrec & Hshape).
  fold doc in Hrec. fold links in Hrec. simpl in Hv.
  rewrite Hchildren in Hshape. unfold recurse in Hrec.
  destruct (currentDepth <? maxDepth options)%Z eqn:Hdepth.
  2:{ injection Hrec as <-. discriminate Hshape. }
  apply Z.ltb_lt in Hdepth. split; [exact Hdepth |].
  assert (cs = children) by (destruct cs; [discriminate | now injection Hshape]). subst cs.
  pose proof (@scrapeChildren_outcome options (scrapeWebPage w fuel options) currentDepth
                (fun link s r' => @scrapeWebPage_keeps_address w fuel options link _ s r')
                (validLinks w options url (visitedUrls st1) links) [] st1) as Hout.
  rewrite Hrec in Hout. destruct Hout as (new & Hnew & Hsub & _).
  simpl in Hnew. subst new.
  apply Subsequence_filter in Hsub as [Hsub Hkeep].
  split; [exact Hsub | split].
  - eapply Subsequence_NoDup; [exact Hsub | apply JsSetFacts.ofArray_NoDup].
  - intros child Hchild.
    assert (Hin : In (result_url child) (map result_url children)) by now apply in_map.
    specialize (Hkeep _ Hin). rewrite !andb_true_iff, negb_true_iff in Hkeep.
    destruct Hkeep as [[Hvalid Hfresh] Haccepted].
    rewrite Hv in Hfresh. apply JsSetFacts.has_false in Hfresh.
    repeat split.
    + intros Heq. apply Hfresh. apply JsSetFacts.add_In. now left.
    + exact Hvalid.
    + apply JsSetFacts.has_false. intros Hold. apply Hfresh.
      apply JsSetFacts.add_In. now right.
    + destruct (excludeChildPage options); exact Haccepted.
Qed.

Lemma children_follow_the_links_witness :
  let doc := document (page (puppeteer Example.site "http://a.test/")) in
  let links := JsSet.toArray
                 (JsSet.ofArray (anchorsCallback doc
                                   (querySelectorAll (engine Example.site) doc "a"))) in
  (0 < maxDepth Example.sameHost)%Z /\
  Subsequence (map result_url [Example.aboutResult]) links /\
  NoDup (map result_url [Example.aboutResult]) /\
  forall child, In child [Example.aboutResult] ->
    result_url child <> "http://a.test/" /\
    isValidUrl Example.site (result_url child) = true /\
    JsSet.has (result_url child) (visitedUrls initialState) = false /\
    match excludeChildPage Example.sameHost with
    | Some exclude => exclude (result_url child) = true
    | None => isSameDomain Example.site "http://a.test/" (result_url child) = true
    end.
Proof.
  apply (@children_follow_the_links Example.site 1 Example.sameHost "http://a.test/" 0
           initialState Example.homeResult [Example.aboutResult]).
  - vm_compute. reflexivity.
  - reflexivity.
Defined.

(** ** The depth of the result *)

Lemma depthOf_Some (url title : string) (data : DataObject) (timestamp : string)
      (children : list ScrapingResult) (n : nat) :
  Forall (fun c => (depthOf c <= n)%nat) children ->
  (depthOf (mkResult url title data timestamp (Some children)) <= S n)%nat.
Proof.
  induction 1 as [| x xs Hx _ IH]; simpl in *; [lia |].
  apply le_n_S. apply Nat.max_lub; [exact Hx | lia].
Qed.

Lemma depthOf_children (url title : string) (data : DataObject) (timestamp : string)
      (children : list ScrapingResult) (n : nat) :
  Forall (fun c => (depthOf c <= n)%nat) children ->
  (depthOf (mkResult url title data timestamp (orUndefined children)) <= S n)%nat.
Proof.
  intros Hall. destruct children as [| c cs]; [simpl; lia |].
  now apply depthOf_Some.
Qed.

Lemma scrapeWebPage_depth (w : World) (options : Options) (fuel : nat) :
  forall (url : string) (currentDepth : Z) (st : State) (r : ScrapingResult),
    fst (scrapeWebPage w fuel options url currentDepth st) = Return r ->
    (Z.of_nat (depthOf r) <= Z.max 0 (maxDepth options - currentDepth))%Z.
Proof.
  induction fuel as [| fuel IH]; intros url currentDepth st r Hrun; [discriminate |].
  simpl in Hrun. unfold scrapeWebPageWith in Hrun.
  destruct (JsSet.has url (visitedUrls st)).
  { simpl in Hrun. injection Hrun as <-. simpl. lia. }
  rewrite bind_emit in Hrun.
  destruct (launch (puppeteer w url)) as [[] | e];
    [| rewrite bind_await_rejected in Hrun; discriminate].
  rewrite bind_await_fulfilled, tryFinally_fst in Hrun.
  apply pageBody_Return_inv in Hrun as (t & links & cs & ts & st1 & _ & Hrec & ->).
  unfold recurse in Hrec.
  destruct (currentDepth <? maxDepth options)%Z eqn:Hdepth.
  - apply Z.ltb_lt in Hdepth.
    assert (Hall : Forall (fun c => (depthOf c
                                     <= Z.to_nat (maxDepth options - currentDepth - 1))%nat) cs).
    { eapply scrapeChildren_Forall; [| constructor | exact Hrec].
      intros link s c Hc. specialize (IH _ _ _ _ Hc). simpl in IH. lia. }
    pose proof (depthOf_children url t (dataOf w options (page (puppeteer w url))) ts Hall).
    lia.
  - injection Hrec as <-. simpl. lia.
Qed.

(** X13.  The result tree is no deeper than the depth bound allows: a page
    returned at [currentDepth] has at most [maxDepth - currentDepth] levels
    of children below it (none when that is negative), so that what
    [scraping] returns has at most [maxDepth], and never more than
    [MAX_DEEPEST_DEPTH], levels below the seed. *)
Theorem result_depth_is_bounded (w : World) (url : string) (st : State) (r : ScrapingResult) :
  (forall (fuel : nat) (options : Options) (currentDepth : Z),
      fst (scrapeWebPage w fuel options url currentDepth st) = Return r ->
      (Z.of_nat (depthOf r) <= Z.max 0 (maxDepth options - currentDepth))%Z) /\
  (forall _options : Partial.ScrapingOptions,
      fst (scraping w url _options st) = Return r ->
      (Z.of_nat (depthOf r) <= Z.max 0 (maxDepth (assign DefaultScrapingOptions _options)))%Z /\
      (Z.of_nat (depthOf r) <= MAX_DEEPEST_DEPTH)%Z).
Proof.
  split.
  - intros fuel options currentDepth. apply scrapeWebPage_depth.
  - intros _options. unfold scraping.
    set (options := assign DefaultScrapingOptions _options).
    destruct (maxDepth options >? MAX_DEEPEST_DEPTH)%Z eqn:E; [discriminate |].
    rewrite Z.gtb_ltb in E. apply Z.ltb_ge in E.
    rewrite tryCatch_rethrow. intros Hrun.
    apply scrapeWebPage_depth in Hrun. rewrite Z.sub_0_r in Hrun.
    split; [exact Hrun | unfold MAX_DEEPEST_DEPTH in *; lia].
Qed.

Lemma result_depth_is_bounded_witness :
  (Z.of_nat (depthOf Example.homeResult) <= Z.max 0 (maxDepth Example.sameHost - 0))%Z.
Proof.
  apply (proj1 (@result_depth_is_bounded Example.site "http://a.test/" initialState
                  Example.homeResult) 2%nat Example.sameHost 0%Z).
  vm_compute. reflexivity.
Defined.

(** ** The shape of a returned page *)

Lemma defineProperty_fresh (key : string) (value : ExtractedValue) (data : DataObject) :
  ~ In key (map fst data) -> defineProperty key value data = data ++ [(key, value)].
Proof.
  induction data as [| [k v] rest IH]; simpl; intros Hfresh; [reflexivity |].
  destruct (k =? key)%string eqn:E.
  - apply String.eqb_eq in E. tauto.
  - rewrite IH by tauto. reflexivity.
Qed.

Lemma fold_setProperty_fresh (value : Selector -> ExtractedValue)
      (entrys : list (string * Selector)) :
  forall data : DataObject,
    NoDup (map fst data ++ map fst entrys) ->
    fold_left (fun d entry => setProperty (fst entry) (value (snd entry)) d) entrys data
    = data ++ map (fun entry => (fst entry, value (snd entry)))
                  (filter (fun entry => isOwnName (fst entry)) entrys).
Proof.
  induction entrys as [| [k s] entrys IH]; intros data Hnd; simpl.
  - now rewrite app_nil_r.
  - simpl in Hnd. unfold setProperty, isOwnName at 1.
    destruct (k =? "__proto__")%string; simpl.
    + apply IH. now apply NoDup_remove_1 in Hnd.
    + rewrite defineProperty_fresh.
      * rewrite IH.
        -- now rewrite <- app_assoc.
        -- rewrite map_app. simpl. rewrite <- app_assoc. exact Hnd.
      * apply NoDup_remove_2 in Hnd. intros Hin. apply Hnd. apply in_or_app. now left.
Qed.

Lemma NoDup_map_fst_filter {X Y} (keep : X * Y -> bool) (xs : list (X * Y)) :
  NoDup (map fst xs) -> NoDup (map fst (filter keep xs)).
Proof.
  induction xs as [| x xs IH]; simpl; intros Hnd; [constructor |].
  inversion Hnd as [| ? ? Hx Hrest]; subst.
  destruct (keep x); simpl; [| now apply IH].
  constructor; [| now apply IH].
  intros Hin. apply Hx. apply in_map_iff in Hin as (y & Hy & Hin).
  apply filter_In in Hin as [Hin _]. apply in_map_iff. now exists y.
Qed.

(** X14.  A page that was fetched and returned carries the address it was
    asked for and the title the browser reported.  The properties of its
    [data] have distinct names and are exactly the configured fields, each
    with the value of that field's own selectors, but for a field named
    [__proto__], for which the assignment of line 228 creates no
    property. *)
Theorem returned_page_shape (w : World) (fuel : nat) (options : Options)
        (url : string) (currentDepth : Z) (st : State) (r : ScrapingResult) :
  JsSet.has url (visitedUrls st) = false ->
  NoDup (map fst (selectors options)) ->
  fst (scrapeWebPage w (S fuel) options url currentDepth st) = Return r ->
  let pg := page (puppeteer w url) in
  result_url r = url /\
  title pg = Fulfilled (result_title r) /\
  NoDup (map fst (result_data r)) /\
  forall (key : string) (value : ExtractedValue),
    In (key, value) (result_data r) <->
    key <> "__proto__" /\
    exists selector, In (key, selector) (selectors options) /\
                     value = fieldValue w options pg selector.
Proof.
  intros Hvisited Hnd Hrun pg. simpl in Hrun. unfold scrapeWebPageWith in Hrun.
  rewrite Hvisited, bind_emit in Hrun.
  destruct (launch (puppeteer w url)) as [[] | e];
    [| rewrite bind_await_rejected in Hrun; discriminate].
  rewrite bind_await_fulfilled, tryFinally_fst in Hrun.
  apply pageBody_Return_inv in Hrun as (t & links & cs & ts & st1 & Htitle & _ & ->).
  simpl. split; [reflexivity | split; [exact Htitle |]].
  unfold dataOf. rewrite fold_setProperty_fresh by exact Hnd. simpl.
  split.
  - rewrite map_map. simpl.
    change (map (fun entry : string * Selector => fst entry)) with (map (@fst string Selector)).
    now apply NoDup_map_fst_filter.
  - intros key value. rewrite in_map_iff. split.
    + intros ([k s] & Heq & Hin). simpl in Heq. injection Heq as <- <-.
      apply filter_In in Hin as [Hin Hown]. simpl in Hown. unfold isOwnName in Hown.
      split.
      * intros ->. discriminate.
      * now exists s.
    + intros (Hkey & s & Hin & ->). exists (key, s). split; [reflexivity |].
      apply filter_In. split; [exact Hin |]. simpl. unfold isOwnName.
      destruct (String.eqb_spec key "__proto__"); [contradiction | reflexivity].
Qed.

Lemma returned_page_shape_witness :
  let pg := page (puppeteer Example.site "http://a.test/") in
  let r := mkResult "http://a.test/" "Home" [("title", Scalar "Welcome")] "T0" None in
  result_url r = "http://a.test/" /\
  title pg = Fulfilled (result_title r) /\
  NoDup (map fst (result_data r)) /\
  forall (key : string) (value : ExtractedValue),
    In (key, value) (result_data r) <->
    key <> "__proto__" /\
    exists selector, In (key, selector) (selectors Example.protoField) /\
                     value = fieldValue Example.site Example.protoField pg selector.
Proof.
  apply (@returned_page_shape Example.site 0 Example.protoField "http://a.test/" 0
           initialState
           (mkResult "http://a.test/" "Home" [("title", Scalar "Welcome")] "T0" None)).
  - reflexivity.
  - simpl. repeat constructor; simpl; intuition discriminate.
  - vm_compute. reflexivity.
Defined.

(** ** Failures of the page itself *)

(** X15.  A failure of the page's own browser calls is thrown as it is,
    without another attempt: the launch, the opening of the page, the
    navigation, the reading of the title, the collection of the links.  The
    browser is closed in every case in which it had been launched, and the
    address stays in the visited set. *)
Theorem page_failure_is_thrown (w : World) (fuel : nat) (options : Options)
        (url : string) (currentDepth : Z) (st : State) (e : Thrown) :
  JsSet.has url (visitedUrls st) = false ->
  let b := puppeteer w url in
  let timeout := waitForPageLoadTimeout options in
  let out := scrapeWebPage w (S fuel) options url currentDepth st in
  (launch b = Rejected e ->
   out = (Throw e, emitTo EvLaunch (markVisited url st))) /\
  (launch b = Fulfilled tt -> newPage b = Rejected e ->
   out = (Throw e,
          emitTo EvClose (emitTo EvNewPage (emitTo EvLaunch (markVisited url st))))) /\
  (launch b = Fulfilled tt -> newPage b = Fulfilled tt ->
   goto b timeout = Rejected e \/
   (goto b timeout = Fulfilled tt /\ title (page b) = Rejected e) \/
   (goto b timeout = Fulfilled tt /\ (exists t, title (page b) = Fulfilled t)
    /\ evalRejects (page b) "a" = Some e) ->
   fst out = Throw e /\
   visitedUrls (snd out) = JsSet.add url (visitedUrls st) /\
   browserEvents (trace (snd out))
   = browserEvents (trace st) ++ [EvLaunch; EvNewPage; EvGoto url timeout; EvClose]).
Proof.
  intros Hvisited b timeout out. subst out. simpl. unfold scrapeWebPageWith.
  rewrite Hvisited, bind_emit. fold b.
  split; [| split].
  - intros ->. rewrite bind_await_rejected. reflexivity.
  - intros -> Hnew. rewrite bind_await_fulfilled. unfold tryFinally.
    rewrite pageBody_unfold. cbv zeta. fold b. rewrite Hnew. reflexivity.
  - intros -> Hnew Hcases. rewrite bind_await_fulfilled. unfold tryFinally.
    rewrite pageBody_unfold. cbv zeta. fold b. fold timeout. rewrite Hnew.
    match goal with
    | |- context [snd (logger options ?msg ?s)] =>
        destruct (sound_logger quiet_lenient options msg s) as [[Hv1 Hb1] _];
        set (s1 := snd (logger options msg s)) in *; clearbody s1
    end.
    simpl in Hv1, Hb1. rewrite !browserEvents_app in Hb1. simpl in Hb1.
    assert (Hdone : forall s2 : State,
               quiet (emitTo (EvGoto url timeout) s1) s2 ->
               visitedUrls (emitTo EvClose s2) = JsSet.add url (visitedUrls st) /\
               browserEvents (trace (emitTo EvClose s2))
               = browserEvents (trace st) ++ [EvLaunch; EvNewPage; EvGoto url timeout; EvClose]).
    { intros s2 [Hv2 Hb2]. simpl in Hv2, Hb2 |- *. split; [congruence |].
      rewrite browserEvents_app, Hb2, browserEvents_app, Hb1. simpl.
      rewrite <- !app_assoc. reflexivity. }
    destruct Hcases as [Hgoto | [[Hgoto Htitle] | (Hgoto & (t & Htitle) & Heval)]].
    + rewrite Hgoto, bind_await_rejected. simpl fst. simpl snd.
      split; [reflexivity | apply Hdone, (rel_refl quietFrame)].
    + rewrite Hgoto, bind_await_fulfilled, Htitle, bind_await_rejected. simpl fst. simpl snd.
      split; [reflexivity | apply Hdone, (rel_refl quietFrame)].
    + rewrite Hgoto, bind_await_fulfilled, Htitle, bind_await_fulfilled.
      rewrite (bind_run _ _ _ (extractData_value w options (page b) _)).
      match goal with
      | |- context [snd (extractData w options (page b) ?s)] =>
          pose proof (proj1 (sound_extractData quiet_lenient w options (page b) s)) as Hq;
          set (s2 := snd (extractData w options (page b) s)) in *; clearbody s2
      end.
      unfold collectLinks, evalAll. rewrite Heval.
      unfold bind at 1. unfold bind at 1. unfold throw at 1. simpl fst. simpl snd.
      split; [reflexivity | apply Hdone, Hq].
Qed.

Lemma page_failure_is_thrown_witness :
  let out := scrapeWebPage Example.site 1 DefaultScrapingOptions "http://c.test/" 0
                           initialState in
  fst out = Throw (Error "Error" "net::ERR_NAME_NOT_RESOLVED") /\
  visitedUrls (snd out) = JsSet.add "http://c.test/" (visitedUrls initialState) /\
  browserEvents (trace (snd out))
  = browserEvents (trace initialState)
    ++ [EvLaunch; EvNewPage; EvGoto "http://c.test/" 12000; EvClose].
Proof.
  apply (proj2 (proj2 (@page_failure_is_thrown Example.site 0 DefaultScrapingOptions
                         "http://c.test/" 0 initialState
                         (Error "Error" "net::ERR_NAME_NOT_RESOLVED") eq_refl))).
  - reflexivity.
  - reflexivity.
  - left. reflexivity.
Defined.

(** ** The whole crawl *)

Lemma gotos_app (a b : list Event) : gotos (a ++ b) = gotos a ++ gotos b.
Proof.
  induction a as [| ev a IH]; simpl; [reflexivity |].
  destruct ev; simpl; rewrite IH; reflexivity.
Qed.

Lemma launches_app (a b : list Event) : launches (a ++ b) = (launches a + launches b)%nat.
Proof.
  induction a as [| ev a IH]; simpl; [reflexivity |].
  destruct ev; simpl; rewrite IH; reflexivity.
Qed.

Lemma closes_app (a b : list Event) : closes (a ++ b) = (closes a + closes b)%nat.
Proof.
  induction a as [| ev a IH]; simpl; [reflexivity |].
  destruct ev; simpl; rewrite IH; reflexivity.
Qed.

Lemma gotos_browserEvents (tr : list Event) : gotos (browserEvents tr) = gotos tr.
Proof.
  induction tr as [| ev tr IH]; simpl; [reflexivity |].
  destruct ev; simpl; rewrite ?IH; reflexivity.
Qed.

Lemma quiet_gotos (st st' : State) : quiet st st' -> gotos (trace st') = gotos (trace st).
Proof.
  intros [_ Hb]. rewrite <- (gotos_browserEvents (trace st')), Hb.
  apply gotos_browserEvents.
Qed.

Lemma once_same_gotos (st st' : State) :
  grows st st' -> gotos (trace st') = gotos (trace st) -> once st st'.
Proof.
  intros Hgrows Hgotos. split; [exact Hgrows |].
  intros [Hnd Hin]. unfold visitedOnce. rewrite Hgotos. split; [exact Hnd |].
  intros url Hurl. apply Hgrows, Hin, Hurl.
Qed.

Lemma once_emit (ev : Event) :
  (forall url timeout, ev <> EvGoto url timeout) -> tolerates onceFrame (emitTo ev).
Proof.
  intros Hev st. apply once_same_gotos; [intros x H; exact H |].
  simpl. rewrite gotos_app. destruct ev; simpl; try apply app_nil_r.
  exfalso. eapply Hev. reflexivity.
Qed.

Lemma once_lenient : Lenient onceFrame.
Proof.
  split.
  - intros message. apply once_emit. discriminate.
  - intros ms. apply once_emit. discriminate.
  - intros st. apply once_same_gotos; [intros x H; exact H | reflexivity].
  - intros st. apply once_same_gotos; [intros x H; exact H | reflexivity].
Qed.

Lemma once_markVisited (url : string) : tolerates onceFrame (markVisited url).
Proof.
  intros st. apply once_same_gotos; [apply grows_markVisited | reflexivity].
Qed.

Lemma balanced_same_counts (allLaunch : Prop) (st st' : State) :
  launches (trace st') = launches (trace st) ->
  closes (trace st') = closes (trace st) ->
  balanced allLaunch st st'.
Proof. intros HL HC. split; [| intros _]; rewrite HL, HC; lia. Qed.

Lemma balanced_emit (allLaunch : Prop) (ev : Event) :
  ev <> EvLaunch -> ev <> EvClose -> tolerates (balancedFrame allLaunch) (emitTo ev).
Proof.
  intros HL HC st. apply balanced_same_counts; simpl;
    rewrite ?launches_app, ?closes_app; destruct ev; simpl; try lia; congruence.
Qed.

Lemma balanced_lenient (allLaunch : Prop) : Lenient (balancedFrame allLaunch).
Proof.
  split.
  - intros message. apply balanced_emit; discriminate.
  - intros ms. apply balanced_emit; discriminate.
  - intros st. apply balanced_same_counts; reflexivity.
  - intros st. apply balanced_same_counts; reflexivity.
Qed.

Section CrawlFacts.

Variable F : Frame.
Hypothesis lenient : Lenient F.

Variable w : World.
Variable options : Options.
Variable self : string -> Z -> M ScrapingResult.

(** The page body from the navigation on. *)
Lemma sound_afterGoto (url : string) (currentDepth : Z) :
  ((currentDepth < maxDepth options)%Z ->
   forall link, sound F (self link (currentDepth + 1)%Z)) ->
  sound F (await (goto (puppeteer w url) (waitForPageLoadTimeout options)) ;;;
           title <- await (title (page (puppeteer w url))) ;;
           data <- extractData w options (page (puppeteer w url)) ;;
           uniqueLinks <- collectLinks w options (page (puppeteer w url)) ;;
           childPages <- recurse w options self url currentDepth uniqueLinks ;;
           timestamp <- now w ;;
           ret (mkResult url title data timestamp (orUndefined childPages))).
Proof.
  intros Hself.
  apply sound_bind; [apply sound_await | intros _].
  apply sound_bind; [apply sound_await | intros t].
  apply sound_afterTitle; [exact lenient |].
  intros links. now apply sound_recurse.
Qed.

(** A page body is sound for a frame that accepts the opening of a page
    and the navigation. *)
Lemma sound_pageBody_navigating (url : string) (currentDepth : Z) :
  tolerates F (emitTo EvNewPage) ->
  tolerates F (emitTo (EvGoto url (waitForPageLoadTimeout options))) ->
  ((currentDepth < maxDepth options)%Z ->
   forall link, sound F (self link (currentDepth + 1)%Z)) ->
  sound F (pageBody w options self url currentDepth).
Proof.
  intros Hnew Hgoto Hself st. rewrite pageBody_unfold. cbv zeta.
  destruct (newPage (puppeteer w url)) as [[] | e].
  - destruct (sound_afterGoto url Hself
                (emitTo (EvGoto url (waitForPageLoadTimeout options))
                        (snd (logger options ("prepare loading " ++ url ++ "...")
                                     (emitTo EvNewPage st))))) as [Hrel Hfuel].
    split; [| exact Hfuel].
    eapply rel_trans; [apply Hnew |].
    eapply rel_trans; [apply (sound_logger lenient options) |].
    eapply rel_trans; [apply Hgoto | exact Hrel].
  - simpl. split; [apply Hnew | discriminate].
Qed.

End CrawlFacts.

Section VisitedOnce.

Variable w : World.
Variable options : Options.

Lemma sound_once_call (self : string -> Z -> M ScrapingResult)
      (url : string) (currentDepth : Z) :
  ((currentDepth < maxDepth options)%Z ->
   forall link, sound onceFrame (self link (currentDepth + 1)%Z)) ->
  sound onceFrame (scrapeWebPageWith w options self url currentDepth).
Proof.
  intros Hself st. unfold scrapeWebPageWith.
  destruct (JsSet.has url (visitedUrls st)) eqn:Hvisited.
  { apply sound_bind; [apply sound_now, once_lenient | intros ts; apply sound_ret]. }
  rewrite bind_emit.
  set (s1 := emitTo EvLaunch (markVisited url st)).
  assert (H1 : once st s1).
  { apply (rel_trans onceFrame _ (markVisited url st)); [apply once_markVisited |].
    apply once_emit. discriminate. }
  destruct (launch (puppeteer w url)) as [[] | e].
  2:{ rewrite bind_await_rejected. simpl. split; [exact H1 | discriminate]. }
  rewrite bind_await_fulfilled. unfold tryFinally. rewrite pageBody_unfold. cbv zeta.
  destruct (newPage (puppeteer w url)) as [[] | e].
  2:{ simpl. split; [| discriminate].
      apply (rel_trans onceFrame _ s1); [exact H1 |].
      apply (rel_trans onceFrame _ (emitTo EvNewPage s1)); apply once_emit; discriminate. }
  set (timeout := waitForPageLoadTimeout options).
  match goal with
  | |- context [snd (logger options ?msg ?s)] =>
      pose proof (proj1 (sound_logger quiet_lenient options msg s)) as Hq;
      set (s2 := snd (logger options msg s)) in *; clearbody s2
  end.
  set (s3 := emitTo (EvGoto url timeout) s2).
  assert (Hv3 : visitedUrls s3 = JsSet.add url (visitedUrls st)).
  { simpl. now rewrite (proj1 Hq). }
  assert (Hg3 : gotos (trace s3) = gotos (trace st) ++ [url]).
  { simpl. rewrite gotos_app, (quiet_gotos Hq). simpl.
    rewrite !gotos_app. simpl. now rewrite !app_nil_r. }
  assert (H3 : once st s3).
  { split.
    - intros x Hx. rewrite Hv3. now apply JsSetFacts.add_keeps.
    - intros [Hnd Hin]. unfold visitedOnce. rewrite Hg3, Hv3. split.
      + apply NoDup_app; auto.
        * repeat constructor. intros [].
        * intros a Ha [<- | []]. specialize (Hin _ Ha). congruence.
      + intros u Hu. apply in_app_or in Hu as [Hu | [<- | []]].
        * apply JsSetFacts.add_keeps, Hin, Hu.
        * apply JsSetFacts.add_has. }
  destruct (@sound_afterGoto onceFrame once_lenient w options self url currentDepth Hself s3)
    as [Htail Hfuel].
  fold timeout in Htail, Hfuel |- *. fold s3.
  match goal with
  | |- context [let (c, st') := ?m s3 in _] => destruct (m s3) as [c s4]
  end.
  simpl in *. split; [| exact Hfuel].
  apply (rel_trans onceFrame _ s3); [exact H3 |].
  apply (rel_trans onceFrame _ s4); [exact Htail |].
  apply once_emit. discriminate.
Qed.

Lemma sound_once_scrapeWebPage (fuel : nat) :
  forall (url : string) (currentDepth : Z),
    (Z.to_nat (maxDepth options - currentDepth) < fuel)%nat ->
    sound onceFrame (scrapeWebPage w fuel options url currentDepth).
Proof.
  induction fuel as [| fuel IH]; intros url currentDepth Hfuel; [lia |].
  simpl. apply sound_once_call. intros Hlt link. apply IH. lia.
Qed.

End VisitedOnce.

(** X16.  In one run of [scraping] no address is navigated to twice, and
    every address navigated to is in the visited set of the run, whatever
    the pages link to and however the run ends. *)
Theorem no_address_is_fetched_twice (w : World) (url : string)
        (_options : Partial.ScrapingOptions) (st : State) :
  gotos (trace st) = [] ->
  let out := scraping w url _options st in
  NoDup (gotos (trace (snd out))) /\
  forall address, In address (gotos (trace (snd out))) ->
                  JsSet.has address (visitedUrls (snd out)) = true.
Proof.
  intros Hfresh out. subst out. unfold scraping.
  set (options := assign DefaultScrapingOptions _options).
  destruct (maxDepth options >? MAX_DEEPEST_DEPTH)%Z.
  { simpl. rewrite Hfresh. split; [constructor | intros address []]. }
  rewrite tryCatch_rethrow.
  match goal with
  | |- context [scrapeWebPage w ?fuel options url 0%Z ?s] =>
      destruct (@sound_once_scrapeWebPage w options fuel url 0%Z ltac:(lia) s)
        as [[_ Honce] _];
      destruct (Honce ltac:(split; simpl; rewrite Hfresh; [constructor | intros ? []]))
        as [Hnd Hin]
  end.
  split; [exact Hnd | exact Hin].
Qed.

Lemma no_address_is_fetched_twice_witness :
  let out := scraping Example.site "http://a.test/" Example.sameHostRequest initialState in
  NoDup (gotos (trace (snd out))) /\
  forall address, In address (gotos (trace (snd out))) ->
                  JsSet.has address (visitedUrls (snd out)) = true.
Proof.
  apply (@no_address_is_fetched_twice Example.site "http://a.test/"
           Example.sameHostRequest initialState).
  reflexivity.
Defined.

Section Balance.

Variable w : World.
Variable options : Options.

Variable allLaunch : Prop.
Hypothesis launching : allLaunch -> forall address, launch (puppeteer w address) = Fulfilled tt.

Lemma sound_balanced_call (self : string -> Z -> M ScrapingResult)
      (url : string) (currentDepth : Z) :
  ((currentDepth < maxDepth options)%Z ->
   forall link, sound (balancedFrame allLaunch) (self link (currentDepth + 1)%Z)) ->
  sound (balancedFrame allLaunch) (scrapeWebPageWith w options self url currentDepth).
Proof.
  intros Hself st. unfold scrapeWebPageWith.
  destruct (JsSet.has url (visitedUrls st)).
  { apply sound_bind; [apply sound_now, balanced_lenient | intros ts; apply sound_ret]. }
  rewrite bind_emit.
  set (s1 := emitTo EvLaunch (markVisited url st)).
  assert (HL1 : launches (trace s1) = S (launches (trace st)))
    by (simpl; rewrite launches_app; simpl; lia).
  assert (HC1 : closes (trace s1) = closes (trace st))
    by (simpl; rewrite closes_app; simpl; lia).
  clearbody s1.
  destruct (launch (puppeteer w url)) as [[] | e] eqn:Hlaunch.
  2:{ rewrite bind_await_rejected. simpl fst. simpl snd. split; [| discriminate].
      split; [lia |]. intros Hall. rewrite (launching Hall url) in Hlaunch. discriminate. }
  rewrite bind_await_fulfilled. unfold tryFinally.
  destruct (@sound_pageBody_navigating (balancedFrame allLaunch)
              (balanced_lenient allLaunch) w options self url currentDepth
              ltac:(apply balanced_emit; discriminate)
              ltac:(apply balanced_emit; discriminate) Hself s1) as [[Hle Heq] Hfuel].
  destruct (pageBody w options self url currentDepth s1) as [c s2].
  simpl in Hle, Heq, Hfuel |- *. split; [| exact Hfuel].
  split.
  - simpl. rewrite launches_app, closes_app. simpl. lia.
  - intros Hall. specialize (Heq Hall). simpl. rewrite launches_app, closes_app. simpl. lia.
Qed.

Lemma sound_balanced_scrapeWebPage (fuel : nat) :
  forall (url : string) (currentDepth : Z),
    (Z.to_nat (maxDepth options - currentDepth) < fuel)%nat ->
    sound (balancedFrame allLaunch) (scrapeWebPage w fuel options url currentDepth).
Proof.
  induction fuel as [| fuel IH]; intros url currentDepth Hfuel; [lia |].
  simpl. apply sound_balanced_call. intros Hlt link. apply IH. lia.
Qed.

End Balance.

(** X17.  The browsers are given back.  In one run of [scraping] no more
    browsers are closed than were asked for, and when every launch succeeds
    exactly as many: each launched browser is closed, also on the paths that
    end in an error. *)
Theorem every_launched_browser_is_closed (w : World) (url : string)
        (_options : Partial.ScrapingOptions) (st : State) :
  trace st = [] ->
  let out := scraping w url _options st in
  (closes (trace (snd out)) <= launches (trace (snd out)))%nat /\
  ((forall address, launch (puppeteer w address) = Fulfilled tt) ->
   closes (trace (snd out)) = launches (trace (snd out))).
Proof.
  intros Hfresh out. subst out. unfold scraping.
  set (options := assign DefaultScrapingOptions _options).
  destruct (maxDepth options >? MAX_DEEPEST_DEPTH)%Z.
  { simpl. rewrite Hfresh. split; [apply Nat.le_refl | reflexivity]. }
  rewrite tryCatch_rethrow, Hfresh.
  match goal with
  | |- context [scrapeWebPage w ?fuel options url 0%Z ?s] =>
      pose proof (proj1 (@sound_balanced_scrapeWebPage w options
                           (forall address, launch (puppeteer w address) = Fulfilled tt)
                           (fun H => H) fuel url 0%Z ltac:(lia) s)) as Hb;
      set (run := scrapeWebPage w fuel options url 0%Z s) in *; clearbody run
  end.
  destruct Hb as [Hle Heq]. simpl in Hle, Heq.
  split; [lia |]. intros Hall. specialize (Heq Hall). lia.
Qed.

Lemma every_launched_browser_is_closed_witness :
  let out := scraping Example.site "http://a.test/" Example.sameHostRequest initialState in
  (closes (trace (snd out)) <= launches (trace (snd out)))%nat /\
  ((forall address, launch (puppeteer Example.site address) = Fulfilled tt) ->
   closes (trace (snd out)) = launches (trace (snd out))).
Proof.
  apply (@every_launched_browser_is_closed Example.site "http://a.test/"
           Example.sameHostRequest initialState).
  reflexivity.
Defined.

(** ** [breakWhenFailed] and the fields *)

Lemma bind_agree (A B : Type) (m : M A) (k k' : A -> M B) (st : State) :
  (forall a st', k a st' = k' a st') -> bind m k st = bind m k' st.
Proof.
  intros Hk. unfold bind. destruct (m st) as [[a | e |] st']; [apply Hk | reflexivity ..].
Qed.

Lemma extractData_run (w : World) (options : Options) (pg : Page) (st : State) :
  extractData w options pg st
  = (Return (dataOf w options pg),
     snd (allSettled (map (selectorPromise w options pg) (selectors options)) st)).
Proof.
  unfold extractData.
  rewrite (bind_run _ _ _ (selectorPromises_value w options pg (selectors options) st)).
  apply collectData_fulfilled.
Qed.

Lemma extractData_withBreak (w : World) (options : Options) (pg : Page) (st : State)
      (break : bool) :
  extractData w (withBreak break options) pg st = extractData w options pg st.
Proof. rewrite !extractData_run. reflexivity. Qed.

Lemma pageBody_withBreak (w : World) (options : Options)
      (self self' : string -> Z -> M ScrapingResult)
      (url : string) (currentDepth : Z) (st : State) (break : bool) :
  followsNothing options currentDepth ->
  pageBody w (withBreak break options) self' url currentDepth st
  = pageBody w options self url currentDepth st.
Proof.
  intros Hleaf.
  assert (Hleaf' : followsNothing (withBreak break options) currentDepth) by exact Hleaf.
  rewrite !pageBody_unfold. cbv zeta.
  change (waitForPageLoadTimeout (withBreak break options))
    with (waitForPageLoadTimeout options).
  change (logger (withBreak break options)) with (logger options).
  change (collectLinks w (withBreak break options)) with (collectLinks w options).
  destruct (newPage (puppeteer w url)) as [[] | e]; [| reflexivity].
  set (s2 := emitTo _ _). clearbody s2.
  destruct (goto (puppeteer w url) (waitForPageLoadTimeout options)) as [[] | e];
    [| reflexivity].
  rewrite !bind_await_fulfilled.
  destruct (title (page (puppeteer w url))) as [t | e]; [| reflexivity].
  rewrite !bind_await_fulfilled.
  rewrite (bind_run _ _ _ (extractData_value w (withBreak break options) _ s2)).
  rewrite (bind_run _ _ _ (extractData_value w options _ s2)).
  rewrite extractData_withBreak.
  change (dataOf w (withBreak break options)) with (dataOf w options).
  set (s3 := snd (extractData w options _ s2)). clearbody s3.
  apply bind_agree. intros links s4.
  unfold bind at 1.
  rewrite (recurse_followsNothing w self' url links s4 Hleaf').
  unfold bind at 2.
  rewrite (recurse_followsNothing w self url links s4 Hleaf).
  reflexivity.
Qed.

(** X18.  [breakWhenFailed] guards the child pages only.  The fields of a
    page are extracted with the same result and the same effects whatever
    its value, and a call that follows no child (the depth bound is
    reached, or the predicate accepts no link) ends in the same way and in
    the same state with [breakWhenFailed] on as with it off. *)
Theorem breakWhenFailed_guards_children_only (w : World) (fuel : nat) (options : Options)
        (pg : Page) (url : string) (currentDepth : Z) (st : State) (break : bool) :
  extractData w (withBreak break options) pg st = extractData w options pg st /\
  fst (extractData w options pg st) = Return (dataOf w options pg) /\
  (followsNothing options currentDepth ->
   scrapeWebPage w (S fuel) (withBreak break options) url currentDepth st
   = scrapeWebPage w (S fuel) options url currentDepth st).
Proof.
  split; [apply extractData_withBreak | split; [apply extractData_value |]].
  intros Hleaf. simpl. unfold scrapeWebPageWith.
  destruct (JsSet.has url (visitedUrls st)); [reflexivity |].
  rewrite !bind_emit.
  destruct (launch (puppeteer w url)) as [[] | e]; [| reflexivity].
  rewrite !bind_await_fulfilled. unfold tryFinally.
  now rewrite (@pageBody_withBreak w options (scrapeWebPage w fuel options)
                 (scrapeWebPage w fuel (withBreak break options)) url currentDepth _ break Hleaf).
Qed.

Lemma breakWhenFailed_guards_children_only_witness :
  scrapeWebPage Example.site 1 (withBreak true Example.twoFields) "http://a.test/" 0
                initialState
  = scrapeWebPage Example.site 1 Example.twoFields "http://a.test/" 0 initialState.
Proof.
  apply (proj2 (proj2 (@breakWhenFailed_guards_children_only Example.site 0
                         Example.twoFields (Example.staticPage "Home" Example.home)
                         "http://a.test/" 0 initialState true))).
  left. simpl. lia.
Defined.

(** ** The backoff and the program *)

Lemma steady_emit (ev : Event) :
  (forall ms, ev <> EvSleep ms) -> tolerates steadyFrame (emitTo ev).
Proof.
  intros Hev st. split; [| reflexivity]. simpl. rewrite sleepsOf_app. simpl.
  destruct ev; try (now rewrite app_nil_r). now destruct (Hev ms).
Qed.

Lemma steady_clock : tolerates steadyFrame bumpClock.
Proof. intros st. split; reflexivity. Qed.

Lemma steady_markVisited (url : string) : tolerates steadyFrame (markVisited url).
Proof. intros st. split; reflexivity. Qed.

Section Steady.

Variable w : World.
Variable options : Options.

Lemma sound_steady_logger (message : string) : sound steadyFrame (logger options message).
Proof.
  unfold logger. destruct (withConsole options); [| apply sound_ret].
  apply sound_emit, steady_emit. discriminate.
Qed.

Lemma sound_steady_now : sound steadyFrame (now w).
Proof. exact (sound_change (fun st => toISOString w (clockReads st)) steady_clock). Qed.

Lemma sound_steady_extractOperation (pg : Page) (selector : Selector) (k : nat) :
  sound steadyFrame (extractOperation w options pg selector k).
Proof.
  unfold extractOperation.
  apply sound_bind; [| intros rs; apply sound_ret].
  apply sound_allSettled_map. intros sel. unfold selectorTask.
  apply sound_bind; [apply sound_steady_logger | intros _].
  apply sound_bind; [apply sound_await | intros _].
  apply sound_bind; [apply sound_evalAll | intros x; apply sound_ret].
Qed.

(** The operation returns at its first invocation, and [retry] with it. *)
Lemma sound_steady_retry (pg : Page) (selector : Selector) :
  sound steadyFrame
        (retry w (extractOperation w options pg selector) (retryCount options) 1000).
Proof.
  intros st. destruct (1 <=? retryCount options)%Z eqn:E.
  - apply Z.leb_le in E.
    rewrite (@retry_first_attempt w _ (extractOperation w options pg selector)
               (retryCount options) 1000 st _ E
               (extractOperation_value w options pg selector 0 st)).
    simpl. split; [| discriminate].
    apply (sound_steady_extractOperation pg selector 0 st).
  - apply Z.leb_gt in E. rewrite retry_no_attempt by lia.
    simpl. split; [apply (rel_refl steadyFrame) | discriminate].
Qed.

Lemma sound_steady_extractData (pg : Page) : sound steadyFrame (extractData w options pg).
Proof.
  unfold extractData. apply sound_bind.
  - apply sound_allSettled_map. intros [key selector]. unfold selectorPromise.
    apply sound_tryCatch.
    + apply sound_bind; [apply sound_steady_retry | intros els; apply sound_ret].
    + intros e. apply sound_bind; [apply sound_steady_logger | intros _; apply sound_ret].
  - intros results. generalize (@nil (string * ExtractedValue)).
    generalize (selectors options).
    induction results as [| res results IH]; intros entrys data; simpl.
    + apply sound_ret.
    + destruct entrys as [| entry entrys]; [apply sound_ret |].
      destruct res as [[key value] | reason]; [apply IH |].
      apply sound_bind; [apply sound_steady_logger | intros _].
      destruct (breakWhenFailed options); [apply sound_throw | apply IH].
Qed.

Lemma sound_steady_collectLinks (pg : Page) : sound steadyFrame (collectLinks w options pg).
Proof.
  unfold collectLinks. apply sound_bind; [apply sound_evalAll | intros links].
  apply sound_bind; [apply sound_steady_logger | intros _; apply sound_ret].
Qed.

Variable self : string -> Z -> M ScrapingResult.

Lemma sound_steady_recurse (url : string) (currentDepth : Z) (uniqueLinks : list string) :
  ((currentDepth < maxDepth options)%Z ->
   forall link, sound steadyFrame (self link (currentDepth + 1)%Z)) ->
  sound steadyFrame (recurse w options self url currentDepth uniqueLinks).
Proof.
  intros Hself. unfold recurse.
  destruct (currentDepth <? maxDepth options)%Z eqn:E; [| apply sound_ret].
  apply Z.ltb_lt in E. specialize (Hself E).
  apply (sound_reading visitedUrls
           (fun visited => scrapeChildren options self currentDepth
                             (validLinks w options url visited uniqueLinks) [])).
  intros visited. generalize (@nil ScrapingResult).
  induction (validLinks w options url visited uniqueLinks) as [| link rest IH];
    intros childPages; simpl.
  - apply sound_ret.
  - apply sound_bind; [apply sound_steady_logger | intros _].
    apply sound_bind; [| intros cs; apply IH].
    apply sound_tryCatch.
    + apply sound_bind; [apply Hself | intros r; apply sound_ret].
    + intros e. apply sound_bind; [apply sound_steady_logger | intros _].
      destruct (breakWhenFailed options); [apply sound_throw | apply sound_ret].
Qed.

Lemma sound_steady_call (url : string) (currentDepth : Z) :
  ((currentDepth < maxDepth options)%Z ->
   forall link, sound steadyFrame (self link (currentDepth + 1)%Z)) ->
  sound steadyFrame (scrapeWebPageWith w options self url currentDepth).
Proof.
  intros Hself st. unfold scrapeWebPageWith.
  destruct (JsSet.has url (visitedUrls st)).
  { apply sound_bind; [apply sound_steady_now | intros ts; apply sound_ret]. }
  assert (Hcall : sound steadyFrame
                    (emit EvLaunch ;;;
                     await (launch (puppeteer w url)) ;;;
                     tryFinally (pageBody w options self url currentDepth)
                                (emitTo EvClose))).
  { apply sound_bind; [apply sound_emit, steady_emit; discriminate | intros _].
    apply sound_bind; [apply sound_await | intros _].
    apply sound_tryFinally; [| apply steady_emit; discriminate].
    unfold pageBody.
    apply sound_bind; [apply sound_emit, steady_emit; discriminate | intros _].
    apply sound_bind; [apply sound_await | intros _].
    apply sound_bind; [apply sound_steady_logger | intros _].
    apply sound_bind; [apply sound_emit, steady_emit; discriminate | intros _].
    apply sound_bind; [apply sound_await | intros _].
    apply sound_bind; [apply sound_await | intros t].
    apply sound_bind; [apply sound_steady_extractData | intros data].
    apply sound_bind; [apply sound_steady_collectLinks | intros links].
    apply sound_bind; [now apply sound_steady_recurse | intros cs].
    apply sound_bind; [apply sound_steady_now | intros ts; apply sound_ret]. }
  destruct (Hcall (markVisited url st)) as [Hrel Hfuel].
  split; [| exact Hfuel].
  eapply (rel_trans steadyFrame); [apply steady_markVisited | exact Hrel].
Qed.

End Steady.

Lemma sound_steady_scrapeWebPage (w : World) (options : Options) (fuel : nat) :
  forall (url : string) (currentDepth : Z),
    (Z.to_nat (maxDepth options - currentDepth) < fuel)%nat ->
    sound steadyFrame (scrapeWebPage w fuel options url currentDepth).
Proof.
  induction fuel as [| fuel IH]; intros url currentDepth Hfuel; [lia |].
  simpl. apply sound_steady_call. intros Hlt link. apply IH. lia.
Qed.

(** X19.  The program never backs off.  The operation that [scrapeWebPage]
    hands to [retry] turns every failed selector into an empty array, so its
    first invocation returns: whatever the pages do and whatever
    [retryCount] is, a run of [scraping] sleeps no backoff delay and draws
    no random number. *)
Theorem scraping_never_backs_off (w : World) (url : string)
        (_options : Partial.ScrapingOptions) (st : State) :
  let out := scraping w url _options st in
  sleepsOf (trace (snd out)) = sleepsOf (trace st) /\
  randomReads (snd out) = randomReads st.
Proof.
  intros out. subst out. unfold scraping.
  set (options := assign DefaultScrapingOptions _options).
  destruct (maxDepth options >? MAX_DEEPEST_DEPTH)%Z; [split; reflexivity |].
  rewrite tryCatch_rethrow.
  match goal with
  | |- context [scrapeWebPage w ?fuel options url 0%Z ?s] =>
      pose proof (proj1 (@sound_steady_scrapeWebPage w options fuel url 0%Z
                           ltac:(lia) s)) as Hs;
      set (run := scrapeWebPage w fuel options url 0%Z s) in *; clearbody run
  end.
  exact Hs.
Qed.
